(** * Selection, mosaic and history core of the image editing app

    A shallow embedding of the repository's JavaScript classes
    [ImageProcessor] (mosaic engine), [HistoryManager] (undo/redo stack),
    [SelectionManager] (selection state machine) and of
    [MosaicApp.processImage], with the properties the specification
    states about them.

    Conventions of the embedding:
    - pixel coordinates, loop counters and array indices are [nat];
    - the contents of a [Uint8ClampedArray] are a [list Z]; a store clamps
      to 0..255 and is ignored out of range, as typed arrays do;
    - a loop that mutates an array threads the array contents as state;
    - a loop whose step is a run-time value ([y += blockSize]) returns
      [option]: [None] stands for a loop that never ends;
    - objects that are shared by reference (the [ImageData] snapshots of
      the history) live in an explicit store indexed by references;
    - the selection model is written over a class of number operations,
      with JavaScript's binary64 numbers as the instance the application
      runs on;
    - the content of the canvas is what [getImageData] reads, and a write
      with [putImageData] goes through the premultiplied store of the
      canvas. *)

From Stdlib Require Import ZArith QArith Qminmax Qabs Lia PrimFloat Uint63.
From stdpp Require Import gmap strings list.

Close Scope Q_scope.

(** ** Loops *)

(** [for (let i = start; i < stop; i++) body] *)
Definition for_range {St : Type} (start stop : nat)
    (body : nat → St → St) (s : St) : St :=
  foldl (λ s i, body i s) s (seq start (stop - start)).

(** The same loop when the body may [return] a value out of the enclosing
    function: the first iteration that returns ends the loop. *)
Fixpoint for_return {R : Type} (l : list nat) (body : nat → option R)
    : option R :=
  match l with
  | [] => None
  | i :: l' =>
      match body i with
      | Some v => Some v
      | None => for_return l' body
      end
  end.

Definition for_range_return {R : Type} (start stop : nat)
    (body : nat → option R) : option R :=
  for_return (seq start (stop - start)) body.

(** [for (let i = start; i < stop; i += step) body].  The fuel is the
    distance still to cover, which is enough as soon as [step >= 1]; with
    [step = 0] and [start < stop] the fuel runs out, which models the
    JavaScript loop spinning forever. *)
Fixpoint for_fuel {St : Type} (fuel i stop step : nat)
    (body : nat → St → option St) (s : St) : option St :=
  if stop <=? i then Some s
  else match fuel with
       | O => None
       | S fuel' =>
           match body i s with
           | Some s' => for_fuel fuel' (i + step) stop step body s'
           | None => None
           end
       end.

Definition for_step {St : Type} (start stop step : nat)
    (body : nat → St → option St) (s : St) : option St :=
  for_fuel (stop - start) start stop step body s.

(** ** The mosaic engine ([ImageProcessor]) *)

Module Mosaic.

(** [ImageData]: a flat RGBA buffer in row-major order. *)
Record ImageData := mkImageData {
  data : list Z;
  width : nat;
  height : nat
}.

(** Conversion done by a store into a [Uint8ClampedArray]. *)
Definition clamp8 (v : Z) : Z := Z.max 0 (Z.min 255 v).

(** [data[i] = v]: clamped, and a no-op when [i] is out of range. *)
Definition store (d : list Z) (i : nat) (v : Z) : list Z :=
  <[i := clamp8 v]> d.

(** [data[i]].  Out of range JavaScript reads [undefined]; the loops below
    never do so on a buffer of [width * height * 4] bytes, and the model
    reads 0 there. *)
Definition load (d : list Z) (i : nat) : Z := d !!! i.

(** [Math.round(s / n)] for integers [s >= 0] and [n > 0]: the nearest
    integer, a tie going up.  The quotients formed by the engine are
    at most 255 with a denominator below 2^31, so the double-precision
    division cannot move a quotient across a half-integer. *)
Definition Math_round_div (s n : Z) : Z := ((2 * s + n) / (2 * n))%Z.

Record Color := mkColor { r : Z; g : Z; b : Z }.

Definition _calculateAverageColor (data : list Z)
    (startX startY blockSize width height : nat) : Color :=
  let endX := Nat.min (startX + blockSize) width in
  let endY := Nat.min (startY + blockSize) height in
  let '(r, g, b, count) :=
    for_range startY endY (λ y acc,
      for_range startX endX (λ x '(r, g, b, count),
        let index := (y * width + x) * 4 in
        ((r + load data index)%Z,
         (g + load data (index + 1))%Z,
         (b + load data (index + 2))%Z,
         (count + 1)%Z)) acc)
      (0%Z, 0%Z, 0%Z, 0%Z) in
  {| r := Math_round_div r count;
     g := Math_round_div g count;
     b := Math_round_div b count |}.

Definition _fillBlock (data : list Z)
    (startX startY blockSize width height : nat) (color : Color) : list Z :=
  let endX := Nat.min (startX + blockSize) width in
  let endY := Nat.min (startY + blockSize) height in
  for_range startY endY (λ y data,
    for_range startX endX (λ x data,
      let index := (y * width + x) * 4 in
      let data := store data index (r color) in
      let data := store data (index + 1) (g color) in
      (* the alpha byte is left alone *)
      store data (index + 2) (b color)) data) data.

Definition _processMosaic (imageData : ImageData) (blockSize : nat)
    : option ImageData :=
  let '(mkImageData data width height) := imageData in
  data' ← for_step 0 height blockSize (λ y data,
             for_step 0 width blockSize (λ x data,
               let avgColor :=
                 _calculateAverageColor data x y blockSize width height in
               Some (_fillBlock data x y blockSize width height avgColor))
             data) data;
  Some (mkImageData data' width height).

Definition _hasSelectedPixels (maskData : list Z)
    (startX startY blockSize width height : nat) : bool :=
  let endX := Nat.min (startX + blockSize) width in
  let endY := Nat.min (startY + blockSize) height in
  match
    for_range_return startY endY (λ y,
      for_range_return startX endX (λ x,
        let index := (y * width + x) * 4 in
        if (127 <? load maskData index)%Z then Some true else None))
  with
  | Some v => v
  | None => false
  end.

Definition _fillBlockWithMask (data maskData : list Z)
    (startX startY blockSize width height : nat) (color : Color) : list Z :=
  let endX := Nat.min (startX + blockSize) width in
  let endY := Nat.min (startY + blockSize) height in
  for_range startY endY (λ y data,
    for_range startX endX (λ x data,
      let index := (y * width + x) * 4 in
      if (127 <? load maskData index)%Z then
        let data := store data index (r color) in
        let data := store data (index + 1) (g color) in
        store data (index + 2) (b color)
      else data) data) data.

Definition _processMosaicWithMask (imageData : ImageData) (blockSize : nat)
    (selectionMask : ImageData) : option ImageData :=
  let '(mkImageData data width height) := imageData in
  let maskData := Mosaic.data selectionMask in
  data' ← for_step 0 height blockSize (λ y data,
             for_step 0 width blockSize (λ x data,
               if _hasSelectedPixels maskData x y blockSize width height then
                 let avgColor :=
                   _calculateAverageColor data x y blockSize width height in
                 Some (_fillBlockWithMask data maskData x y blockSize
                         width height avgColor)
               else Some data)
             data) data;
  Some (mkImageData data' width height).

(** *** Vocabulary of the specification *)

(** A raster: [width * height] pixels of four bytes each. *)
Definition is_byte (v : Z) : Prop := (0 ≤ v ≤ 255)%Z.

Definition raster (img : ImageData) : Prop :=
  length (data img) = width img * height img * 4 ∧ Forall is_byte (data img).

(** Channel [c] (0 = R, 1 = G, 2 = B, 3 = A) of the pixel at [(x, y)]. *)
Definition chan (d : list Z) (w x y c : nat) : Z :=
  load d ((y * w + x) * 4 + c).

(** The pixels of the box [x0 <= x < x1], [y0 <= y < y1]. *)
Definition tile_pixels (x0 y0 x1 y1 : nat) : list (nat * nat) :=
  y ← seq y0 (y1 - y0); (λ x, (x, y)) <$> seq x0 (x1 - x0).

(** The tile of the [b]-by-[b] grid anchored at (0,0) that holds [(x, y)],
    clipped to the image. *)
Definition tile_of (w h b x y : nat) : list (nat * nat) :=
  let tx := x / b * b in
  let ty := y / b * b in
  tile_pixels tx ty (Nat.min (tx + b) w) (Nat.min (ty + b) h).

Definition channel_sum (d : list Z) (w c : nat) (ps : list (nat * nat)) : Z :=
  foldr (λ p acc, (chan d w p.1 p.2 c + acc)%Z) 0%Z ps.

(** [v] is the mean [s / n] rounded to the nearest integer (a tie up). *)
Definition rounded_mean (s n v : Z) : Prop :=
  (2 * n * v ≤ 2 * s + n < 2 * n * (v + 1))%Z.

(** Channel [c] of a colour. *)
Definition chan_of (col : Color) (c : nat) : Z :=
  match c with 0 => r col | 1 => g col | _ => b col end.

(** The three stores done for one pixel by the fill loops. *)
Definition paint (col : Color) (w : nat) (d : list Z) (p : nat * nat)
    : list Z :=
  let index := (p.2 * w + p.1) * 4 in
  store (store (store d index (r col)) (index + 1) (g col))
    (index + 2) (b col).

(** A pixel is selected by a mask when channel 0 exceeds half of 255. *)
Definition selected (maskData : list Z) (w x y : nat) : bool :=
  (127 <? load maskData ((y * w + x) * 4))%Z.

(** The body of the masked fill loop for one pixel. *)
Definition paint_selected (col : Color) (maskData : list Z) (w : nat)
    (d : list Z) (p : nat * nat) : list Z :=
  if selected maskData w p.1 p.2 then paint col w d p else d.

(** *** Sample rasters *)

Definition sample_image : ImageData :=
  mkImageData
    [ 10; 20; 30; 255;   50; 60; 70; 128;   90; 100; 110; 0;
      11; 21; 31; 7;     52; 62; 73; 255;   200; 0; 255; 64 ]%Z
    3 2.

Definition sample_mask : ImageData :=
  mkImageData
    [ 0; 0; 0; 255;      255; 255; 255; 255;  0; 0; 0; 255;
      0; 0; 0; 255;      0; 0; 0; 255;        0; 0; 0; 255 ]%Z
    3 2.

Definition black_mask : ImageData :=
  mkImageData (replicate 6 [0; 0; 0; 255]%Z ≫= id) 3 2.

Definition white_mask : ImageData :=
  mkImageData (replicate 6 [255; 255; 255; 255]%Z ≫= id) 3 2.

End Mosaic.

(** ** Objects shared by reference *)

(** A reference to an [ImageData] object.  The object and its pixel buffer
    are created together and the buffer is never re-seated, so one
    reference stands for both. *)
Abbreviation ref := nat (only parsing).

(** The objects alive, by reference. *)
Abbreviation objects := (gmap nat Mosaic.ImageData) (only parsing).

Global Instance ImageData_inhabited : Inhabited Mosaic.ImageData :=
  populate (Mosaic.mkImageData [] 0 0).

(** [new ImageData(...)]: a reference no live object has. *)
Definition alloc (v : Mosaic.ImageData) (σ : objects) : ref * objects :=
  let l := fresh (dom σ) in (l, <[l := v]> σ).

(** How a method call ends. *)
Inductive completion (A : Type) : Type :=
  | Returns (a : A)
  | Throws.
Arguments Returns {A} a.
Arguments Throws {A}.

(** [arr[i]] for a JavaScript number [i] holding an integer: [undefined]
    (here [None]) outside of [0 .. length-1]. *)
Definition js_index {A : Type} (l : list A) (i : Z) : option A :=
  if (i <? 0)%Z then None else l !! Z.to_nat i.

(** [arr.slice(0, e)]: a negative [e] counts from the end. *)
Definition js_slice0 {A : Type} (l : list A) (e : Z) : list A :=
  if (e <? 0)%Z then take (Z.to_nat (Z.max (Z.of_nat (length l) + e) 0)) l
  else take (Z.to_nat e) l.

(** ** The history stack ([HistoryManager]) *)

Module History.

Record State := mkState {
  imageData : ref;
  actionName : string;
  timestamp : Z
}.

Record HistoryManager := mkHistoryManager {
  history : list State;
  currentIndex : Z;
  maxHistorySize : Z
}.

Definition len (hm : HistoryManager) : Z := Z.of_nat (length (history hm)).

Definition constructor (maxHistorySize : Z) : HistoryManager :=
  {| history := []; currentIndex := -1; maxHistorySize := maxHistorySize |}.

(** [new ImageData(new Uint8ClampedArray(imageData.data), width, height)]:
    a new object holding a copy of the bytes. *)
Definition cloneImageData (imageData : ref) (σ : objects) : ref * objects :=
  alloc (σ !!! imageData) σ.

Definition canUndo (hm : HistoryManager) : bool :=
  (0 <? currentIndex hm)%Z.

Definition canRedo (hm : HistoryManager) : bool :=
  (currentIndex hm <? len hm - 1)%Z.

(** [now] is the value of [Date.now()] at the call. *)
Definition saveState (imageData : ref) (actionName : string) (now : Z)
    (hm : HistoryManager) (σ : objects) : HistoryManager * objects :=
  let history1 :=
    if (currentIndex hm <? len hm - 1)%Z
    then js_slice0 (history hm) (currentIndex hm + 1)
    else history hm in
  let '(cloned, σ1) := cloneImageData imageData σ in
  let state := {| imageData := cloned; actionName := actionName;
                  timestamp := now |} in
  let history2 := history1 ++ [state] in
  let currentIndex2 := (Z.of_nat (length history2) - 1)%Z in
  if (maxHistorySize hm <? Z.of_nat (length history2))%Z
  then ({| history := drop 1 history2;
           currentIndex := currentIndex2 - 1;
           maxHistorySize := maxHistorySize hm |}, σ1)
  else ({| history := history2;
           currentIndex := currentIndex2;
           maxHistorySize := maxHistorySize hm |}, σ1).

(** [undo] and [redo] return the clone ([Some]) or [null] ([None]); reading
    [state.actionName] of a missing entry throws, after the index moved. *)
Definition undo (hm : HistoryManager) (σ : objects)
    : completion (option ref) * HistoryManager * objects :=
  if negb (canUndo hm) then (Returns None, hm, σ)
  else
    let hm1 := {| history := history hm;
                  currentIndex := currentIndex hm - 1;
                  maxHistorySize := maxHistorySize hm |} in
    match js_index (history hm1) (currentIndex hm1) with
    | None => (Throws, hm1, σ)
    | Some state =>
        let '(cloned, σ1) := cloneImageData (imageData state) σ in
        (Returns (Some cloned), hm1, σ1)
    end.

Definition redo (hm : HistoryManager) (σ : objects)
    : completion (option ref) * HistoryManager * objects :=
  if negb (canRedo hm) then (Returns None, hm, σ)
  else
    let hm1 := {| history := history hm;
                  currentIndex := currentIndex hm + 1;
                  maxHistorySize := maxHistorySize hm |} in
    match js_index (history hm1) (currentIndex hm1) with
    | None => (Throws, hm1, σ)
    | Some state =>
        let '(cloned, σ1) := cloneImageData (imageData state) σ in
        (Returns (Some cloned), hm1, σ1)
    end.

Definition getCurrentActionName (hm : HistoryManager) : option string :=
  if (0 <=? currentIndex hm)%Z && (currentIndex hm <? len hm)%Z
  then actionName <$> js_index (history hm) (currentIndex hm)
  else None.

Definition clear (hm : HistoryManager) : HistoryManager :=
  {| history := []; currentIndex := -1; maxHistorySize := maxHistorySize hm |}.

(** [history.splice(0, removeCount)] with [removeCount > 0] drops that
    many entries from the front (all of them when there are fewer). *)
Definition optimize (keepCount : Z) (hm : HistoryManager) : HistoryManager :=
  if (keepCount <? len hm)%Z then
    let removeCount := (len hm - keepCount)%Z in
    let currentIndex1 := (currentIndex hm - removeCount)%Z in
    {| history := drop (Z.to_nat removeCount) (history hm);
       currentIndex := if (currentIndex1 <? 0)%Z then 0 else currentIndex1;
       maxHistorySize := maxHistorySize hm |}
  else hm.

(** The operations that do not push an entry. *)
Inductive Op :=
  | OpUndo
  | OpRedo
  | OpClear
  | OpOptimize (keepCount : Z).

Definition apply_op (op : Op) (s : HistoryManager * objects)
    : HistoryManager * objects :=
  match op with
  | OpUndo => let '(_, hm, σ) := undo s.1 s.2 in (hm, σ)
  | OpRedo => let '(_, hm, σ) := redo s.1 s.2 in (hm, σ)
  | OpClear => (clear s.1, s.2)
  | OpOptimize k => (optimize k s.1, s.2)
  end.

(** One push: the raster, its label and the clock. *)
Definition push_all (ps : list (ref * string * Z))
    (s : HistoryManager * objects) : HistoryManager * objects :=
  foldl (λ s p, saveState p.1.1 p.1.2 p.2 s.1 s.2) s ps.

Definition run_ops (ops : list Op) (s : HistoryManager * objects)
    : HistoryManager * objects :=
  foldl (λ s op, apply_op op s) s ops.

(** The data-model invariant of the stack. *)
Definition wf (hm : HistoryManager) : Prop :=
  (-1 ≤ currentIndex hm < len hm)%Z.

(** Every entry refers to a live object. *)
Definition alive (hm : HistoryManager) (σ : objects) : Prop :=
  Forall (λ e, is_Some (σ !! imageData e)) (history hm).

(** What an entry holds: the raster it refers to, its label, its time. *)
Definition snapshot (σ : objects) (e : State)
    : Mosaic.ImageData * string * Z :=
  (σ !!! (imageData e), actionName e, timestamp e).

(** What a push was given. *)
Definition pushed (σ : objects) (p : ref * string * Z)
    : Mosaic.ImageData * string * Z :=
  (σ !!! p.1.1, p.1.2, p.2).

(** The states the application can bring the stack to: it only pushes,
    undoes, redoes and clears, and other objects are created in between. *)
Inductive reachable (maxSize : Z) : HistoryManager → objects → Prop :=
  | reach_constructor σ :
      reachable maxSize (constructor maxSize) σ
  | reach_alloc hm σ v :
      reachable maxSize hm σ → reachable maxSize hm (alloc v σ).2
  | reach_saveState hm σ img name now :
      reachable maxSize hm σ →
      reachable maxSize (saveState img name now hm σ).1
        (saveState img name now hm σ).2
  | reach_undo hm σ :
      reachable maxSize hm σ →
      reachable maxSize (undo hm σ).1.2 (undo hm σ).2
  | reach_redo hm σ :
      reachable maxSize hm σ →
      reachable maxSize (redo hm σ).1.2 (redo hm σ).2
  | reach_clear hm σ :
      reachable maxSize hm σ → reachable maxSize (clear hm) σ.

(** [getPreviousActionName()] and [getNextActionName()]: the label of the
    entry an undo, a redo would restore, or [null]; reading the label of a
    missing entry throws. *)
Definition getPreviousActionName (hm : HistoryManager)
    : completion (option string) :=
  if canUndo hm then
    match js_index (history hm) (currentIndex hm - 1) with
    | Some state => Returns (Some (actionName state))
    | None => Throws
    end
  else Returns None.

Definition getNextActionName (hm : HistoryManager)
    : completion (option string) :=
  if canRedo hm then
    match js_index (history hm) (currentIndex hm + 1) with
    | Some state => Returns (Some (actionName state))
    | None => Throws
    end
  else Returns None.

(** *** Sample stacks *)

Definition two_entries : HistoryManager :=
  {| history := [mkState 0 "Initial Image Load" 100;
                 mkState 1 "Mosaic Applied" 200];
     currentIndex := 1; maxHistorySize := 10 |}.

Definition two_objects : objects :=
  <[1 := Mosaic.mkImageData [31; 41; 51; 255]%Z 1 1]>
    (<[0 := Mosaic.mkImageData [10; 20; 30; 255]%Z 1 1]> ∅).

Definition three_pushes : list (ref * string * Z) :=
  [(0, "Initial Image Load", 100%Z); (1, "Mosaic Applied", 200%Z);
   (0, "Reset to Original", 300%Z)].

End History.

(** ** The selection model ([SelectionManager]) *)

Module Selection.

(** Image-space coordinates are JavaScript numbers.  The model is written
    over the operations on numbers that the class uses; [Number_float]
    below gives them as JavaScript has them, on binary64 floating-point
    numbers with their rounding, and every statement about the model that
    involves a computed width or height holds for that instance. *)
Class Number (num : Type) := mkNumber {
  (** an integer literal, or an integer such as [canvas.width] *)
  num_of_Z : Z → num;
  (** [a - b], [a * b], [a / b] *)
  num_sub : num → num → num;
  num_mul : num → num → num;
  num_div : num → num → num;
  (** [Math.abs(a)], [Math.min(a, b)], [Math.max(a, b)] *)
  Math_abs : num → num;
  Math_min : num → num → num;
  Math_max : num → num → num;
  (** [a < b] *)
  num_lt : num → num → bool
}.

(** *** JavaScript's numbers: binary64 *)

(** An integer as a number; exact below 2^53, which covers the literals
    and the sizes of a canvas. *)
Definition float_of_Z (z : Z) : float :=
  match z with
  | Z0 => PrimFloat.zero
  | Zpos _ => PrimFloat.of_uint63 (Uint63.of_Z z)
  | Zneg p => PrimFloat.opp (PrimFloat.of_uint63 (Uint63.of_Z (Zpos p)))
  end.

(** [Math.min] and [Math.max]: [NaN] when an argument is [NaN]; of two
    zeros, [-0] is the smaller. *)
Definition float_min (a b : float) : float :=
  if PrimFloat.is_nan a || PrimFloat.is_nan b then PrimFloat.nan
  else if PrimFloat.ltb a b then a
  else if PrimFloat.ltb b a then b
  else if PrimFloat.get_sign a then a else b.

Definition float_max (a b : float) : float :=
  if PrimFloat.is_nan a || PrimFloat.is_nan b then PrimFloat.nan
  else if PrimFloat.ltb b a then a
  else if PrimFloat.ltb a b then b
  else if PrimFloat.get_sign a then b else a.

#[global] Instance Number_float : Number float :=
  {| num_of_Z := float_of_Z;
     num_sub := PrimFloat.sub;
     num_mul := PrimFloat.mul;
     num_div := PrimFloat.div;
     Math_abs := PrimFloat.abs;
     Math_min := float_min;
     Math_max := float_max;
     num_lt := PrimFloat.ltb |}.

(** *** Exact arithmetic: the rationals *)

Definition Qltb (a c : Q) : bool := negb (Qle_bool c a).

#[global] Instance Number_Q : Number Q :=
  {| num_of_Z := inject_Z;
     num_sub := Qminus;
     num_mul := Qmult;
     num_div := Qdiv;
     Math_abs := Qabs;
     Math_min := Qmin;
     Math_max := Qmax;
     num_lt := Qltb |}.

(** *** The fields and the methods of [SelectionManager] *)

Section Model.
Context {num : Type} {Num : Number num}.

Record Point := mkPoint { x : num; y : num }.

Record Rectangle := mkRectangle {
  rect_x : num;
  rect_y : num;
  rect_width : num;
  rect_height : num
}.

(** The fields of the class that hold selection state.  The canvases, the
    overlay drawing and the change callback (which only refreshes buttons)
    do not feed back into these fields and are left out. *)
Record SelectionManager := mkSelectionManager {
  isSelecting : bool;
  selectionMode : string;
  selectionPath : list Point;
  rectangleSelection : option Rectangle;
  isConfirmed : bool;
  startPoint : option Point;
  currentPoint : option Point
}.

(** A mouse event: its button and [getCanvasPoint(event)], the pointer
    position mapped to image space.  Touch events are forwarded as mouse
    events with button 0. *)
Record MouseEvent := mkMouseEvent { button : Z; point : Point }.

Definition constructor : SelectionManager :=
  {| isSelecting := false; selectionMode := "rectangle";
     selectionPath := []; rectangleSelection := None; isConfirmed := false;
     startPoint := None; currentPoint := None |}.

Definition hasSelection (sm : SelectionManager) : bool :=
  if String.eqb (selectionMode sm) "full" then isConfirmed sm
  else if String.eqb (selectionMode sm) "rectangle" then
    bool_decide (rectangleSelection sm ≠ None) && isConfirmed sm
  else if String.eqb (selectionMode sm) "freehand" then
    (0 <? length (selectionPath sm)) && isConfirmed sm
  else false.

Definition isSelectionConfirmed (sm : SelectionManager) : bool :=
  if String.eqb (selectionMode sm) "full" then true else isConfirmed sm.

Definition clearSelection (resetToDefault : bool) (sm : SelectionManager)
    : SelectionManager :=
  let mode := if resetToDefault then "rectangle" else selectionMode sm in
  let confirmed :=
    if resetToDefault then false
    else if negb (String.eqb mode "full") then false
    else isConfirmed sm in
  {| isSelecting := false; selectionMode := mode;
     selectionPath := []; rectangleSelection := None;
     isConfirmed := confirmed;
     startPoint := None; currentPoint := None |}.

Definition setSelectionMode (mode : string) (sm : SelectionManager)
    : SelectionManager :=
  let previousMode := selectionMode sm in
  let sm1 := clearSelection false
    {| isSelecting := isSelecting sm; selectionMode := mode;
       selectionPath := selectionPath sm;
       rectangleSelection := rectangleSelection sm;
       isConfirmed := isConfirmed sm;
       startPoint := startPoint sm; currentPoint := currentPoint sm |} in
  let confirmed :=
    if String.eqb mode "full" && negb (String.eqb previousMode "full")
    then true
    else if negb (String.eqb mode "full") then false
    else isConfirmed sm1 in
  {| isSelecting := isSelecting sm1; selectionMode := selectionMode sm1;
     selectionPath := selectionPath sm1;
     rectangleSelection := rectangleSelection sm1;
     isConfirmed := confirmed;
     startPoint := startPoint sm1; currentPoint := currentPoint sm1 |}.

Definition handleMouseDown (event : MouseEvent) (sm : SelectionManager)
    : SelectionManager :=
  if negb (button event =? 0)%Z then sm
  else
    {| isSelecting := true; selectionMode := selectionMode sm;
       selectionPath :=
         if String.eqb (selectionMode sm) "freehand" then [point event]
         else selectionPath sm;
       rectangleSelection := rectangleSelection sm;
       isConfirmed := false;
       startPoint := Some (point event);
       currentPoint := Some (point event) |}.

Definition handleMouseMove (event : MouseEvent) (sm : SelectionManager)
    : SelectionManager :=
  if negb (isSelecting sm) then sm
  else
    {| isSelecting := isSelecting sm; selectionMode := selectionMode sm;
       selectionPath :=
         if String.eqb (selectionMode sm) "rectangle" then selectionPath sm
         else if String.eqb (selectionMode sm) "freehand"
         then selectionPath sm ++ [point event]
         else selectionPath sm;
       rectangleSelection := rectangleSelection sm;
       isConfirmed := isConfirmed sm;
       startPoint := startPoint sm;
       currentPoint := Some (point event) |}.

(** The box spanned by the start and the current point. *)
Definition drag_box (s c : Point) : Rectangle :=
  {| rect_x := Math_min (x s) (x c);
     rect_y := Math_min (y s) (y c);
     rect_width := Math_abs (num_sub (x c) (x s));
     rect_height := Math_abs (num_sub (y c) (y s)) |}.

(** [None]: destructuring a [null] start or current point throws. *)
Definition finalizeRectangleSelection (sm : SelectionManager)
    : option SelectionManager :=
  match startPoint sm, currentPoint sm with
  | Some s, Some c =>
      let box := drag_box s c in
      if num_lt (rect_width box) (num_of_Z 5)
         || num_lt (rect_height box) (num_of_Z 5)
      then Some (clearSelection false sm)
      else Some
        {| isSelecting := isSelecting sm; selectionMode := selectionMode sm;
           selectionPath := selectionPath sm;
           rectangleSelection := Some box;
           isConfirmed := true;
           startPoint := startPoint sm; currentPoint := currentPoint sm |}
  | _, _ => None
  end.

Definition finalizeFreehandSelection (sm : SelectionManager)
    : SelectionManager :=
  if length (selectionPath sm) <? 10 then clearSelection false sm
  else
    {| isSelecting := isSelecting sm; selectionMode := selectionMode sm;
       selectionPath :=
         match selectionPath sm with
         | first :: _ => selectionPath sm ++ [first]
         | [] => selectionPath sm
         end;
       rectangleSelection := rectangleSelection sm;
       isConfirmed := true;
       startPoint := startPoint sm; currentPoint := currentPoint sm |}.

(** The fields after the handler ran.  Should [finalizeRectangleSelection]
    throw, the error leaves the handler and the write to [isSelecting]
    stays. *)
Definition handleMouseUp (event : MouseEvent) (sm : SelectionManager)
    : SelectionManager :=
  if negb (button event =? 0)%Z || negb (isSelecting sm) then sm
  else
    let sm1 :=
      {| isSelecting := false; selectionMode := selectionMode sm;
         selectionPath := selectionPath sm;
         rectangleSelection := rectangleSelection sm;
         isConfirmed := isConfirmed sm;
         startPoint := startPoint sm; currentPoint := currentPoint sm |} in
    if String.eqb (selectionMode sm1) "rectangle" then
      match finalizeRectangleSelection sm1 with
      | Some sm2 => sm2
      | None => sm1
      end
    else if String.eqb (selectionMode sm1) "freehand" then
      finalizeFreehandSelection sm1
    else sm1.

Definition handleRightClick (sm : SelectionManager) : SelectionManager :=
  if hasSelection sm && isConfirmed sm then clearSelection false sm else sm.

Definition confirmSelection (sm : SelectionManager) : SelectionManager :=
  {| isSelecting := isSelecting sm; selectionMode := selectionMode sm;
     selectionPath := selectionPath sm;
     rectangleSelection := rectangleSelection sm;
     isConfirmed := true;
     startPoint := startPoint sm; currentPoint := currentPoint sm |}.

(** Called after a mosaic pass: both branches of the source reset the
    confirmed flag. *)
Definition clearSelectionKeepMode (sm : SelectionManager)
    : SelectionManager :=
  {| isSelecting := false; selectionMode := selectionMode sm;
     selectionPath := []; rectangleSelection := None;
     isConfirmed :=
       if negb (String.eqb (selectionMode sm) "full") then false else false;
     startPoint := None; currentPoint := None |}.

(** What can happen to the model without a change of mode and without a
    mosaic pass. *)
Inductive Event :=
  | PointerDown (e : MouseEvent)
  | PointerMove (e : MouseEvent)
  | PointerUp (e : MouseEvent)
  | RightClick
  | Clear.

Definition handle (ev : Event) (sm : SelectionManager) : SelectionManager :=
  match ev with
  | PointerDown e => handleMouseDown e sm
  | PointerMove e => handleMouseMove e sm
  | PointerUp e => handleMouseUp e sm
  | RightClick => handleRightClick sm
  | Clear => clearSelection false sm
  end.

Definition run (evs : list Event) (sm : SelectionManager)
    : SelectionManager :=
  foldl (λ sm ev, handle ev sm) sm evs.

(** The event ends a drag whose box passes the test of
    [finalizeRectangleSelection]: neither its width nor its height is
    below 5. *)
Definition completes_drag (ev : Event) (sm : SelectionManager) : bool :=
  match ev with
  | PointerUp e =>
      (button e =? 0)%Z && isSelecting sm &&
      match startPoint sm, currentPoint sm with
      | Some s, Some c =>
          negb (num_lt (rect_width (drag_box s c)) (num_of_Z 5)) &&
          negb (num_lt (rect_height (drag_box s c)) (num_of_Z 5))
      | _, _ => false
      end
  | _ => false
  end.

(** No event of the sequence, run from [sm], ends such a drag. *)
Fixpoint no_drag_completed (evs : list Event) (sm : SelectionManager)
    : bool :=
  match evs with
  | [] => true
  | ev :: evs' =>
      negb (completes_drag ev sm) && no_drag_completed evs' (handle ev sm)
  end.

(** The three states of the specification, read off the fields. *)
Inductive Phase := Idle | Dragging | Confirmed.

Definition phase (sm : SelectionManager) : Phase :=
  if isSelecting sm then Dragging
  else if hasSelection sm then Confirmed
  else Idle.

(** [canvas.getBoundingClientRect()]: where the canvas is displayed. *)
Record DOMRect := mkDOMRect {
  dom_left : num;
  dom_top : num;
  dom_width : num;
  dom_height : num
}.

(** [getCanvasPoint(event)]: the pointer position [(clientX, clientY)]
    scaled from the displayed size to the size of the canvas and clamped
    to the canvas. *)
Definition getCanvasPoint (clientX clientY : num) (rect : DOMRect)
    (canvasWidth canvasHeight : nat) : Point :=
  let cw := num_of_Z (Z.of_nat canvasWidth) in
  let ch := num_of_Z (Z.of_nat canvasHeight) in
  let scaleX := num_div cw (dom_width rect) in
  let scaleY := num_div ch (dom_height rect) in
  let px := num_mul (num_sub clientX (dom_left rect)) scaleX in
  let py := num_mul (num_sub clientY (dom_top rect)) scaleY in
  {| x := Math_max (num_of_Z 0) (Math_min px cw);
     y := Math_max (num_of_Z 0) (Math_min py ch) |}.

(** The calls the application makes on the model: the events above, a
    change of mode, a reset to the default mode and the clearing that
    follows a mosaic pass.  ([confirmSelection] is never called.) *)
Inductive Call :=
  | CallEvent (ev : Event)
  | CallSetMode (mode : string)
  | CallClearReset
  | CallClearKeepMode.

Definition call (c : Call) (sm : SelectionManager) : SelectionManager :=
  match c with
  | CallEvent ev => handle ev sm
  | CallSetMode mode => setSelectionMode mode sm
  | CallClearReset => clearSelection true sm
  | CallClearKeepMode => clearSelectionKeepMode sm
  end.

Definition run_calls (cs : list Call) (sm : SelectionManager)
    : SelectionManager :=
  foldl (λ sm c, call c sm) sm cs.

(** A whole gesture: press at [p0], move through [ps], release. *)
Definition gesture (p0 : Point) (ps : list Point) (sm : SelectionManager)
    : SelectionManager :=
  handleMouseUp (mkMouseEvent 0 (List.last ps p0))
    (foldl (λ sm p, handleMouseMove (mkMouseEvent 0 p) sm)
       (handleMouseDown (mkMouseEvent 0 p0) sm) ps).

(** What every state reached by the application satisfies. *)
Definition consistent (sm : SelectionManager) : Prop :=
  (selectionMode sm ≠ "freehand" → selectionPath sm = [])
  ∧ (selectionMode sm = "freehand" → isConfirmed sm = true →
     11 ≤ length (selectionPath sm)
     ∧ head (selectionPath sm) = last (selectionPath sm))
  ∧ (∀ box, rectangleSelection sm = Some box →
       selectionMode sm = "rectangle"
       ∧ num_lt (rect_width box) (num_of_Z 5) = false
       ∧ num_lt (rect_height box) (num_of_Z 5) = false)
  ∧ (isSelecting sm = true →
     isConfirmed sm = false
     ∧ is_Some (startPoint sm) ∧ is_Some (currentPoint sm)).

End Model.

Arguments Point num : clear implicits.
Arguments Rectangle num : clear implicits.
Arguments SelectionManager num : clear implicits.
Arguments MouseEvent num : clear implicits.
Arguments Event num : clear implicits.
Arguments DOMRect num : clear implicits.
Arguments Call num : clear implicits.

(** *** Sample gestures, in JavaScript's numbers *)

Definition pt (px py : float) : Point float := mkPoint px py.

Definition primary (px py : float) : MouseEvent float :=
  {| button := 0; point := pt px py |}.

(** A drag from (2,2) to (12,12) in rectangle mode, before the button is
    released. *)
Definition rectangle_drag : SelectionManager float :=
  handleMouseMove (primary 12 12) (handleMouseDown (primary 2 2) constructor).

(** A freehand drag that recorded 9 points. *)
Definition freehand_drag : SelectionManager float :=
  foldl (λ sm px, handleMouseMove (primary px 3) sm)
    (handleMouseDown (primary 1 3) (setSelectionMode "freehand" constructor))
    [2; 3; 4; 5; 6; 7; 8; 9]%float.

Definition full_confirmed : SelectionManager float :=
  setSelectionMode "full" constructor.

Definition rectangle_confirmed : SelectionManager float :=
  handleMouseUp (primary 12 12) rectangle_drag.

(** Full mode after a mosaic pass: the pass reset the confirmed flag. *)
Definition full_after_pass : SelectionManager float :=
  clearSelectionKeepMode full_confirmed.

(** A drag on a canvas of 600 by 600 pixels that is displayed 840 by 840,
    with the pointer pressed at (5, 7) and released at (12, 21).  In
    binary64 the press lands on 3.5714285714285716 and the release on
    8.571428571428571 of the x axis, and their difference is computed as
    exactly 5, although the difference of these two numbers is a little
    less than 5. *)
Definition shown_840 : DOMRect float := (mkDOMRect 0 0 840 840)%float.

Definition boundary_start : Point float :=
  getCanvasPoint 5%float 7%float shown_840 600 600.

Definition boundary_end : Point float :=
  getCanvasPoint 12%float 21%float shown_840 600 600.

Definition boundary_drag : SelectionManager float :=
  handleMouseMove {| button := 0; point := boundary_end |}
    (handleMouseDown {| button := 0; point := boundary_start |} constructor).

(** The other way round: a canvas of 640 by 640 pixels displayed 1152 by
    1152, the pointer pressed at (11, 7) and released at (20, 21).  The
    scaled offsets differ by exactly 5, but binary64 computes the width
    4.999999999999999. *)
Definition shown_1152 : DOMRect float := (mkDOMRect 0 0 1152 1152)%float.

Definition short_start : Point float :=
  getCanvasPoint 11%float 7%float shown_1152 640 640.

Definition short_end : Point float :=
  getCanvasPoint 20%float 21%float shown_1152 640 640.

Definition short_drag : SelectionManager float :=
  handleMouseMove {| button := 0; point := short_end |}
    (handleMouseDown {| button := 0; point := short_start |} constructor).

End Selection.

(** ** The edit session ([ImageProcessor] state and [MosaicApp]) *)

Module App.

(** How an [async] method of the application ends: [Loops] when a mosaic
    loop never ends. *)
Inductive outcome (A : Type) : Type :=
  | Done (a : A)
  | Raised
  | Loops.
Arguments Done {A} a.
Arguments Raised {A}.
Arguments Loops {A}.

(** *** The canvas *)

(** A 2D canvas keeps its pixels with the colour channels multiplied by
    alpha, so what [putImageData] writes comes back from [getImageData]
    through a conversion that loses precision where alpha is below 255.
    The HTML standard leaves the rounding of that conversion to the
    browser; the model rounds to the nearest integer both ways.  The
    statements about the session use two facts of it only: an opaque pixel
    comes back as it was written, and a pixel that was read back is
    written and read back unchanged. *)
Definition premultiply (v a : Z) : Z := Mosaic.Math_round_div (v * a) 255.

Definition unpremultiply (p a : Z) : Z :=
  if (a =? 0)%Z then 0%Z
  else Mosaic.clamp8 (Mosaic.Math_round_div (p * 255) a).

(** Channel [c] of a pixel as [getImageData] returns it, when the pixel
    was written with [v] in that channel and with alpha [a].  ([ImageData]
    holds bytes, on which the clamping does nothing.) *)
Definition canvas_channel (c : nat) (v a : Z) : Z :=
  if c <? 3
  then unpremultiply (premultiply (Mosaic.clamp8 v) (Mosaic.clamp8 a))
         (Mosaic.clamp8 a)
  else Mosaic.clamp8 v.

(** [ctx.putImageData(imageData, 0, 0)] on a canvas whose content reads
    [canvas]: pixel [(x, y)] takes pixel [(x, y)] of the image where the
    image has one; the size of the canvas stays.  The result is the
    content as [getImageData] reads it afterwards. *)
Definition putImageData (imageData canvas : Mosaic.ImageData)
    : Mosaic.ImageData :=
  let cw := Mosaic.width canvas in
  let ch := Mosaic.height canvas in
  Mosaic.mkImageData
    ((λ i, let c := i mod 4 in
           let x := (i / 4) mod cw in
           let y := i / 4 / cw in
           if (x <? Mosaic.width imageData) && (y <? Mosaic.height imageData)
           then
             let index := (y * Mosaic.width imageData + x) * 4 in
             canvas_channel c
               (Mosaic.load (Mosaic.data imageData) (index + c))
               (Mosaic.load (Mosaic.data imageData) (index + 3))
           else Mosaic.load (Mosaic.data canvas) i)
       <$> seq 0 (cw * ch * 4))
    cw ch.

(** [canvas] is the content of the canvas as [getImageData] reads it. *)
Record ImageProcessor := mkImageProcessor {
  canvas : Mosaic.ImageData;
  originalImageData : option Mosaic.ImageData
}.

Definition hasImage (ip : ImageProcessor) : bool :=
  bool_decide (originalImageData ip ≠ None).

(** [applyMosaic(blockSize, selectionMask, useCurrentState)] *)
Definition applyMosaic (blockSize : nat)
    (selectionMask : option Mosaic.ImageData) (useCurrentState : bool)
    (ip : ImageProcessor) : outcome (bool * ImageProcessor) :=
  match originalImageData ip with
  | None => Raised
  | Some original =>
      let sourceImageData := if useCurrentState then canvas ip else original in
      let imageData :=
        Mosaic.mkImageData (Mosaic.data sourceImageData)
          (Mosaic.width sourceImageData) (Mosaic.height sourceImageData) in
      let processed :=
        match selectionMask with
        | Some mask => Mosaic._processMosaicWithMask imageData blockSize mask
        | None => Mosaic._processMosaic imageData blockSize
        end in
      match processed with
      | None => Loops
      | Some imageData' =>
          Done (true, {| canvas := putImageData imageData' (canvas ip);
                         originalImageData := originalImageData ip |})
      end
  end.

Record MosaicApp := mkMosaicApp {
  imageProcessor : ImageProcessor;
  selectionManager : Selection.SelectionManager float;
  historyManager : History.HistoryManager;
  isProcessing : bool;
  (** the error text on display, if any *)
  error : option string;
  (** the [ImageData] objects alive *)
  heap : objects
}.

Definition showError (message : string) (app : MosaicApp) : MosaicApp :=
  {| imageProcessor := imageProcessor app;
     selectionManager := selectionManager app;
     historyManager := historyManager app;
     isProcessing := isProcessing app;
     error := Some message;
     heap := heap app |}.

(** [saveCurrentState(actionName)]: [getImageData] makes a new object of
    the canvas pixels, which [saveState] then clones. *)
Definition saveCurrentState (actionName : string) (now : Z) (app : MosaicApp)
    : MosaicApp :=
  if hasImage (imageProcessor app) then
    let '(currentImageData, σ1) := alloc (canvas (imageProcessor app)) (heap app) in
    let '(hm, σ2) :=
      History.saveState currentImageData actionName now
        (historyManager app) σ1 in
    {| imageProcessor := imageProcessor app;
       selectionManager := selectionManager app;
       historyManager := hm;
       isProcessing := isProcessing app;
       error := error app;
       heap := σ2 |}
  else app.

Section ProcessImage.

(** [SelectionManager.createSelectionMask(width, height)] paints the mask
    with the browser's canvas; its rasterisation is taken as given. *)
Variable createSelectionMask :
  Selection.SelectionManager float → nat → nat → Mosaic.ImageData.

(** [processImage()], with the slider's block size and the clock. *)
Definition processImage (blockSize : nat) (now : Z) (app : MosaicApp)
    : outcome MosaicApp :=
  if isProcessing app || negb (hasImage (imageProcessor app)) then Done app
  else
    let mode := Selection.selectionMode (selectionManager app) in
    let hasSelection := Selection.hasSelection (selectionManager app) in
    let isConfirmed := Selection.isSelectionConfirmed (selectionManager app) in
    (* the selection of a mode other than full must be confirmed *)
    if negb (String.eqb mode "full") && hasSelection && negb isConfirmed
    then Done (showError "選択範囲を確定してください" app)
    else
      let selectionMask :=
        if Selection.hasSelection (selectionManager app)
           && negb (String.eqb mode "full")
        then Some (createSelectionMask (selectionManager app)
                     (Mosaic.width (canvas (imageProcessor app)))
                     (Mosaic.height (canvas (imageProcessor app))))
        else None in
      match applyMosaic blockSize selectionMask true (imageProcessor app) with
      | Loops => Loops
      | Raised =>
          (* caught: the failure message is shown *)
          Done (showError "モザイク処理でエラーが発生しました" app)
      | Done (success, ip) =>
          let app1 :=
            {| imageProcessor := ip;
               selectionManager := selectionManager app;
               historyManager := historyManager app;
               isProcessing := true;
               error := error app;
               heap := heap app |} in
          let app2 :=
            if success then
              let app' := saveCurrentState "Mosaic Applied" now app1 in
              {| imageProcessor := imageProcessor app';
                 selectionManager :=
                   Selection.clearSelectionKeepMode (selectionManager app');
                 historyManager := historyManager app';
                 isProcessing := isProcessing app';
                 error := error app';
                 heap := heap app' |}
            else showError "モザイク処理でエラーが発生しました" app1 in
          Done {| imageProcessor := imageProcessor app2;
                  selectionManager := selectionManager app2;
                  historyManager := historyManager app2;
                  isProcessing := false;
                  error := error app2;
                  heap := heap app2 |}
      end.

End ProcessImage.

(** [restoreOriginal()] *)
Definition restoreOriginal (ip : ImageProcessor) : bool * ImageProcessor :=
  match originalImageData ip with
  | Some original =>
      (true, {| canvas := putImageData original (canvas ip);
                originalImageData := originalImageData ip |})
  | None => (false, ip)
  end.

(** [updateProcessButton()]: the value it leaves in [processBtn.disabled]. *)
Definition updateProcessButton (app : MosaicApp) : bool :=
  if negb (hasImage (imageProcessor app)) then true
  else
    let sm := selectionManager app in
    let mode := Selection.selectionMode sm in
    let hasSelection := Selection.hasSelection sm in
    let isConfirmed := Selection.isSelectionConfirmed sm in
    if String.eqb mode "full" then false
    else if hasSelection && isConfirmed
            && ((String.eqb mode "rectangle"
                 && bool_decide (Selection.rectangleSelection sm ≠ None))
                || (String.eqb mode "freehand"
                    && (0 <? length (Selection.selectionPath sm))))
    then false
    else true.

(** [undo()] and [redo()] of the application: the raster that the history
    returns is put on the canvas and the selection is cleared; when the
    history returns [null] nothing happens.  (Should the history throw, the
    error leaves the method with the index it moved.) *)
Definition undo (app : MosaicApp) : MosaicApp :=
  let '(r, hm, σ) := History.undo (historyManager app) (heap app) in
  match r with
  | Returns (Some previousState) =>
      {| imageProcessor :=
           {| canvas := putImageData (σ !!! previousState)
                          (canvas (imageProcessor app));
              originalImageData := originalImageData (imageProcessor app) |};
         selectionManager :=
           Selection.clearSelection false (selectionManager app);
         historyManager := hm;
         isProcessing := isProcessing app;
         error := error app;
         heap := σ |}
  | _ =>
      {| imageProcessor := imageProcessor app;
         selectionManager := selectionManager app;
         historyManager := hm;
         isProcessing := isProcessing app;
         error := error app;
         heap := σ |}
  end.

Definition redo (app : MosaicApp) : MosaicApp :=
  let '(r, hm, σ) := History.redo (historyManager app) (heap app) in
  match r with
  | Returns (Some nextState) =>
      {| imageProcessor :=
           {| canvas := putImageData (σ !!! nextState)
                          (canvas (imageProcessor app));
              originalImageData := originalImageData (imageProcessor app) |};
         selectionManager :=
           Selection.clearSelection false (selectionManager app);
         historyManager := hm;
         isProcessing := isProcessing app;
         error := error app;
         heap := σ |}
  | _ =>
      {| imageProcessor := imageProcessor app;
         selectionManager := selectionManager app;
         historyManager := hm;
         isProcessing := isProcessing app;
         error := error app;
         heap := σ |}
  end.

(** [resetToOriginal()] *)
Definition resetToOriginal (now : Z) (app : MosaicApp) : MosaicApp :=
  let '(success, ip) := restoreOriginal (imageProcessor app) in
  if success then
    let app1 :=
      saveCurrentState "Reset to Original" now
        {| imageProcessor := ip;
           selectionManager := selectionManager app;
           historyManager := historyManager app;
           isProcessing := isProcessing app;
           error := error app;
           heap := heap app |} in
    {| imageProcessor := imageProcessor app1;
       selectionManager :=
         Selection.clearSelection false (selectionManager app1);
       historyManager := historyManager app1;
       isProcessing := isProcessing app1;
       error := error app1;
       heap := heap app1 |}
  else app.

(** All bytes, and the test that a channel read back from the canvas is
    written and read back unchanged, run over them below. *)
Definition byte_values : list Z := Z.of_nat <$> seq 0 256.

Definition read_back_twice (c : nat) (v a : Z) : bool :=
  (canvas_channel c (canvas_channel c v a) a =? canvas_channel c v a)%Z.

(** An image that the canvas gives back as it was written.  What
    [getImageData] returned is one, and so is every opaque raster. *)
Definition stable (img : Mosaic.ImageData) : Prop :=
  putImageData img img = img.

(** Every pixel of the image has alpha 255. *)
Definition opaque (img : Mosaic.ImageData) : Prop :=
  ∀ x y, x < Mosaic.width img → y < Mosaic.height img →
    Mosaic.chan (Mosaic.data img) (Mosaic.width img) x y 3 = 255%Z.

(** An image of the size of the canvas, with all its bytes, that the
    canvas gives back as it was written. *)
Definition fits (img canvas : Mosaic.ImageData) : Prop :=
  Mosaic.width img = Mosaic.width canvas
  ∧ Mosaic.height img = Mosaic.height canvas
  ∧ length (Mosaic.data img) = Mosaic.width img * Mosaic.height img * 4
  ∧ stable img.

(** A session in good order: an image is loaded; the canvas content, the
    loaded image and the raster of every history entry have the size of
    the canvas and all their bytes, and are images that the canvas gives
    back as written (each of them was read from the canvas); the history
    is within its bounds with room for an entry. *)
Definition sound (app : MosaicApp) : Prop :=
  let cv := canvas (imageProcessor app) in
  let hm := historyManager app in
  fits cv cv
  ∧ (∃ original, originalImageData (imageProcessor app) = Some original
                 ∧ fits original cv)
  ∧ (-1 ≤ History.currentIndex hm < History.len hm)%Z
  ∧ (1 ≤ History.maxHistorySize hm)%Z
  ∧ Forall (λ e, ∃ img, heap app !! History.imageData e = Some img
                        ∧ fits img cv)
      (History.history hm).

(** The canvas shows the current entry of the history. *)
Definition synced (app : MosaicApp) : Prop :=
  sound app
  ∧ ∃ e, js_index (History.history (historyManager app))
           (History.currentIndex (historyManager app)) = Some e
         ∧ heap app !!! (History.imageData e) = canvas (imageProcessor app).

(** What the user does to a loaded image: the mosaic button with the
    slider's block size, the undo, redo and reset buttons; the clock is
    read where a history entry is made. *)
Inductive Action :=
  | ActProcess (blockSize : nat) (now : Z)
  | ActUndo
  | ActRedo
  | ActReset (now : Z).

Section Session.

Variable createSelectionMask :
  Selection.SelectionManager float → nat → nat → Mosaic.ImageData.

Definition act (a : Action) (app : MosaicApp) : outcome MosaicApp :=
  match a with
  | ActProcess blockSize now => processImage createSelectionMask blockSize now app
  | ActUndo => Done (undo app)
  | ActRedo => Done (redo app)
  | ActReset now => Done (resetToOriginal now app)
  end.

Fixpoint run_actions (l : list Action) (app : MosaicApp)
    : outcome MosaicApp :=
  match l with
  | [] => Done app
  | a :: l =>
      match act a app with
      | Done app' => run_actions l app'
      | Raised => Raised
      | Loops => Loops
      end
  end.

End Session.

(** The block sizes the slider can give: at least 1. *)
Definition positive_block (a : Action) : Prop :=
  match a with
  | ActProcess blockSize _ => 1 ≤ blockSize
  | _ => True
  end.

(** *** A sample session *)

(** A session right after a 2-by-1 image was loaded: rectangle mode, no
    selection made, the first history entry saved. *)
Definition two_pixels : Mosaic.ImageData :=
  Mosaic.mkImageData [10; 20; 30; 255; 50; 60; 70; 255]%Z 2 1.

Definition loaded : MosaicApp :=
  saveCurrentState "Initial Image Load" 100
    {| imageProcessor :=
         {| canvas := two_pixels; originalImageData := Some two_pixels |};
       selectionManager := Selection.constructor;
       historyManager := History.constructor 10;
       isProcessing := false;
       error := None;
       heap := ∅ |}.

(** The sample session with a rectangle dragged from (2,2) to (12,12) and
    confirmed. *)
Definition loaded_selected : MosaicApp :=
  {| imageProcessor := imageProcessor loaded;
     selectionManager := Selection.rectangle_confirmed;
     historyManager := historyManager loaded;
     isProcessing := false;
     error := None;
     heap := heap loaded |}.

(** A session right after an image with translucent pixels was loaded:
    the 3-by-2 sample image as the canvas reads it after it was drawn. *)
Definition translucent : Mosaic.ImageData :=
  putImageData Mosaic.sample_image Mosaic.sample_image.

Definition loaded_translucent : MosaicApp :=
  saveCurrentState "Initial Image Load" 100
    {| imageProcessor :=
         {| canvas := translucent; originalImageData := Some translucent |};
       selectionManager := Selection.constructor;
       historyManager := History.constructor 10;
       isProcessing := false;
       error := None;
       heap := ∅ |}.

(** The mask used in the sample sessions: every pixel selected. *)
Definition select_all (sm : Selection.SelectionManager float) (w h : nat)
    : Mosaic.ImageData :=
  Mosaic.mkImageData (replicate (w * h * 4) 255%Z) w h.

(** The sample session after the mosaic button was pressed with block
    size 5. *)
Definition processed : MosaicApp :=
  match processImage select_all 5 200 loaded with
  | Done app' => app'
  | _ => loaded
  end.

End App.

(** * Properties *)

(** ** Loop rules *)

Section LoopRules.
Context {St : Type}.

(** An invariant carried through a stepped loop: the loop ends, with the
    invariant at a counter that passed the bound. *)
Lemma for_fuel_invariant (Inv : nat → St → Prop) (stop step : nat)
    (body : nat → St → option St) :
  1 ≤ step →
  (∀ i s, i < stop → Inv i s → ∃ s', body i s = Some s' ∧ Inv (i + step) s') →
  ∀ fuel i s, stop - i ≤ fuel → Inv i s →
  ∃ s' j, for_fuel fuel i stop step body s = Some s' ∧ stop ≤ j ∧ Inv j s'.
Proof.
  intros Hstep Hbody fuel.
  induction fuel as [|fuel IH]; intros i s Hfuel Hinv; simpl.
  - destruct (Nat.leb_spec stop i); [|lia]. eauto.
  - destruct (Nat.leb_spec stop i) as [Hle|Hlt]; [eauto|].
    destruct (Hbody i s Hlt Hinv) as (s1 & -> & Hinv1).
    apply IH; [lia|done].
Qed.

Lemma for_step_invariant (Inv : nat → St → Prop) (start stop step : nat)
    (body : nat → St → option St) (s : St) :
  1 ≤ step →
  (∀ i s, i < stop → Inv i s → ∃ s', body i s = Some s' ∧ Inv (i + step) s') →
  Inv start s →
  ∃ s' j, for_step start stop step body s = Some s' ∧ stop ≤ j ∧ Inv j s'.
Proof.
  intros Hstep Hbody Hinv. unfold for_step.
  by apply for_fuel_invariant.
Qed.

(** Two nested counting loops visit the pixels of a box row by row. *)
Lemma nested_for_range (f : nat → nat → St → St) (x0 y0 x1 y1 : nat) (s : St) :
  for_range y0 y1 (λ y s, for_range x0 x1 (λ x s, f x y s) s) s
  = foldl (λ s p, f p.1 p.2 s) s (Mosaic.tile_pixels x0 y0 x1 y1).
Proof.
  unfold for_range, Mosaic.tile_pixels.
  generalize (seq y0 (y1 - y0)) as ys. intros ys. revert s.
  induction ys as [|y ys IH]; intros s; [done|].
  rewrite bind_cons, foldl_app. simpl. rewrite IH. f_equal.
  generalize (seq x0 (x1 - x0)) as xs. intros xs. revert s.
  induction xs as [|x xs IHx]; intros s; [done|]. simpl. by rewrite IHx.
Qed.

End LoopRules.

(** The first returning iteration of two nested loops, as a search over the
    pixels of the box. *)
Lemma nested_for_range_return (f : nat → nat → bool) (x0 y0 x1 y1 : nat) :
  match
    for_range_return y0 y1 (λ y,
      for_range_return x0 x1 (λ x, if f x y then Some true else None))
  with Some v => v | None => false end
  = existsb (λ p, f p.1 p.2) (Mosaic.tile_pixels x0 y0 x1 y1).
Proof.
  unfold for_range_return, Mosaic.tile_pixels.
  generalize (seq y0 (y1 - y0)) as ys. intros ys.
  induction ys as [|y ys IH]; [done|].
  rewrite bind_cons, existsb_app. simpl.
  assert (Hrow : ∀ xs,
    for_return xs (λ x, if f x y then Some true else None)
    = if existsb (λ p, f p.1 p.2) ((λ x, (x, y)) <$> xs)
      then Some true else None).
  { induction xs as [|x xs IHx]; [done|]. simpl. destruct (f x y); done. }
  rewrite Hrow.
  destruct (existsb _ ((λ x, (x, y)) <$> seq x0 (x1 - x0))); [done|].
  simpl. apply IH.
Qed.

(** ** The mosaic engine *)

Module MosaicFacts.
Import Mosaic.

Lemma elem_of_tile_pixels (x0 y0 x1 y1 x y : nat) :
  (x, y) ∈ tile_pixels x0 y0 x1 y1 ↔ x0 ≤ x < x1 ∧ y0 ≤ y < y1.
Proof.
  unfold tile_pixels. rewrite list_elem_of_bind. split.
  - intros (y' & Hx & Hy). apply list_elem_of_fmap in Hx as (x' & [= -> ->] & Hx).
    apply elem_of_seq in Hx, Hy. lia.
  - intros [Hx Hy]. exists y. split.
    + apply list_elem_of_fmap. exists x. split; [done|]. apply elem_of_seq. lia.
    + apply elem_of_seq. lia.
Qed.

Lemma length_tile_pixels (x0 y0 x1 y1 : nat) :
  length (tile_pixels x0 y0 x1 y1) = (y1 - y0) * (x1 - x0).
Proof.
  unfold tile_pixels.
  assert (Hrows : ∀ ys : list nat,
    length (ys ≫= λ y, (λ x, (x, y)) <$> seq x0 (x1 - x0))
    = length ys * (x1 - x0)).
  { induction ys as [|y ys IH]; [done|].
    rewrite bind_cons, length_app, IH, length_fmap, length_seq. simpl. lia. }
  by rewrite Hrows, length_seq.
Qed.

(** Pixel indices: in range, and distinct for distinct (pixel, channel). *)
Lemma index_lt (w h x y c : nat) :
  x < w → y < h → c < 4 → (y * w + x) * 4 + c < w * h * 4.
Proof. intros. nia. Qed.

Lemma index_inj (w x y c x' y' c' : nat) :
  x < w → x' < w → c < 4 → c' < 4 →
  (y * w + x) * 4 + c = (y' * w + x') * 4 + c' →
  x = x' ∧ y = y' ∧ c = c'.
Proof.
  intros Hx Hx' Hc Hc' Heq.
  assert (c = c') as -> by lia.
  assert (Hyx : y * w + x = y' * w + x') by lia.
  assert (y = y') as -> by nia.
  lia.
Qed.

Lemma load_store (d : list Z) (i j : nat) (v : Z) :
  i < length d →
  load (store d i v) j = if decide (i = j) then clamp8 v else load d j.
Proof.
  intros Hi. unfold load, store. rewrite list_lookup_total_insert.
  repeat case_decide; try done; lia.
Qed.

Lemma length_store (d : list Z) (i : nat) (v : Z) :
  length (store d i v) = length d.
Proof. apply length_insert. Qed.

Lemma length_paint (col : Color) (w : nat) (d : list Z) (p : nat * nat) :
  length (paint col w d p) = length d.
Proof. unfold paint. by rewrite !length_store. Qed.

(** Painting a pixel sets its three colour bytes and nothing else. *)
Lemma chan_paint (col : Color) (w h : nat) (d : list Z) (p : nat * nat)
    (x y c : nat) :
  length d = w * h * 4 → p.1 < w → p.2 < h → x < w → y < h → c < 4 →
  chan (paint col w d p) w x y c
  = if bool_decide ((x, y) = p) && (c <? 3)
    then clamp8 (chan_of col c) else chan d w x y c.
Proof.
  destruct p as [px py]. simpl. intros Hlen Hpx Hpy Hx Hy Hc.
  pose proof (index_lt w h px py 0 Hpx Hpy ltac:(lia)).
  pose proof (index_lt w h px py 1 Hpx Hpy ltac:(lia)).
  pose proof (index_lt w h px py 2 Hpx Hpy ltac:(lia)).
  unfold chan, paint. simpl.
  rewrite !load_store by (rewrite ?length_store; lia).
  case_bool_decide as Hp.
  - injection Hp as -> ->.
    destruct c as [|[|[|c]]]; simpl; repeat case_decide; try done; lia.
  - replace (c <? 3) with (c <? 3) by done. simpl.
    assert (Hne : ∀ c', c' < 4 →
              (py * w + px) * 4 + c' ≠ (y * w + x) * 4 + c).
    { intros c' Hc' Heq.
      apply index_inj in Heq as (-> & -> & _); [done|lia..]. }
    pose proof (Hne 0 ltac:(lia)). pose proof (Hne 1 ltac:(lia)).
    pose proof (Hne 2 ltac:(lia)).
    repeat case_decide; try done; lia.
Qed.

Section PixelWrites.
Variables (w h : nat) (col : Color) (sel : nat → nat → bool).
Variable wr : list Z → nat * nat → list Z.
Hypothesis wr_length : ∀ d p, length (wr d p) = length d.
Hypothesis wr_chan : ∀ d p x y c,
  length d = w * h * 4 → p.1 < w → p.2 < h → x < w → y < h → c < 4 →
  chan (wr d p) w x y c
  = if bool_decide ((x, y) = p) && sel x y && (c <? 3)
    then clamp8 (chan_of col c) else chan d w x y c.

Lemma length_foldl_writes (ps : list (nat * nat)) (d : list Z) :
  length (foldl wr d ps) = length d.
Proof.
  revert d. induction ps as [|p ps IH]; intros d; [done|].
  simpl. by rewrite IH, wr_length.
Qed.

(** A run of pixel writes sets the selected pixels of the run. *)
Lemma chan_foldl_writes (ps : list (nat * nat)) (d : list Z) (x y c : nat) :
  length d = w * h * 4 → (∀ p, p ∈ ps → p.1 < w ∧ p.2 < h) →
  x < w → y < h → c < 4 →
  chan (foldl wr d ps) w x y c
  = if bool_decide ((x, y) ∈ ps) && sel x y && (c <? 3)
    then clamp8 (chan_of col c) else chan d w x y c.
Proof.
  intros Hlen Hps Hx Hy Hc. revert d Hlen Hps.
  induction ps as [|p ps IH]; intros d Hlen Hps.
  - by rewrite bool_decide_eq_false_2 by apply not_elem_of_nil.
  - change (foldl wr d (p :: ps)) with (foldl wr (wr d p) ps). rewrite IH.
    2: by rewrite wr_length.
    2: { intros q Hq. apply Hps. by right. }
    destruct (Hps p ltac:(left)) as [Hp1 Hp2].
    rewrite wr_chan by done.
    destruct (decide ((x, y) = p)) as [<-|Hne].
    + rewrite (bool_decide_eq_true_2 (_ ∈ (x, y) :: _)) by left.
      rewrite (bool_decide_eq_true_2 (_ = _)) by done.
      by destruct (bool_decide ((x, y) ∈ ps)), (sel x y), (c <? 3).
    + rewrite (bool_decide_eq_false_2 (_ = _)) by done. simpl.
      destruct (decide ((x, y) ∈ ps)) as [Hin|Hnin].
      * rewrite !bool_decide_eq_true_2; [done|by right|done].
      * rewrite !bool_decide_eq_false_2; [done| |done].
        intros [?|?]%elem_of_cons; done.
Qed.

End PixelWrites.

(** *** The fill loops *)

Lemma _fillBlock_foldl (d : list Z) (x0 y0 bs w h : nat) (col : Color) :
  _fillBlock d x0 y0 bs w h col
  = foldl (paint col w) d
      (tile_pixels x0 y0 (Nat.min (x0 + bs) w) (Nat.min (y0 + bs) h)).
Proof.
  unfold _fillBlock.
  exact (nested_for_range (λ x y d, paint col w d (x, y)) _ _ _ _ _).
Qed.

Lemma _fillBlockWithMask_foldl (d mask : list Z) (x0 y0 bs w h : nat)
    (col : Color) :
  _fillBlockWithMask d mask x0 y0 bs w h col
  = foldl (paint_selected col mask w) d
      (tile_pixels x0 y0 (Nat.min (x0 + bs) w) (Nat.min (y0 + bs) h)).
Proof.
  unfold _fillBlockWithMask.
  exact (nested_for_range (λ x y d, paint_selected col mask w d (x, y))
           _ _ _ _ _).
Qed.

Lemma _hasSelectedPixels_existsb (mask : list Z) (x0 y0 bs w h : nat) :
  _hasSelectedPixels mask x0 y0 bs w h
  = existsb (λ p, selected mask w p.1 p.2)
      (tile_pixels x0 y0 (Nat.min (x0 + bs) w) (Nat.min (y0 + bs) h)).
Proof.
  unfold _hasSelectedPixels.
  exact (nested_for_range_return (λ x y, selected mask w x y) _ _ _ _).
Qed.

Lemma tile_pixels_in_image (x0 y0 bs w h : nat) (p : nat * nat) :
  p ∈ tile_pixels x0 y0 (Nat.min (x0 + bs) w) (Nat.min (y0 + bs) h) →
  p.1 < w ∧ p.2 < h.
Proof. destruct p as [x y]. rewrite elem_of_tile_pixels. simpl. lia. Qed.

Lemma length_fillBlock (d : list Z) (x0 y0 bs w h : nat) (col : Color) :
  length (_fillBlock d x0 y0 bs w h col) = length d.
Proof.
  rewrite _fillBlock_foldl. apply length_foldl_writes, length_paint.
Qed.

Lemma length_paint_selected (col : Color) (mask : list Z) (w : nat)
    (d : list Z) (p : nat * nat) :
  length (paint_selected col mask w d p) = length d.
Proof.
  unfold paint_selected. destruct (selected _ _ _ _); [|done].
  apply length_paint.
Qed.

Lemma length_fillBlockWithMask (d mask : list Z) (x0 y0 bs w h : nat)
    (col : Color) :
  length (_fillBlockWithMask d mask x0 y0 bs w h col) = length d.
Proof.
  rewrite _fillBlockWithMask_foldl.
  apply length_foldl_writes, length_paint_selected.
Qed.

(** [_fillBlock] sets the colour bytes of the pixels of its box. *)
Lemma chan_fillBlock (d : list Z) (x0 y0 bs w h : nat) (col : Color)
    (x y c : nat) :
  length d = w * h * 4 → x < w → y < h → c < 4 →
  chan (_fillBlock d x0 y0 bs w h col) w x y c
  = if bool_decide ((x, y) ∈ tile_pixels x0 y0 (Nat.min (x0 + bs) w)
                                 (Nat.min (y0 + bs) h))
       && (c <? 3)
    then clamp8 (chan_of col c) else chan d w x y c.
Proof.
  intros Hlen Hx Hy Hc. rewrite _fillBlock_foldl.
  rewrite (chan_foldl_writes w h col (λ _ _, true)); try done.
  - by rewrite andb_true_r.
  - apply length_paint.
  - intros d' p x' y' c' ??????. rewrite andb_true_r. by apply (chan_paint col w h).
  - apply tile_pixels_in_image.
Qed.

(** [_fillBlockWithMask] sets them for the selected pixels of its box. *)
Lemma chan_fillBlockWithMask (d mask : list Z) (x0 y0 bs w h : nat)
    (col : Color) (x y c : nat) :
  length d = w * h * 4 → x < w → y < h → c < 4 →
  chan (_fillBlockWithMask d mask x0 y0 bs w h col) w x y c
  = if bool_decide ((x, y) ∈ tile_pixels x0 y0 (Nat.min (x0 + bs) w)
                                 (Nat.min (y0 + bs) h))
       && selected mask w x y && (c <? 3)
    then clamp8 (chan_of col c) else chan d w x y c.
Proof.
  intros Hlen Hx Hy Hc. rewrite _fillBlockWithMask_foldl.
  rewrite (chan_foldl_writes w h col (selected mask w)); try done.
  - apply length_paint_selected.
  - intros d' p x' y' c' ??????. unfold paint_selected.
    case_bool_decide as Hp.
    + subst p. simpl. destruct (selected mask w x' y'); [|done].
      rewrite (chan_paint col w h) by done.
      by rewrite bool_decide_eq_true_2.
    + simpl. destruct (selected mask w p.1 p.2); [|done].
      rewrite (chan_paint col w h) by done.
      by rewrite bool_decide_eq_false_2.
  - apply tile_pixels_in_image.
Qed.

(** *** The average colour *)

Lemma channel_sum_cons (d : list Z) (w c : nat) (p : nat * nat)
    (ps : list (nat * nat)) :
  channel_sum d w c (p :: ps)
  = (chan d w p.1 p.2 c + channel_sum d w c ps)%Z.
Proof. done. Qed.

Lemma sums_foldl (d : list Z) (w : nat) (ps : list (nat * nat))
    (r0 g0 b0 n0 : Z) :
  foldl (λ acc p,
           (λ x y '(r, g, b, count),
              let index := (y * w + x) * 4 in
              ((r + load d index)%Z, (g + load d (index + 1))%Z,
               (b + load d (index + 2))%Z, (count + 1)%Z))
             p.1 p.2 acc)
        (r0, g0, b0, n0) ps
  = ((r0 + channel_sum d w 0 ps)%Z, (g0 + channel_sum d w 1 ps)%Z,
     (b0 + channel_sum d w 2 ps)%Z, (n0 + Z.of_nat (length ps))%Z).
Proof.
  revert r0 g0 b0 n0. induction ps as [|[x y] ps IH]; intros r0 g0 b0 n0.
  - simpl. by rewrite !Z.add_0_r.
  - cbn [foldl]. cbv beta iota zeta. rewrite IH, !channel_sum_cons.
    unfold chan. cbn [fst snd length]. rewrite Nat.add_0_r.
    f_equal; [f_equal; [f_equal|]|]; lia.
Qed.

(** [_calculateAverageColor] rounds the channel sums of its box over the
    number of pixels of the box. *)
Lemma chan_of_calculateAverageColor (d : list Z) (x0 y0 bs w h c : nat) :
  c < 3 →
  let ps := tile_pixels x0 y0 (Nat.min (x0 + bs) w) (Nat.min (y0 + bs) h) in
  chan_of (_calculateAverageColor d x0 y0 bs w h) c
  = Math_round_div (channel_sum d w c ps) (Z.of_nat (length ps)).
Proof.
  intros Hc ps. unfold _calculateAverageColor.
  rewrite (nested_for_range
    (λ x y '(r, g, b, count),
       let index := (y * w + x) * 4 in
       ((r + load d index)%Z, (g + load d (index + 1))%Z,
        (b + load d (index + 2))%Z, (count + 1)%Z))).
  rewrite sums_foldl. fold ps.
  destruct c as [|[|[|c]]]; simpl; try lia; by rewrite !Z.add_0_l.
Qed.

Lemma channel_sum_ext (d d' : list Z) (w c : nat) (ps : list (nat * nat)) :
  (∀ p, p ∈ ps → chan d w p.1 p.2 c = chan d' w p.1 p.2 c) →
  channel_sum d w c ps = channel_sum d' w c ps.
Proof.
  induction ps as [|p ps IH]; intros Hps; [done|].
  simpl. rewrite (Hps p) by left. rewrite IH; [done|].
  intros q Hq. apply Hps. by right.
Qed.

(** The average colour depends on the pixels of the box only. *)
Lemma chan_of_calculateAverageColor_ext (d d' : list Z)
    (x0 y0 bs w h c : nat) :
  c < 3 →
  (∀ x y, (x, y) ∈ tile_pixels x0 y0 (Nat.min (x0 + bs) w)
                     (Nat.min (y0 + bs) h) →
          chan d w x y c = chan d' w x y c) →
  chan_of (_calculateAverageColor d x0 y0 bs w h) c
  = chan_of (_calculateAverageColor d' x0 y0 bs w h) c.
Proof.
  intros Hc Hagree. rewrite !chan_of_calculateAverageColor by done.
  simpl. f_equal. apply channel_sum_ext. intros [x y] Hp. by apply Hagree.
Qed.

Lemma is_byte_load (d : list Z) (i : nat) :
  Forall is_byte d → is_byte (load d i).
Proof.
  intros Hd. unfold load. destruct (decide (i < length d)) as [Hi|Hi].
  - by apply Forall_lookup_total_1.
  - rewrite list_lookup_total_alt, lookup_ge_None_2 by lia.
    simpl. unfold is_byte. lia.
Qed.

Lemma channel_sum_bounds (d : list Z) (w c : nat) (ps : list (nat * nat)) :
  Forall is_byte d →
  (0 ≤ channel_sum d w c ps ≤ 255 * Z.of_nat (length ps))%Z.
Proof.
  intros Hd. induction ps as [|p ps IH]; simpl; [lia|].
  pose proof (is_byte_load d ((p.2 * w + p.1) * 4 + c) Hd) as Hb.
  unfold is_byte, chan in *. lia.
Qed.

(** [Math_round_div] is rounding to the nearest integer, and no other
    integer is nearest in that sense. *)
Lemma Math_round_div_rounded (s n : Z) :
  (0 < n)%Z → rounded_mean s n (Math_round_div s n).
Proof.
  intros Hn. unfold rounded_mean, Math_round_div.
  pose proof (Z.mul_div_le (2 * s + n) (2 * n) ltac:(lia)).
  pose proof (Z.mul_succ_div_gt (2 * s + n) (2 * n) ltac:(lia)).
  lia.
Qed.

Lemma rounded_mean_unique (s n v v' : Z) :
  (0 < n)%Z → rounded_mean s n v → rounded_mean s n v' → v = v'.
Proof. unfold rounded_mean. intros. nia. Qed.

Lemma Math_round_div_byte (s n : Z) :
  (0 < n)%Z → (0 ≤ s ≤ 255 * n)%Z → is_byte (Math_round_div s n).
Proof.
  intros Hn Hs. pose proof (Math_round_div_rounded s n Hn) as Hr.
  unfold rounded_mean, is_byte in *. nia.
Qed.

Lemma clamp8_byte (v : Z) : is_byte v → clamp8 v = v.
Proof. unfold is_byte, clamp8. lia. Qed.

(** *** The grid of tiles *)

Lemma grid_origin (bs k x : nat) :
  k * bs ≤ x < k * bs + bs → x / bs * bs = k * bs.
Proof.
  intros Hx. f_equal. symmetry.
  apply (Nat.div_unique x bs k (x - k * bs)); lia.
Qed.

(** A pixel lies in the tile of the grid that [tile_of] names. *)
Lemma elem_of_tile_of (w h bs x y : nat) :
  1 ≤ bs → x < w → y < h → (x, y) ∈ tile_of w h bs x y.
Proof.
  intros Hbs Hx Hy. unfold tile_of. apply elem_of_tile_pixels.
  pose proof (Nat.div_mod_eq x bs). pose proof (Nat.div_mod_eq y bs).
  pose proof (Nat.mod_upper_bound x bs ltac:(lia)).
  pose proof (Nat.mod_upper_bound y bs ltac:(lia)).
  lia.
Qed.

Section TileLoops.
Variables (w h bs : nat) (d0 : list Z) (sel : nat → nat → bool).
Variable step : nat → nat → list Z → list Z.
Variable body : nat → nat → list Z → option (list Z).

Let tile (tx ty : nat) : list (nat * nat) :=
  tile_pixels tx ty (Nat.min (tx + bs) w) (Nat.min (ty + bs) h).

Hypothesis Hbs : 1 ≤ bs.
Hypothesis Hlen0 : length d0 = w * h * 4.
Hypothesis body_step : ∀ tx ty d, body tx ty d = Some (step tx ty d).
Hypothesis step_length : ∀ tx ty d, length (step tx ty d) = length d.
Hypothesis step_chan : ∀ tx ty d x y c,
  length d = w * h * 4 → x < w → y < h → c < 4 →
  chan (step tx ty d) w x y c
  = if bool_decide ((x, y) ∈ tile tx ty) && sel x y && (c <? 3)
    then clamp8 (chan_of (_calculateAverageColor d tx ty bs w h) c)
    else chan d w x y c.

(** What the two loops leave in channel [c] of pixel [(x, y)]. *)
Let final (x y c : nat) : Z :=
  if sel x y && (c <? 3)
  then clamp8 (chan_of (_calculateAverageColor d0 (x / bs * bs) (y / bs * bs)
                          bs w h) c)
  else chan d0 w x y c.

(** The pixels whose tile has been visited when the loops stand at the tile
    with origin [(tx, ty)]. *)
Let visited (tx ty x y : nat) : Prop := y < ty ∨ (y < ty + bs ∧ x < tx).

Let inner_inv (ty tx : nat) (d : list Z) : Prop :=
  (∃ k, tx = k * bs) ∧ length d = w * h * 4 ∧
  ∀ x y c, x < w → y < h → c < 4 →
    (visited tx ty x y → chan d w x y c = final x y c) ∧
    (¬ visited tx ty x y → chan d w x y c = chan d0 w x y c).

Let outer_inv (ty : nat) (d : list Z) : Prop :=
  (∃ k, ty = k * bs) ∧ length d = w * h * 4 ∧
  ∀ x y c, x < w → y < h → c < 4 →
    (y < ty → chan d w x y c = final x y c) ∧
    (ty ≤ y → chan d w x y c = chan d0 w x y c).

Lemma inner_step (ty tx : nat) (d : list Z) :
  (∃ k, ty = k * bs) → ty < h → tx < w →
  inner_inv ty tx d → inner_inv ty (tx + bs) (step tx ty d).
Proof.
  intros [ky Hky] Hty Htx ([kx Hkx] & Hlen & Hd).
  split; [exists (S kx); lia|]. split; [by rewrite step_length|].
  intros x y c Hx Hy Hc. rewrite step_chan by done.
  destruct (decide ((x, y) ∈ tile tx ty)) as [Hin|Hout].
  - rewrite bool_decide_eq_true_2 by done.
    apply elem_of_tile_pixels in Hin as Hbox.
    assert (Hnot : ¬ visited tx ty x y) by (unfold visited; lia).
    split; [|unfold visited; lia].
    intros _. unfold final. simpl.
    rewrite (grid_origin bs kx x), (grid_origin bs ky y) by lia.
    rewrite <- Hkx, <- Hky.
    destruct (sel x y && (c <? 3)) eqn:Hsel.
    + f_equal. apply andb_prop in Hsel as [_ Hc3%Nat.ltb_lt].
      apply chan_of_calculateAverageColor_ext; [done|].
      intros x' y' Hin'. apply elem_of_tile_pixels in Hin' as Hbox'.
      apply Hd; [lia..|unfold visited; lia].
    + by apply Hd.
  - rewrite bool_decide_eq_false_2 by done. simpl.
    unfold tile in Hout. rewrite elem_of_tile_pixels in Hout.
    split; intros Hv; apply Hd; try done; unfold visited in *; lia.
Qed.

Lemma inner_loop (ty : nat) (d : list Z) :
  ty < h → outer_inv ty d →
  ∃ d', for_step 0 w bs (λ x d, body x ty d) d = Some d'
        ∧ outer_inv (ty + bs) d'.
Proof.
  intros Hty (Hky & Hlen & Hd).
  destruct (for_step_invariant (inner_inv ty) 0 w bs
              (λ x d, body x ty d) d Hbs)
    as (d' & j & Hrun & Hj & _ & Hlen' & Hd').
  - intros tx s Htx Hinv. eexists. split; [apply body_step|]. by apply inner_step.
  - split; [exists 0; lia|]. split; [done|].
    intros x y c Hx Hy Hc. destruct (Hd x y c Hx Hy Hc) as [Hlt Hge].
    split; intros Hv; [apply Hlt|apply Hge]; unfold visited in *; lia.
  - exists d'. split; [done|]. destruct Hky as [ky Hky].
    split; [exists (S ky); lia|]. split; [done|].
    intros x y c Hx Hy Hc. destruct (Hd' x y c Hx Hy Hc) as [Hv Hnv].
    split; intros Hy'; [apply Hv|apply Hnv]; unfold visited; lia.
Qed.

(** The two tile loops end, and leave [final] in every byte. *)
Lemma tile_loops :
  ∃ d', for_step 0 h bs
          (λ y d, for_step 0 w bs (λ x d, body x y d) d) d0 = Some d'
        ∧ length d' = w * h * 4
        ∧ ∀ x y c, x < w → y < h → c < 4 → chan d' w x y c = final x y c.
Proof.
  destruct (for_step_invariant outer_inv 0 h bs
              (λ y d, for_step 0 w bs (λ x d, body x y d) d) d0 Hbs)
    as (d' & j & Hrun & Hj & _ & Hlen' & Hd').
  - intros ty d Hty Hinv. by apply inner_loop.
  - split; [exists 0; lia|]. split; [done|].
    intros x y c _ _ _. split; [lia|done].
  - exists d'. split; [done|]. split; [done|].
    intros x y c Hx Hy Hc. apply Hd'; [done..|lia].
Qed.

End TileLoops.

(** The tiles partition the image: the tile of a pixel holds the pixels of
    the image with the same grid coordinates. *)
Lemma elem_of_tile_of_iff (w h bs x y x' y' : nat) :
  1 ≤ bs →
  (x', y') ∈ tile_of w h bs x y
  ↔ x' < w ∧ y' < h ∧ x' / bs = x / bs ∧ y' / bs = y / bs.
Proof.
  intros Hbs. unfold tile_of. rewrite elem_of_tile_pixels.
  pose proof (Nat.div_mod_eq x' bs). pose proof (Nat.div_mod_eq y' bs).
  pose proof (Nat.mod_upper_bound x' bs ltac:(lia)).
  pose proof (Nat.mod_upper_bound y' bs ltac:(lia)).
  split.
  - intros [Hx Hy].
    assert (x' / bs * bs = x / bs * bs) by (apply grid_origin; lia).
    assert (y' / bs * bs = y / bs * bs) by (apply grid_origin; lia).
    nia.
  - intros (Hx & Hy & Hdx & Hdy). rewrite <- Hdx, <- Hdy. lia.
Qed.

Lemma tile_of_nonempty (w h bs x y : nat) :
  1 ≤ bs → x < w → y < h → (0 < Z.of_nat (length (tile_of w h bs x y)))%Z.
Proof.
  intros Hbs Hx Hy. pose proof (elem_of_tile_of w h bs x y Hbs Hx Hy) as Hin.
  destruct (tile_of w h bs x y); [by apply elem_of_nil in Hin|]. simpl. lia.
Qed.

(** On a raster the rounded channel mean of a tile is a byte, so the clamp
    of the store leaves it as it is, and it is the nearest integer. *)
Lemma stored_mean (d : list Z) (w h bs x y c : nat) :
  1 ≤ bs → Forall is_byte d → x < w → y < h → c < 3 →
  rounded_mean (channel_sum d w c (tile_of w h bs x y))
    (Z.of_nat (length (tile_of w h bs x y)))
    (clamp8 (chan_of (_calculateAverageColor d (x / bs * bs) (y / bs * bs)
                        bs w h) c)).
Proof.
  intros Hbs Hd Hx Hy Hc.
  rewrite chan_of_calculateAverageColor by done. fold (tile_of w h bs x y).
  pose proof (tile_of_nonempty w h bs x y Hbs Hx Hy) as Hn.
  rewrite clamp8_byte.
  - by apply Math_round_div_rounded.
  - apply Math_round_div_byte; [done|]. by apply channel_sum_bounds.
Qed.

(** *** The unmasked mosaic *)

(** C1. For a raster [img] and a block size [bs >= 1], [_processMosaic]
    returns an image of the same width, height and buffer length.  The
    image is cut into the tiles of the [bs]-by-[bs] grid anchored at (0,0):
    the tile of a pixel is made of the pixels of the image with the same
    grid coordinates, so the tiles of the last row and column are clipped
    at the border.  Each of the R, G and B bytes of a pixel of the result
    is the mean of that channel over the pixel's tile in [img], rounded to
    the nearest integer, and its alpha byte is the one of [img]. *)
Theorem processMosaic_tiles (img : ImageData) (bs : nat) :
  1 ≤ bs → raster img →
  ∃ out,
    _processMosaic img bs = Some out
    ∧ width out = width img ∧ height out = height img
    ∧ length (data out) = length (data img)
    ∧ ∀ x y, x < width img → y < height img →
        let tile := tile_of (width img) (height img) bs x y in
        (∀ x' y', (x', y') ∈ tile
                  ↔ x' < width img ∧ y' < height img
                    ∧ x' / bs = x / bs ∧ y' / bs = y / bs)
        ∧ (∀ c, c < 3 →
             rounded_mean (channel_sum (data img) (width img) c tile)
               (Z.of_nat (length tile))
               (chan (data out) (width img) x y c))
        ∧ chan (data out) (width img) x y 3
          = chan (data img) (width img) x y 3.
Proof.
  destruct img as [d0 w h]. intros Hbs [Hlen Hbytes]. simpl in *.
  destruct (tile_loops w h bs d0 (λ _ _, true)
              (λ x y d, _fillBlock d x y bs w h
                          (_calculateAverageColor d x y bs w h))
              (λ x y d, Some (_fillBlock d x y bs w h
                                (_calculateAverageColor d x y bs w h))))
    as (d' & Hrun & Hlen' & Hfinal); try done.
  - intros. apply length_fillBlock.
  - intros tx ty d x y c Hd Hx Hy Hc. rewrite andb_true_r.
    by apply chan_fillBlock.
  - exists (mkImageData d' w h). unfold _processMosaic.
    rewrite Hrun. simpl. do 3 (split; [done|]). split; [lia|].
    intros x y Hx Hy. split; [intros; by apply elem_of_tile_of_iff|]. split.
    + intros c Hc. rewrite Hfinal by (done || lia).
      apply Nat.ltb_lt in Hc as Hc'. rewrite Hc'. simpl.
      by apply stored_mean.
    + by rewrite Hfinal by (done || lia).
Qed.

Lemma processMosaic_tiles_witness :
  ∃ out,
    _processMosaic sample_image 2 = Some out
    ∧ width out = 3 ∧ height out = 2
    ∧ length (data out) = 24
    ∧ ∀ x y, x < 3 → y < 2 →
        let tile := tile_of 3 2 2 x y in
        (∀ x' y', (x', y') ∈ tile
                  ↔ x' < 3 ∧ y' < 2 ∧ x' / 2 = x / 2 ∧ y' / 2 = y / 2)
        ∧ (∀ c, c < 3 →
             rounded_mean (channel_sum (data sample_image) 3 c tile)
               (Z.of_nat (length tile)) (chan (data out) 3 x y c))
        ∧ chan (data out) 3 x y 3 = chan (data sample_image) 3 x y 3.
Proof.
  apply (processMosaic_tiles sample_image 2).
  - lia.
  - split; [reflexivity|].
    repeat (apply Forall_cons_2; [unfold is_byte; lia|]).
    apply Forall_nil_2.
Defined.

(** *** The masked mosaic *)

(** The step of the masked loops at one tile, as a change of the buffer. *)
Lemma chan_masked_step (d mask : list Z) (tx ty bs w h x y c : nat) :
  length d = w * h * 4 → x < w → y < h → c < 4 →
  chan (if _hasSelectedPixels mask tx ty bs w h
        then _fillBlockWithMask d mask tx ty bs w h
               (_calculateAverageColor d tx ty bs w h)
        else d) w x y c
  = if bool_decide ((x, y) ∈ tile_pixels tx ty (Nat.min (tx + bs) w)
                                 (Nat.min (ty + bs) h))
       && selected mask w x y && (c <? 3)
    then clamp8 (chan_of (_calculateAverageColor d tx ty bs w h) c)
    else chan d w x y c.
Proof.
  intros Hlen Hx Hy Hc.
  destruct (_hasSelectedPixels mask tx ty bs w h) eqn:Hany.
  - by apply chan_fillBlockWithMask.
  - rewrite _hasSelectedPixels_existsb in Hany.
    case_bool_decide as Hin; [|done].
    destruct (selected mask w x y) eqn:Hsel; [|done].
    assert (existsb (λ p, selected mask w p.1 p.2)
              (tile_pixels tx ty (Nat.min (tx + bs) w) (Nat.min (ty + bs) h))
            = true) as Hex; [|congruence].
    apply existsb_exists. exists (x, y). split; [|done].
    by apply list_elem_of_In.
Qed.

(** C2. For a raster [img], a block size [bs >= 1] and a mask of the same
    dimensions, [_processMosaicWithMask] returns an image of the same
    dimensions in which, for every pixel and its tile of the grid: if no
    pixel of the tile is selected by the mask the pixel is unchanged; if
    the pixel is selected each of its R, G and B bytes is the mean of that
    channel over all pixels of the tile in [img], selected or not, rounded
    to the nearest integer; if the pixel is not selected it is unchanged;
    and its alpha byte is unchanged in every case. *)
Theorem processMosaicWithMask_tiles (img mask : ImageData) (bs : nat) :
  1 ≤ bs → raster img →
  width mask = width img → height mask = height img →
  ∃ out,
    _processMosaicWithMask img bs mask = Some out
    ∧ width out = width img ∧ height out = height img
    ∧ length (data out) = length (data img)
    ∧ ∀ x y, x < width img → y < height img →
        let tile := tile_of (width img) (height img) bs x y in
        ((∀ x' y', (x', y') ∈ tile →
                   selected (data mask) (width mask) x' y' = false) →
         ∀ c, c < 4 → chan (data out) (width img) x y c
                      = chan (data img) (width img) x y c)
        ∧ (selected (data mask) (width mask) x y = true →
           ∀ c, c < 3 →
             rounded_mean (channel_sum (data img) (width img) c tile)
               (Z.of_nat (length tile))
               (chan (data out) (width img) x y c))
        ∧ (selected (data mask) (width mask) x y = false →
           ∀ c, c < 4 → chan (data out) (width img) x y c
                        = chan (data img) (width img) x y c)
        ∧ chan (data out) (width img) x y 3
          = chan (data img) (width img) x y 3.
Proof.
  destruct img as [d0 w h], mask as [m mw mh].
  intros Hbs [Hlen Hbytes] Hmw Hmh. simpl in *. subst mw mh.
  destruct (tile_loops w h bs d0 (selected m w)
              (λ x y d, if _hasSelectedPixels m x y bs w h
                        then _fillBlockWithMask d m x y bs w h
                               (_calculateAverageColor d x y bs w h)
                        else d)
              (λ x y d, if _hasSelectedPixels m x y bs w h
                        then Some (_fillBlockWithMask d m x y bs w h
                                     (_calculateAverageColor d x y bs w h))
                        else Some d))
    as (d' & Hrun & Hlen' & Hfinal); try done.
  - intros tx ty d. by destruct (_hasSelectedPixels m tx ty bs w h).
  - intros tx ty d. destruct (_hasSelectedPixels m tx ty bs w h); [|done].
    apply length_fillBlockWithMask.
  - intros tx ty d x y c Hd Hx Hy Hc. by apply chan_masked_step.
  - exists (mkImageData d' w h). unfold _processMosaicWithMask.
    simpl. rewrite Hrun. simpl. do 3 (split; [done|]). split; [lia|].
    intros x y Hx Hy.
    assert (Hunsel : selected m w x y = false →
              ∀ c, c < 4 → chan d' w x y c = chan d0 w x y c).
    { intros Hsel c Hc. rewrite Hfinal by done. by rewrite Hsel. }
    split; [|split; [|split]].
    + intros Hnone. apply Hunsel, Hnone. by apply elem_of_tile_of.
    + intros Hsel c Hc. rewrite Hfinal by (done || lia). rewrite Hsel.
      apply Nat.ltb_lt in Hc as Hc'. rewrite Hc'. simpl.
      by apply stored_mean.
    + done.
    + rewrite Hfinal by (done || lia). by rewrite andb_false_r.
Qed.

Lemma processMosaicWithMask_tiles_witness :
  ∃ out,
    _processMosaicWithMask sample_image 2 sample_mask = Some out
    ∧ width out = 3 ∧ height out = 2
    ∧ length (data out) = 24
    ∧ ∀ x y, x < 3 → y < 2 →
        let tile := tile_of 3 2 2 x y in
        ((∀ x' y', (x', y') ∈ tile →
                   selected (data sample_mask) 3 x' y' = false) →
         ∀ c, c < 4 → chan (data out) 3 x y c
                      = chan (data sample_image) 3 x y c)
        ∧ (selected (data sample_mask) 3 x y = true →
           ∀ c, c < 3 →
             rounded_mean (channel_sum (data sample_image) 3 c tile)
               (Z.of_nat (length tile)) (chan (data out) 3 x y c))
        ∧ (selected (data sample_mask) 3 x y = false →
           ∀ c, c < 4 → chan (data out) 3 x y c
                        = chan (data sample_image) 3 x y c)
        ∧ chan (data out) 3 x y 3 = chan (data sample_image) 3 x y 3.
Proof.
  apply (processMosaicWithMask_tiles sample_image sample_mask 2).
  - lia.
  - split; [reflexivity|].
    repeat (apply Forall_cons_2; [unfold is_byte; lia|]).
    apply Forall_nil_2.
  - reflexivity.
  - reflexivity.
Defined.

(** The two runs on the sample image, evaluated. *)
Example processMosaic_sample :
  _processMosaic sample_image 2
  = Some (mkImageData
      [ 31; 41; 51; 255;   31; 41; 51; 128;   145; 50; 183; 0;
        31; 41; 51; 7;     31; 41; 51; 255;   145; 50; 183; 64 ]%Z 3 2).
Proof. reflexivity. Qed.

Example processMosaicWithMask_sample :
  _processMosaicWithMask sample_image 2 sample_mask
  = Some (mkImageData
      [ 10; 20; 30; 255;   31; 41; 51; 128;   90; 100; 110; 0;
        11; 21; 31; 7;     52; 62; 73; 255;   200; 0; 255; 64 ]%Z 3 2).
Proof. reflexivity. Qed.

(** A block size of 0 makes the loop spin. *)
Example processMosaic_zero_block : _processMosaic sample_image 0 = None.
Proof. reflexivity. Qed.

End MosaicFacts.

(** ** The history stack *)

Module HistoryFacts.
Import History.

Lemma alloc_fresh (v : Mosaic.ImageData) (σ : objects) :
  (alloc v σ).1 ∉ dom σ.
Proof. unfold alloc. simpl. apply is_fresh. Qed.

Lemma alloc_lookup_new (v : Mosaic.ImageData) (σ : objects) :
  (alloc v σ).2 !!! (alloc v σ).1 = v.
Proof. unfold alloc. simpl. apply lookup_total_insert_eq. Qed.

(** Objects that exist are not touched by an allocation. *)
Lemma alloc_lookup_old (v : Mosaic.ImageData) (σ : objects) (l : ref) :
  is_Some (σ !! l) → (alloc v σ).2 !! l = σ !! l.
Proof.
  intros Hl. unfold alloc. simpl. apply lookup_insert_ne.
  intros <-. apply elem_of_dom in Hl. by apply (is_fresh (dom σ)).
Qed.

Lemma alloc_lookup_total_old (v : Mosaic.ImageData) (σ : objects) (l : ref) :
  is_Some (σ !! l) → (alloc v σ).2 !!! l = σ !!! l.
Proof.
  intros Hl. by rewrite !lookup_total_alt, alloc_lookup_old.
Qed.

Lemma js_index_Some {A : Type} (l : list A) (i : Z) :
  (0 ≤ i < Z.of_nat (length l))%Z → is_Some (js_index l i).
Proof.
  intros Hi. unfold js_index. destruct (Z.ltb_spec i 0); [lia|].
  apply lookup_lt_is_Some. lia.
Qed.

Lemma undo_nothing (hm : HistoryManager) (σ : objects) :
  canUndo hm = false → undo hm σ = (Returns None, hm, σ).
Proof. intros H. unfold undo. by rewrite H. Qed.

Lemma redo_nothing (hm : HistoryManager) (σ : objects) :
  canRedo hm = false → redo hm σ = (Returns None, hm, σ).
Proof. intros H. unfold redo. by rewrite H. Qed.

(** *** clear *)

(** C10. After [clear()] the stack is empty with [currentIndex = -1], and
    as long as no entry is pushed (whatever undo, redo, clear and optimize
    calls follow) [canUndo()] and [canRedo()] are false and
    [getCurrentActionName()] is [null]. *)
Theorem clear_empties (hm : HistoryManager) (σ : objects) (ops : list Op) :
  history (clear hm) = []
  ∧ currentIndex (clear hm) = (-1)%Z
  ∧ canUndo (run_ops ops (clear hm, σ)).1 = false
  ∧ canRedo (run_ops ops (clear hm, σ)).1 = false
  ∧ getCurrentActionName (run_ops ops (clear hm, σ)).1 = None.
Proof.
  split; [done|]. split; [done|].
  assert (Hinv : history (run_ops ops (clear hm, σ)).1 = []
                 ∧ (-1 ≤ currentIndex (run_ops ops (clear hm, σ)).1 ≤ 0)%Z).
  { induction ops as [|op ops IH] using rev_ind; [split; [done|simpl; lia]|].
    unfold run_ops in *. rewrite foldl_snoc.
    destruct (foldl _ _ ops) as [hm' σ']. simpl in IH. destruct IH as [Hh Hc].
    destruct op as [| | |k]; simpl.
    - rewrite undo_nothing; [done|].
      unfold canUndo. apply Z.ltb_ge. lia.
    - rewrite redo_nothing; [done|].
      unfold canRedo, len. rewrite Hh. apply Z.ltb_ge. simpl. lia.
    - split; [done|lia].
    - unfold optimize, len. rewrite Hh.
      change (Z.of_nat (length (@nil State))) with 0%Z.
      destruct (Z.ltb_spec k 0); simpl; [|done].
      split; [by rewrite drop_nil|].
      destruct (Z.ltb_spec (currentIndex hm' - (0 - k)) 0); lia. }
  destruct Hinv as [Hh Hc].
  unfold canUndo, canRedo, getCurrentActionName, len. rewrite Hh.
  change (Z.of_nat (length (@nil State))) with 0%Z.
  set (ci := currentIndex (run_ops ops (clear hm, σ)).1) in *.
  split; [apply Z.ltb_ge; lia|]. split; [apply Z.ltb_ge; lia|].
  destruct (Z.leb_spec 0 ci), (Z.ltb_spec ci 0); simpl; try done; lia.
Qed.

(** *** undo and redo *)

Lemma js_index_elem_of {A : Type} (l : list A) (i : Z) (a : A) :
  js_index l i = Some a → a ∈ l.
Proof.
  unfold js_index. destruct (i <? 0)%Z; [done|].
  apply list_elem_of_lookup_2.
Qed.

Lemma alive_index (hm : HistoryManager) (σ : objects) (i : Z) (e : State) :
  alive hm σ → js_index (history hm) i = Some e → is_Some (σ !! imageData e).
Proof.
  intros Halive He. apply js_index_elem_of in He.
  unfold alive in Halive. rewrite Forall_forall in Halive. by apply Halive.
Qed.

(** C4. In a state of the stack where [undo()] succeeds
    ([currentIndex > 0]), [undo()] followed at once by [redo()] returns a
    raster, a new object, whose pixel buffer, width and height are those of
    the entry that was current before the undo; [currentIndex] is back at
    its value and the entries are the same. *)
Theorem undo_redo_roundtrip (hm : HistoryManager) (σ : objects) :
  wf hm → alive hm σ → canUndo hm = true →
  ∃ current r1 hm1 σ1 r2 hm2 σ2,
    js_index (history hm) (currentIndex hm) = Some current
    ∧ undo hm σ = (Returns (Some r1), hm1, σ1)
    ∧ redo hm1 σ1 = (Returns (Some r2), hm2, σ2)
    ∧ (r2 ∉ dom σ)
    ∧ σ2 !!! r2 = σ !!! (imageData current)
    ∧ currentIndex hm2 = currentIndex hm
    ∧ history hm2 = history hm.
Proof.
  intros [Hlo Hhi] Halive Hcan. unfold len in Hhi.
  pose proof Hcan as Hpos. unfold canUndo in Hpos. apply Z.ltb_lt in Hpos.
  destruct (js_index_Some (history hm) (currentIndex hm)) as [cur Hcur];
    [lia|].
  destruct (js_index_Some (history hm) (currentIndex hm - 1)) as [prev Hprev];
    [lia|].
  pose proof (alive_index hm σ _ _ Halive Hcur) as Hcur_alive.
  set (a1 := alloc (σ !!! (imageData prev)) σ).
  set (hm1 := {| history := history hm; currentIndex := currentIndex hm - 1;
                 maxHistorySize := maxHistorySize hm |}).
  set (a2 := alloc (a1.2 !!! (imageData cur)) a1.2).
  exists cur, a1.1, hm1, a1.2, a2.1,
    {| history := history hm; currentIndex := currentIndex hm - 1 + 1;
       maxHistorySize := maxHistorySize hm |}, a2.2.
  split; [done|]. split.
  { unfold undo. rewrite Hcan. simpl. by rewrite Hprev. }
  split.
  { unfold redo, canRedo, len. simpl.
    destruct (Z.ltb_spec (currentIndex hm - 1)
                (Z.of_nat (length (history hm)) - 1)); [|lia].
    simpl. replace (currentIndex hm - 1 + 1)%Z with (currentIndex hm) by lia.
    by rewrite Hcur. }
  split.
  { assert (Hsub : dom σ ⊆ dom a1.2).
    { unfold a1, alloc. simpl. rewrite dom_insert_L. set_solver. }
    intros Hin. apply (alloc_fresh (a1.2 !!! (imageData cur)) a1.2).
    apply Hsub, Hin. }
  split.
  { unfold a2. rewrite alloc_lookup_new.
    unfold a1. by apply alloc_lookup_total_old. }
  split; [simpl; lia|done].
Qed.

Lemma undo_redo_roundtrip_witness :
  ∃ current r1 hm1 σ1 r2 hm2 σ2,
    js_index (history two_entries) (currentIndex two_entries) = Some current
    ∧ undo two_entries two_objects = (Returns (Some r1), hm1, σ1)
    ∧ redo hm1 σ1 = (Returns (Some r2), hm2, σ2)
    ∧ (r2 ∉ dom two_objects)
    ∧ σ2 !!! r2 = two_objects !!! (imageData current)
    ∧ currentIndex hm2 = currentIndex two_entries
    ∧ history hm2 = history two_entries.
Proof.
  apply (undo_redo_roundtrip two_entries two_objects).
  - unfold wf, len. simpl. lia.
  - unfold alive. simpl.
    repeat (apply Forall_cons_2; [by eexists|]). apply Forall_nil_2.
  - reflexivity.
Defined.

(** *** saveState *)

(** One push, spelled out: the entries up to the current one are kept, a
    clone at a new reference is appended, and the oldest entry goes when
    the capacity is exceeded. *)
Lemma saveState_eq (img : ref) (name : string) (now : Z)
    (hm : HistoryManager) (σ : objects) :
  (-1 ≤ currentIndex hm)%Z →
  saveState img name now hm σ
  = let c := fresh (dom σ) in
    let entries :=
      take (Z.to_nat (currentIndex hm + 1)) (history hm)
      ++ [mkState c name now] in
    ({| history :=
          if (maxHistorySize hm <? Z.of_nat (length entries))%Z
          then drop 1 entries else entries;
        currentIndex :=
          if (maxHistorySize hm <? Z.of_nat (length entries))%Z
          then Z.of_nat (length entries) - 1 - 1
          else Z.of_nat (length entries) - 1;
        maxHistorySize := maxHistorySize hm |},
     <[c := σ !!! img]> σ).
Proof.
  intros Hci. unfold saveState, cloneImageData, alloc.
  assert ((if (currentIndex hm <? len hm - 1)%Z
           then js_slice0 (history hm) (currentIndex hm + 1)
           else history hm)
          = take (Z.to_nat (currentIndex hm + 1)) (history hm)) as ->.
  { destruct (Z.ltb_spec (currentIndex hm) (len hm - 1)) as [Hlt|Hge].
    - unfold js_slice0.
      by destruct (Z.ltb_spec (currentIndex hm + 1) 0); [lia|].
    - symmetry. apply take_ge. unfold len in Hge. lia. }
  simpl.
  by destruct (maxHistorySize hm <? _)%Z.
Qed.

Lemma alive_alloc (hm : HistoryManager) (σ : objects) (v : Mosaic.ImageData) :
  alive hm σ → alive hm (alloc v σ).2.
Proof.
  unfold alive. intros Hal. eapply Forall_impl; [exact Hal|].
  intros e He. by rewrite alloc_lookup_old.
Qed.

(** The stack invariant holds in every state the application reaches. *)
Lemma reachable_wf (M : Z) (hm : HistoryManager) (σ : objects) :
  reachable M hm σ → wf hm ∧ alive hm σ.
Proof.
  induction 1 as [σ|hm σ v _ [Hwf Hal]|hm σ img name now _ [Hwf Hal]
                  |hm σ _ [Hwf Hal]|hm σ _ [Hwf Hal]|hm σ _ [Hwf Hal]].
  - split; [unfold wf, len; simpl; lia|apply Forall_nil_2].
  - split; [done|by apply alive_alloc].
  - destruct Hwf as [Hlo Hhi]. rewrite saveState_eq by done. cbv zeta.
    set (c := fresh (dom σ)).
    set (entries := take _ (history hm) ++ [_]).
    assert (Hlen : 1 ≤ length entries).
    { unfold entries. rewrite length_app. simpl. lia. }
    assert (Hentries : Forall (λ e, is_Some (<[c := σ !!! img]> σ
                                               !! imageData e)) entries).
    { apply Forall_app. split.
      - apply Forall_take. eapply Forall_impl; [exact Hal|].
        intros e He.
        change (is_Some ((alloc (σ !!! img) σ).2 !! imageData e)).
        by rewrite alloc_lookup_old.
      - apply Forall_singleton. simpl. rewrite lookup_insert_eq. by eexists. }
    unfold wf, alive, len. simpl.
    destruct (maxHistorySize hm <? Z.of_nat (length entries))%Z.
    + rewrite length_drop. split; [lia|by apply Forall_drop].
    + split; [lia|done].
  - destruct Hwf as [Hlo Hhi]. unfold len in Hhi. unfold undo.
    destruct (canUndo hm) eqn:Hcan; [|done]. simpl.
    apply Z.ltb_lt in Hcan.
    destruct (js_index_Some (history hm) (currentIndex hm - 1)) as [e ->];
      [lia|].
    simpl. split; [unfold wf, len; simpl; lia|].
    by apply (alive_alloc hm).
  - destruct Hwf as [Hlo Hhi]. unfold len in Hhi. unfold redo.
    destruct (canRedo hm) eqn:Hcan; [|done]. simpl.
    apply Z.ltb_lt in Hcan. unfold len in Hcan.
    destruct (js_index_Some (history hm) (currentIndex hm + 1)) as [e ->];
      [lia|].
    simpl. split; [unfold wf, len; simpl; lia|].
    by apply (alive_alloc hm).
  - split; [unfold wf, len; simpl; lia|apply Forall_nil_2].
Qed.

Lemma snapshot_weaken (σ σ' : objects) (e : State) :
  σ ⊆ σ' → is_Some (σ !! imageData e) → snapshot σ' e = snapshot σ e.
Proof.
  intros Hsub [v Hv]. unfold snapshot. f_equal. f_equal.
  rewrite !lookup_total_alt, Hv.
  by rewrite (lookup_weaken σ σ' _ v Hv Hsub).
Qed.

(** Any number of pushes from an empty stack: the last [maxSize] of them
    are retained, as new objects holding what was pushed. *)
Lemma push_all_retains (M : Z) (ps : list (ref * string * Z)) (σ : objects) :
  (0 ≤ M)%Z → Forall (λ p, is_Some (σ !! p.1.1)) ps →
  let s' := push_all ps (constructor M, σ) in
  maxHistorySize s'.1 = M
  ∧ currentIndex s'.1 = (len s'.1 - 1)%Z
  ∧ length (history s'.1) = Nat.min (length ps) (Z.to_nat M)
  ∧ σ ⊆ s'.2
  ∧ Forall (λ e, is_Some (s'.2 !! imageData e) ∧ imageData e ∉ dom σ)
      (history s'.1)
  ∧ snapshot s'.2 <$> history s'.1
    = pushed σ <$> drop (length ps - Z.to_nat M) ps.
Proof.
  intros HM. induction ps as [|p ps IH] using rev_ind; intros Hps s'.
  - subst s'. simpl. unfold len. simpl.
    repeat split; (done || lia).
  - apply Forall_app in Hps as [Hps Hp]. rewrite Forall_singleton in Hp.
    specialize (IH Hps). simpl in IH.
    subst s'. unfold push_all in *. rewrite foldl_snoc.
    destruct (foldl _ _ ps) as [hm σ1]. simpl in IH. simpl.
    destruct IH as (HMeq & Hci & Hlen & Hsub & Hall & Hsnap).
    unfold len in Hci.
    rewrite saveState_eq by lia. cbv zeta.
    rewrite take_ge by lia.
    set (c := fresh (dom σ1)).
    assert (Hc1 : σ1 !! c = None) by (apply not_elem_of_dom, is_fresh).
    assert (Hsub1 : σ1 ⊆ <[c := σ1 !!! p.1.1]> σ1) by by apply insert_subseteq.
    assert (Hsub2 : σ ⊆ <[c := σ1 !!! p.1.1]> σ1) by by etrans.
    assert (Hcσ : c ∉ dom σ).
    { intros Hin. apply elem_of_dom in Hin as [v Hv].
      by rewrite (lookup_weaken σ σ1 c v Hv Hsub) in Hc1. }
    set (st := mkState c p.1.2 p.2).
    assert (Hall' : Forall (λ e, is_Some (<[c := σ1 !!! p.1.1]> σ1 !! imageData e)
                                 ∧ imageData e ∉ dom σ)
                      (history hm ++ [st])).
    { apply Forall_app. split.
      - eapply Forall_impl; [exact Hall|]. intros e [[v Hv] Hn].
        split; [|done]. exists v. by apply (lookup_weaken σ1).
      - apply Forall_singleton. split; [|done].
        simpl. rewrite lookup_insert_eq. by eexists. }
    assert (Hsnap' : snapshot (<[c := σ1 !!! p.1.1]> σ1) <$> (history hm ++ [st])
                     = pushed σ <$> (drop (length ps - Z.to_nat M) ps ++ [p])).
    { rewrite !fmap_app, <- Hsnap. f_equal.
      - apply Forall_fmap_ext. eapply Forall_impl; [exact Hall|].
        intros e [He _]. by apply snapshot_weaken.
      - simpl. unfold snapshot, pushed. simpl. do 3 f_equal.
        rewrite lookup_total_insert_eq.
        destruct Hp as [v Hv]. rewrite !lookup_total_alt, Hv.
        by rewrite (lookup_weaken σ σ1 _ v Hv Hsub). }
    rewrite length_app in *. simpl in *. unfold len. simpl.
    rewrite HMeq.
    destruct (Z.ltb_spec M (Z.of_nat (length (history hm) + 1))) as [Hfull|Hroom];
      simpl.
    + split; [done|]. rewrite length_drop, !length_app. simpl.
      split; [lia|]. split; [lia|]. split; [done|].
      split; [by apply Forall_drop|].
      rewrite fmap_drop, Hsnap', <- fmap_drop. f_equal.
      rewrite <- drop_app_le by lia. rewrite drop_drop. f_equal. lia.
    + split; [done|]. rewrite !length_app. simpl.
      split; [lia|]. split; [lia|]. split; [done|]. split; [done|].
      rewrite Hsnap'. f_equal.
      replace (length ps - Z.to_nat M) with 0 by lia.
      replace (length ps + 1 - Z.to_nat M) with 0 by lia. done.
Qed.

(** C3. A push ([saveState]) keeps the entries up to [currentIndex] and
    discards those after it, appends an entry that refers to a clone of
    the given raster (a new object, so no other reference reaches it, with
    the bytes and dimensions of the raster), and leaves [currentIndex] at
    the last index; when the length then exceeds the capacity the entry at
    index 0 is evicted and [currentIndex] is one less.  Hence
    [maxSize + k] pushes ([k >= 1]) into an empty stack of capacity
    [maxSize] leave exactly [maxSize] entries, the most recent ones, with
    [currentIndex] at the last slot. *)
Theorem saveState_bounded :
  (∀ (img : ref) (name : string) (now : Z) (hm : HistoryManager)
     (σ : objects),
     (-1 ≤ currentIndex hm)%Z →
     ∃ c hm',
       saveState img name now hm σ = (hm', <[c := σ !!! img]> σ)
       ∧ (c ∉ dom σ)
       ∧ maxHistorySize hm' = maxHistorySize hm
       ∧ currentIndex hm' = (len hm' - 1)%Z
       ∧ let entries :=
           take (Z.to_nat (currentIndex hm + 1)) (history hm)
           ++ [mkState c name now] in
         ((Z.of_nat (length entries) ≤ maxHistorySize hm)%Z →
          history hm' = entries)
         ∧ ((maxHistorySize hm < Z.of_nat (length entries))%Z →
            history hm' = drop 1 entries))
  ∧ (∀ (maxSize : Z) (k : nat) (ps : list (ref * string * Z)) (σ : objects),
       (0 ≤ maxSize)%Z → 1 ≤ k → length ps = Z.to_nat maxSize + k →
       Forall (λ p, is_Some (σ !! p.1.1)) ps →
       let s' := push_all ps (constructor maxSize, σ) in
       len s'.1 = maxSize
       ∧ currentIndex s'.1 = (maxSize - 1)%Z
       ∧ snapshot s'.2 <$> history s'.1 = pushed σ <$> drop k ps
       ∧ Forall (λ e, imageData e ∉ dom σ) (history s'.1)).
Proof.
  split.
  - intros img name now hm σ Hci.
    exists (fresh (dom σ)). eexists. rewrite saveState_eq by done. cbv zeta.
    split; [reflexivity|]. split; [apply is_fresh|]. split; [done|].
    unfold len. simpl.
    set (entries := take _ (history hm) ++ [_]).
    assert (Hlen : 1 ≤ length entries).
    { unfold entries. rewrite length_app. simpl. lia. }
    destruct (Z.ltb_spec (maxHistorySize hm) (Z.of_nat (length entries))).
    + rewrite length_drop. split; [lia|]. split; [lia|done].
    + split; [done|]. split; [done|lia].
  - intros maxSize k ps σ HM Hk Hlen Hps s'.
    destruct (push_all_retains maxSize ps σ HM Hps)
      as (_ & Hci & Hn & _ & Hall & Hsnap).
    fold s' in Hci, Hn, Hall, Hsnap.
    assert (Hfull : len s'.1 = maxSize) by (unfold len; lia).
    split; [done|]. split; [lia|]. split.
    + rewrite Hsnap. do 2 f_equal. lia.
    + eapply Forall_impl; [exact Hall|]. by intros e [_ ?].
Qed.

Lemma saveState_bounded_witness :
  (∃ c hm',
     saveState 1 "Mosaic Applied" 300 two_entries two_objects
     = (hm', <[c := two_objects !!! 1]> two_objects)
     ∧ (c ∉ dom two_objects)
     ∧ maxHistorySize hm' = 10%Z
     ∧ currentIndex hm' = (len hm' - 1)%Z
     ∧ let entries :=
         take 2 (history two_entries) ++ [mkState c "Mosaic Applied" 300] in
       ((Z.of_nat (length entries) ≤ 10)%Z → history hm' = entries)
       ∧ ((10 < Z.of_nat (length entries))%Z → history hm' = drop 1 entries))
  ∧ (let s' := push_all three_pushes (constructor 2, two_objects) in
     len s'.1 = 2%Z
     ∧ currentIndex s'.1 = 1%Z
     ∧ snapshot s'.2 <$> history s'.1
       = pushed two_objects <$> drop 1 three_pushes
     ∧ Forall (λ e, imageData e ∉ dom two_objects) (history s'.1)).
Proof.
  destruct saveState_bounded as [Hpush Hbound]. split.
  - apply (Hpush 1 "Mosaic Applied" 300%Z two_entries two_objects).
    simpl. lia.
  - apply (Hbound 2%Z 1 three_pushes two_objects).
    + lia.
    + lia.
    + reflexivity.
    + repeat (apply Forall_cons_2; [by eexists|]). apply Forall_nil_2.
Defined.

(** The scenario of the specification: three pushes into a stack of
    capacity 2 leave the second and the third; one undo returns the
    second, another one returns nothing. *)
Example three_pushes_capacity_two :
  let s := push_all three_pushes (constructor 2, two_objects) in
  actionName <$> history s.1 = ["Mosaic Applied"; "Reset to Original"]
  ∧ ∃ r hm σ,
      undo s.1 s.2 = (Returns (Some r), hm, σ)
      ∧ σ !!! r = two_objects !!! 1
      ∧ undo hm σ = (Returns None, hm, σ).
Proof.
  split; [reflexivity|].
  do 3 eexists. split; [vm_compute; reflexivity|].
  split; reflexivity.
Qed.

End HistoryFacts.

(** ** The selection model *)

Module SelectionFacts.
Import Selection.

(** Case analysis on every comparison of a mode with a literal. *)
Ltac case_mode :=
  repeat match goal with
  | |- context [String.eqb ?a ?c] =>
      destruct (String.eqb_spec a c); try congruence; try discriminate
  | H : context [String.eqb ?a ?c] |- _ =>
      destruct (String.eqb_spec a c); try congruence; try discriminate
  end.

(** The comparison of the exact instance. *)
Lemma Qltb_lt (a c : Q) : Qltb a c = true ↔ (a < c)%Q.
Proof.
  unfold Qltb. rewrite negb_true_iff, <- not_true_iff_false, Qle_bool_iff.
  split; [apply Qnot_le_lt|apply Qlt_not_le].
Qed.

Lemma Qltb_ge (a c : Q) : Qltb a c = false ↔ (c <= a)%Q.
Proof.
  unfold Qltb. by rewrite negb_false_iff, Qle_bool_iff.
Qed.

Section AnyNumber.
Context {num : Type} {Num : Number num}.

Lemma hasSelection_confirmed (sm : SelectionManager num) :
  hasSelection sm = true → isConfirmed sm = true.
Proof.
  unfold hasSelection. case_mode; intros H; try done.
  - by apply andb_prop in H as [_ ?].
  - by apply andb_prop in H as [_ ?].
Qed.

(** After [clearSelection()] outside of full mode nothing is selected. *)
Lemma clearSelection_not_full (sm : SelectionManager num) :
  selectionMode sm ≠ "full" →
  hasSelection (clearSelection false sm) = false
  ∧ phase (clearSelection false sm) = Idle.
Proof.
  intros Hmode. unfold phase, hasSelection, clearSelection. simpl.
  case_mode; simpl; done.
Qed.

(** *** Drag end *)

(** C7. A drag ends with [handleMouseUp] of the primary button while a
    selection is in progress.  In rectangle mode, with start point [S] and
    current point [E], the box is computed as [Math.min] of the
    coordinates, with width [Math.abs(E.x - S.x)] and height
    [Math.abs(E.y - S.y)]: if [width < 5] or [height < 5] holds of the
    computed numbers the selection is cleared and the model is idle
    ([hasSelection()] false); otherwise the box is stored and the
    selection is confirmed.  In freehand mode: with fewer than 10 recorded
    points the selection is cleared and the model is idle; otherwise the
    first point is appended to the path and the selection is confirmed.
    This holds whatever the arithmetic of the numbers, in particular for
    binary64 with its rounding. *)
Theorem drag_end (sm : SelectionManager num) (e : MouseEvent num) :
  isSelecting sm = true → button e = 0%Z →
  let sm' := handleMouseUp e sm in
  (∀ S E, selectionMode sm = "rectangle" →
     startPoint sm = Some S → currentPoint sm = Some E →
     let box := drag_box S E in
     rect_x box = Math_min (x S) (x E) ∧ rect_y box = Math_min (y S) (y E)
     ∧ rect_width box = Math_abs (num_sub (x E) (x S))
     ∧ rect_height box = Math_abs (num_sub (y E) (y S))
     ∧ (num_lt (rect_width box) (num_of_Z 5) = true
        ∨ num_lt (rect_height box) (num_of_Z 5) = true →
        rectangleSelection sm' = None ∧ selectionPath sm' = []
        ∧ isConfirmed sm' = false ∧ hasSelection sm' = false
        ∧ phase sm' = Idle)
     ∧ (num_lt (rect_width box) (num_of_Z 5) = false
        ∧ num_lt (rect_height box) (num_of_Z 5) = false →
        rectangleSelection sm' = Some box ∧ isConfirmed sm' = true
        ∧ hasSelection sm' = true ∧ phase sm' = Confirmed))
  ∧ (selectionMode sm = "freehand" →
     (length (selectionPath sm) < 10 →
      selectionPath sm' = [] ∧ rectangleSelection sm' = None
      ∧ isConfirmed sm' = false ∧ hasSelection sm' = false
      ∧ phase sm' = Idle)
     ∧ (10 ≤ length (selectionPath sm) →
        (∃ first rest, selectionPath sm = first :: rest
                       ∧ selectionPath sm' = selectionPath sm ++ [first])
        ∧ isConfirmed sm' = true ∧ hasSelection sm' = true
        ∧ phase sm' = Confirmed)).
Proof.
  intros Hsel Hbtn sm'. split.
  - intros S E Hmode HS HE box. do 4 (split; [done|]).
    subst sm' box. unfold handleMouseUp.
    rewrite Hsel, Hbtn. cbn -[drag_box num_lt num_of_Z]. rewrite Hmode.
    unfold finalizeRectangleSelection. cbn -[drag_box num_lt num_of_Z].
    rewrite HS, HE. cbn -[drag_box num_lt num_of_Z].
    split.
    + intros Hsmall.
      assert (num_lt (rect_width (drag_box S E)) (num_of_Z 5)
              || num_lt (rect_height (drag_box S E)) (num_of_Z 5) = true)
        as ->.
      { by apply orb_true_iff. }
      unfold phase, hasSelection, clearSelection.
      cbn -[drag_box num_lt num_of_Z]. by rewrite ?Hmode.
    + intros [Hw Hh]. rewrite Hw, Hh.
      unfold phase, hasSelection. cbn -[drag_box num_lt num_of_Z].
      by rewrite ?Hmode.
  - intros Hmode. subst sm'. unfold handleMouseUp.
    rewrite Hsel, Hbtn. simpl. rewrite Hmode. simpl.
    unfold finalizeFreehandSelection. simpl. split.
    + intros Hshort. apply Nat.ltb_lt in Hshort. rewrite Hshort.
      unfold phase, hasSelection, clearSelection. simpl. by rewrite ?Hmode.
    + intros Hlong. apply Nat.ltb_ge in Hlong as Hlong'. rewrite Hlong'.
      unfold phase, hasSelection. simpl. rewrite ?Hmode. simpl.
      destruct (selectionPath sm) as [|first rest] eqn:Hpath;
        [simpl in Hlong; lia|].
      split; [by exists first, rest|]. split; [done|].
      rewrite length_app. simpl. done.
Qed.

(** *** Right click *)

(** C9, amended. A right click with [hasSelection()] true calls
    [clearSelection()]: in rectangle and freehand mode the selection is
    gone afterwards ([hasSelection()] false, the model idle); in full mode
    the geometry is cleared but the confirmed flag is kept, so
    [hasSelection()] stays true.  A right click with [hasSelection()] false,
    as during a drag, changes nothing. *)
Theorem right_click (sm : SelectionManager num) :
  (hasSelection sm = true → selectionMode sm ≠ "full" →
   handleRightClick sm = clearSelection false sm
   ∧ hasSelection (handleRightClick sm) = false
   ∧ phase (handleRightClick sm) = Idle)
  ∧ (hasSelection sm = true → selectionMode sm = "full" →
     handleRightClick sm = clearSelection false sm
     ∧ isConfirmed (handleRightClick sm) = true
     ∧ hasSelection (handleRightClick sm) = true)
  ∧ (hasSelection sm = false → handleRightClick sm = sm).
Proof.
  unfold handleRightClick. split; [|split].
  - intros Hsel Hmode. rewrite Hsel, (hasSelection_confirmed sm Hsel). simpl.
    split; [done|]. by apply clearSelection_not_full.
  - intros Hsel Hmode.
    pose proof (hasSelection_confirmed sm Hsel) as Hconf.
    rewrite Hsel, Hconf. simpl. split; [done|].
    unfold hasSelection, clearSelection. simpl. by rewrite Hmode, Hconf.
  - intros Hsel. by rewrite Hsel.
Qed.

(** *** Mode switch *)

Lemma handle_keeps_rectangle_empty (ev : Event num)
    (sm : SelectionManager num) :
  selectionMode sm = "rectangle" → rectangleSelection sm = None →
  completes_drag ev sm = false →
  selectionMode (handle ev sm) = "rectangle"
  ∧ rectangleSelection (handle ev sm) = None.
Proof.
  intros Hmode Hrect Hdrag. destruct ev as [e|e|e| |]; simpl.
  - unfold handleMouseDown. by destruct (negb _).
  - unfold handleMouseMove. by destruct (negb _).
  - unfold handleMouseUp. unfold completes_drag in Hdrag.
    destruct (button e =? 0)%Z; [|done].
    destruct (isSelecting sm); [|done]. cbn -[drag_box num_lt num_of_Z].
    rewrite Hmode. cbn -[drag_box num_lt num_of_Z].
    unfold finalizeRectangleSelection. cbn -[drag_box num_lt num_of_Z].
    cbn -[drag_box num_lt num_of_Z] in Hdrag.
    destruct (startPoint sm) as [s|]; [|done].
    destruct (currentPoint sm) as [c|]; [|done].
    destruct (num_lt (rect_width (drag_box s c)) (num_of_Z 5)),
             (num_lt (rect_height (drag_box s c)) (num_of_Z 5)); done.
  - unfold handleRightClick. by destruct (_ && _).
  - done.
Qed.

Lemma run_keeps_rectangle_empty (evs : list (Event num))
    (sm : SelectionManager num) :
  selectionMode sm = "rectangle" → rectangleSelection sm = None →
  no_drag_completed evs sm = true →
  selectionMode (run evs sm) = "rectangle"
  ∧ rectangleSelection (run evs sm) = None.
Proof.
  revert sm. induction evs as [|ev evs IH]; intros sm Hmode Hrect Hno;
    [done|].
  simpl in Hno. apply andb_prop in Hno as [Hev Hno].
  apply negb_true_iff in Hev.
  destruct (handle_keeps_rectangle_empty ev sm Hmode Hrect Hev).
  by apply IH.
Qed.

(** C8, amended. After [setSelectionMode('full')] from a state whose mode
    is not full, or whose confirmed flag is set, [hasSelection()] is true
    with no drag; from a state in full mode whose confirmed flag is reset
    it stays false.  After [setSelectionMode('rectangle')] from any state
    [hasSelection()] is false, and it is still false after any pointer,
    right-click and clear events none of which ends a drag whose computed
    box passes the test of the code (neither [width < 5] nor [height < 5]
    holds).  This holds whatever the arithmetic of the numbers, in
    particular for binary64 with its rounding. *)
Theorem setSelectionMode_selection (sm : SelectionManager num)
    (evs : list (Event num)) :
  (selectionMode sm ≠ "full" ∨ isConfirmed sm = true →
   hasSelection (setSelectionMode "full" sm) = true)
  ∧ (selectionMode sm = "full" → isConfirmed sm = false →
     hasSelection (setSelectionMode "full" sm) = false)
  ∧ hasSelection (setSelectionMode "rectangle" sm) = false
  ∧ (no_drag_completed evs (setSelectionMode "rectangle" sm) = true →
     hasSelection (run evs (setSelectionMode "rectangle" sm)) = false).
Proof.
  split; [|split; [|split]].
  - intros Hprior. unfold hasSelection, setSelectionMode, clearSelection.
    simpl. destruct Hprior as [Hmode| ->]; [|by destruct (negb _)].
    by destruct (String.eqb_spec (selectionMode sm) "full").
  - intros Hmode Hconf.
    unfold hasSelection, setSelectionMode, clearSelection. simpl.
    by rewrite Hmode, Hconf.
  - done.
  - intros Hno.
    destruct (run_keeps_rectangle_empty evs (setSelectionMode "rectangle" sm))
      as [Hmode Hrect]; [done..|].
    unfold hasSelection. by rewrite Hmode, Hrect.
Qed.

End AnyNumber.

(** *** The theorems at sample gestures, in binary64 *)

(** A drag from (2,2) to (12,12) is confirmed; the drag of [boundary_drag],
    whose width binary64 computes as exactly 5, is confirmed as well; the
    drag of [short_drag], whose width binary64 computes below 5, is
    discarded; a freehand drag of 9 points is discarded. *)
Lemma drag_end_witness :
  (rectangleSelection (handleMouseUp (primary 12 12) rectangle_drag)
   = Some (mkRectangle 2 2 10 10)%float
   ∧ hasSelection (handleMouseUp (primary 12 12) rectangle_drag) = true)
  ∧ (rect_width (drag_box boundary_start boundary_end) = 5%float
     ∧ rectangleSelection
         (handleMouseUp {| button := 0; point := boundary_end |}
            boundary_drag)
       = Some (drag_box boundary_start boundary_end)
     ∧ hasSelection
         (handleMouseUp {| button := 0; point := boundary_end |}
            boundary_drag) = true)
  ∧ (num_lt (rect_width (drag_box short_start short_end)) 5%float = true
     ∧ rectangleSelection
         (handleMouseUp {| button := 0; point := short_end |} short_drag)
       = None
     ∧ hasSelection
         (handleMouseUp {| button := 0; point := short_end |} short_drag)
       = false)
  ∧ (selectionPath (handleMouseUp (primary 9 3) freehand_drag) = []
     ∧ hasSelection (handleMouseUp (primary 9 3) freehand_drag) = false).
Proof.
  split; [|split; [|split]].
  - destruct (drag_end rectangle_drag (primary 12 12) eq_refl eq_refl)
      as [Hrect _].
    destruct (Hrect (pt 2 2) (pt 12 12) eq_refl eq_refl eq_refl)
      as (_ & _ & _ & _ & _ & Hbig).
    destruct Hbig as (Hbox & _ & Hsel & _).
    + split; reflexivity.
    + split; [exact Hbox|exact Hsel].
  - destruct (drag_end boundary_drag {| button := 0; point := boundary_end |}
                eq_refl eq_refl) as [Hrect _].
    destruct (Hrect boundary_start boundary_end eq_refl eq_refl eq_refl)
      as (_ & _ & _ & _ & _ & Hbig).
    destruct Hbig as (Hbox & _ & Hsel & _).
    + split; reflexivity.
    + split; [reflexivity|]. split; [exact Hbox|exact Hsel].
  - destruct (drag_end short_drag {| button := 0; point := short_end |}
                eq_refl eq_refl) as [Hrect _].
    destruct (Hrect short_start short_end eq_refl eq_refl eq_refl)
      as (_ & _ & _ & _ & Hsmall & _).
    destruct Hsmall as (Hbox & _ & _ & Hsel & _).
    + left. reflexivity.
    + split; [reflexivity|]. split; [exact Hbox|exact Hsel].
  - destruct (drag_end freehand_drag (primary 9 3) eq_refl eq_refl)
      as [_ Hfree].
    destruct (Hfree eq_refl) as [Hshort _].
    destruct Hshort as (Hpath & _ & _ & Hsel & _).
    + vm_compute. lia.
    + split; [exact Hpath|exact Hsel].
Defined.

(** In full mode a right click leaves [hasSelection()] true. *)
Lemma right_click_full_counterexample :
  ¬ (∀ sm : SelectionManager float,
       hasSelection sm = true → hasSelection (handleRightClick sm) = false).
Proof.
  intros H. specialize (H full_confirmed eq_refl). discriminate H.
Qed.

Lemma right_click_witness :
  hasSelection (handleRightClick rectangle_confirmed) = false
  ∧ hasSelection (handleRightClick full_confirmed) = true
  ∧ handleRightClick rectangle_drag = rectangle_drag.
Proof.
  destruct (right_click rectangle_confirmed) as (Hclear & _ & _).
  destruct (right_click full_confirmed) as (_ & Hfull & _).
  destruct (right_click rectangle_drag) as (_ & _ & Hnone).
  split; [|split].
  - apply Hclear; [reflexivity|vm_compute; discriminate].
  - apply Hfull; reflexivity.
  - apply Hnone. reflexivity.
Defined.

(** Selecting full mode again in that state confirms nothing. *)
Lemma setSelectionMode_full_counterexample :
  ¬ (∀ sm : SelectionManager float,
       hasSelection (setSelectionMode "full" sm) = true).
Proof.
  intros H. specialize (H full_after_pass). discriminate H.
Qed.

(** The last drag is the one of [short_drag], whose width binary64
    computes below 5. *)
Lemma setSelectionMode_selection_witness :
  hasSelection (setSelectionMode "full" rectangle_confirmed) = true
  ∧ hasSelection (setSelectionMode "full" full_after_pass) = false
  ∧ hasSelection
      (run [PointerDown (primary 2 2); PointerMove (primary 5 12);
            PointerUp (primary 5 12); RightClick]
         (setSelectionMode "rectangle" full_confirmed)) = false
  ∧ hasSelection
      (run [PointerDown {| button := 0; point := short_start |};
            PointerMove {| button := 0; point := short_end |};
            PointerUp {| button := 0; point := short_end |}]
         (setSelectionMode "rectangle" full_confirmed)) = false.
Proof.
  destruct (setSelectionMode_selection rectangle_confirmed []) as [Hfull _].
  destruct (setSelectionMode_selection full_after_pass [])
    as (_ & Hagain & _).
  destruct (setSelectionMode_selection full_confirmed
              [PointerDown (primary 2 2); PointerMove (primary 5 12);
               PointerUp (primary 5 12); RightClick])
    as (_ & _ & _ & Hstays).
  destruct (setSelectionMode_selection full_confirmed
              [PointerDown {| button := 0; point := short_start |};
               PointerMove {| button := 0; point := short_end |};
               PointerUp {| button := 0; point := short_end |}])
    as (_ & _ & _ & Hshort).
  split; [|split; [|split]].
  - apply Hfull. left. vm_compute. discriminate.
  - apply Hagain; reflexivity.
  - apply Hstays. vm_compute. reflexivity.
  - apply Hshort. vm_compute. reflexivity.
Defined.

(** *** Full mode *)

(** C6. The code at a press, move and release of the primary button in
    full mode: the press alone has reset the confirmed flag, and
    [hasSelection()] is false from then on although the mode is still
    full and no mosaic pass took place. *)
Theorem full_mode_drag_unconfirms :
  hasSelection full_confirmed = true
  ∧ selectionMode (handle (PointerDown (primary 3 3)) full_confirmed) = "full"
  ∧ isConfirmed (handle (PointerDown (primary 3 3)) full_confirmed) = false
  ∧ hasSelection (handle (PointerDown (primary 3 3)) full_confirmed) = false
  ∧ hasSelection
      (run [PointerDown (primary 3 3); PointerMove (primary 20 20);
            PointerUp (primary 20 20)] full_confirmed) = false
  ∧ isSelectionConfirmed
      (handle (PointerDown (primary 3 3)) full_confirmed) = true.
Proof. repeat split. Qed.

End SelectionFacts.

(** ** The edit session *)

Module AppFacts.
Import App.

(** The test that guards [processImage] can never hold: outside of full
    mode [isSelectionConfirmed()] is the confirmed flag, which
    [hasSelection()] already requires. *)
Lemma confirmation_guard_never_fires (sm : Selection.SelectionManager float) :
  negb (String.eqb (Selection.selectionMode sm) "full")
  && Selection.hasSelection sm
  && negb (Selection.isSelectionConfirmed sm) = false.
Proof.
  unfold Selection.isSelectionConfirmed.
  destruct (String.eqb (Selection.selectionMode sm) "full") eqn:Hmode;
    [done|]. simpl.
  destruct (Selection.hasSelection sm) eqn:Hsel; [|done].
  by rewrite (SelectionFacts.hasSelection_confirmed sm Hsel).
Qed.

(** C5. The code at a session with an image loaded, rectangle mode and no
    confirmed region: [processImage] does not fail; it runs the unmasked
    mosaic over the whole canvas, pushes a "Mosaic Applied" entry and shows
    no error. *)
Theorem processImage_without_selection
    (createSelectionMask :
       Selection.SelectionManager float → nat → nat → Mosaic.ImageData) :
  Selection.selectionMode (selectionManager loaded) = "rectangle"
  ∧ Selection.hasSelection (selectionManager loaded) = false
  ∧ hasImage (imageProcessor loaded) = true
  ∧ canvas (imageProcessor loaded) = two_pixels
  ∧ length (History.history (historyManager loaded)) = 1
  ∧ ∃ app',
      processImage createSelectionMask 5 200 loaded = Done app'
      ∧ error app' = None
      ∧ canvas (imageProcessor app')
        = Mosaic.mkImageData [30; 40; 50; 255; 30; 40; 50; 255]%Z 2 1
      ∧ History.actionName <$> History.history (historyManager app')
        = ["Initial Image Load"; "Mosaic Applied"]
      ∧ History.currentIndex (historyManager app') = 1%Z.
Proof.
  do 5 (split; [reflexivity|]).
  eexists. split; [vm_compute; reflexivity|].
  repeat split.
Qed.

End AppFacts.

(** ** More on the mosaic engine *)

Module MosaicMore.
Import Mosaic MosaicFacts.

(** Every index of a buffer is a channel of a pixel. *)
Lemma index_decompose (w h i : nat) :
  i < w * h * 4 →
  ∃ x y c, x < w ∧ y < h ∧ c < 4 ∧ i = (y * w + x) * 4 + c.
Proof.
  intros Hi. assert (Hw : w ≠ 0) by (intros ->; lia).
  exists ((i / 4) mod w), (i / 4 / w), (i mod 4).
  pose proof (Nat.div_mod_eq i 4). pose proof (Nat.div_mod_eq (i / 4) w).
  pose proof (Nat.mod_upper_bound i 4 ltac:(lia)).
  pose proof (Nat.mod_upper_bound (i / 4) w Hw).
  assert (i / 4 < w * h) by (apply Nat.Div0.div_lt_upper_bound; lia).
  assert (i / 4 / w < h) by (by apply Nat.Div0.div_lt_upper_bound).
  repeat split; try done. lia.
Qed.

(** Two buffers with the same channels are the same buffer. *)
Lemma buffer_ext (d1 d2 : list Z) (w h : nat) :
  length d1 = w * h * 4 → length d2 = w * h * 4 →
  (∀ x y c, x < w → y < h → c < 4 → chan d1 w x y c = chan d2 w x y c) →
  d1 = d2.
Proof.
  intros H1 H2 Hchan.
  apply (list_eq_same_length d1 d2 (w * h * 4)); try done.
  intros i v1 v2 Hi Hv1 Hv2.
  destruct (index_decompose w h i Hi) as (x & y & c & Hx & Hy & Hc & ->).
  specialize (Hchan x y c Hx Hy Hc). unfold chan, load in Hchan.
  by rewrite (list_lookup_total_correct _ _ _ Hv1),
             (list_lookup_total_correct _ _ _ Hv2) in Hchan.
Qed.

(** The two engines, byte by byte. *)
Lemma processMosaic_chan (d0 : list Z) (w h bs : nat) :
  1 ≤ bs → length d0 = w * h * 4 →
  ∃ d', _processMosaic (mkImageData d0 w h) bs = Some (mkImageData d' w h)
        ∧ length d' = w * h * 4
        ∧ ∀ x y c, x < w → y < h → c < 4 →
            chan d' w x y c
            = if c <? 3
              then clamp8 (chan_of (_calculateAverageColor d0
                                      (x / bs * bs) (y / bs * bs) bs w h) c)
              else chan d0 w x y c.
Proof.
  intros Hbs Hlen.
  destruct (tile_loops w h bs d0 (λ _ _, true)
              (λ x y d, _fillBlock d x y bs w h
                          (_calculateAverageColor d x y bs w h))
              (λ x y d, Some (_fillBlock d x y bs w h
                                (_calculateAverageColor d x y bs w h))))
    as (d' & Hrun & Hlen' & Hfinal); try done.
  - intros. apply length_fillBlock.
  - intros tx ty d x y c Hd Hx Hy Hc. rewrite andb_true_r.
    by apply chan_fillBlock.
  - exists d'. unfold _processMosaic. rewrite Hrun. simpl.
    split; [done|]. split; [done|]. exact Hfinal.
Qed.

Lemma processMosaicWithMask_chan (d0 m : list Z) (w h mw mh bs : nat) :
  1 ≤ bs → length d0 = w * h * 4 →
  ∃ d', _processMosaicWithMask (mkImageData d0 w h) bs (mkImageData m mw mh)
        = Some (mkImageData d' w h)
        ∧ length d' = w * h * 4
        ∧ ∀ x y c, x < w → y < h → c < 4 →
            chan d' w x y c
            = if selected m w x y && (c <? 3)
              then clamp8 (chan_of (_calculateAverageColor d0
                                      (x / bs * bs) (y / bs * bs) bs w h) c)
              else chan d0 w x y c.
Proof.
  intros Hbs Hlen.
  destruct (tile_loops w h bs d0 (selected m w)
              (λ x y d, if _hasSelectedPixels m x y bs w h
                        then _fillBlockWithMask d m x y bs w h
                               (_calculateAverageColor d x y bs w h)
                        else d)
              (λ x y d, if _hasSelectedPixels m x y bs w h
                        then Some (_fillBlockWithMask d m x y bs w h
                                     (_calculateAverageColor d x y bs w h))
                        else Some d))
    as (d' & Hrun & Hlen' & Hfinal); try done.
  - intros tx ty d. by destruct (_hasSelectedPixels m tx ty bs w h).
  - intros tx ty d. destruct (_hasSelectedPixels m tx ty bs w h); [|done].
    apply length_fillBlockWithMask.
  - intros tx ty d x y c Hd Hx Hy Hc. by apply chan_masked_step.
  - exists d'. unfold _processMosaicWithMask. simpl. rewrite Hrun. simpl.
    split; [done|]. split; [done|]. exact Hfinal.
Qed.

Lemma is_byte_clamp8 (v : Z) : is_byte (clamp8 v).
Proof. unfold is_byte, clamp8. lia. Qed.

(** A buffer is made of bytes when each channel of each pixel is. *)
Lemma Forall_is_byte_chan (d : list Z) (w h : nat) :
  length d = w * h * 4 →
  (∀ x y c, x < w → y < h → c < 4 → is_byte (chan d w x y c)) →
  Forall is_byte d.
Proof.
  intros Hlen Hchan. apply Forall_lookup_2. intros i v Hv.
  assert (Hi : i < w * h * 4).
  { rewrite <- Hlen. by apply lookup_lt_Some with v. }
  destruct (index_decompose w h i Hi) as (x & y & c & Hx & Hy & Hc & ->).
  specialize (Hchan x y c Hx Hy Hc). unfold chan, load in Hchan.
  by rewrite (list_lookup_total_correct _ _ _ Hv) in Hchan.
Qed.

(** X1. Both engines map a raster to a raster: the result has the same
    width and height, [width * height * 4] bytes, each in 0..255. *)
Theorem mosaic_keeps_raster (img mask : ImageData) (bs : nat) :
  1 ≤ bs → raster img →
  (∃ out, _processMosaic img bs = Some out
          ∧ width out = width img ∧ height out = height img ∧ raster out)
  ∧ (∃ out, _processMosaicWithMask img bs mask = Some out
            ∧ width out = width img ∧ height out = height img
            ∧ raster out).
Proof.
  destruct img as [d0 w h], mask as [m mw mh].
  intros Hbs [Hlen Hbytes]. simpl in Hlen, Hbytes. split.
  - destruct (processMosaic_chan d0 w h bs Hbs Hlen)
      as (d' & -> & Hlen' & Hchan).
    eexists. split; [done|]. do 2 (split; [done|]). split; [done|]. simpl.
    apply (Forall_is_byte_chan d' w h Hlen').
    intros x y c Hx Hy Hc. rewrite Hchan by done.
    destruct (c <? 3); [apply is_byte_clamp8|by apply is_byte_load].
  - destruct (processMosaicWithMask_chan d0 m w h mw mh bs Hbs Hlen)
      as (d' & -> & Hlen' & Hchan).
    eexists. split; [done|]. do 2 (split; [done|]). split; [done|]. simpl.
    apply (Forall_is_byte_chan d' w h Hlen').
    intros x y c Hx Hy Hc. rewrite Hchan by done.
    destruct (_ && _); [apply is_byte_clamp8|by apply is_byte_load].
Qed.

Lemma sample_image_raster : raster sample_image.
Proof.
  split; [reflexivity|].
  repeat (apply Forall_cons_2; [unfold is_byte; lia|]). apply Forall_nil_2.
Qed.

Lemma mosaic_keeps_raster_witness :
  (∃ out, _processMosaic sample_image 2 = Some out
          ∧ width out = 3 ∧ height out = 2 ∧ raster out)
  ∧ (∃ out, _processMosaicWithMask sample_image 2 sample_mask = Some out
            ∧ width out = 3 ∧ height out = 2 ∧ raster out).
Proof.
  apply (mosaic_keeps_raster sample_image sample_mask 2).
  - lia.
  - exact sample_image_raster.
Defined.

Lemma channel_sum_const (d : list Z) (w c : nat) (ps : list (nat * nat))
    (v : Z) :
  (∀ p, p ∈ ps → chan d w p.1 p.2 c = v) →
  channel_sum d w c ps = (v * Z.of_nat (length ps))%Z.
Proof.
  induction ps as [|p ps IH]; intros Hps; [simpl; lia|].
  rewrite channel_sum_cons, (Hps p) by left.
  rewrite IH by (intros q Hq; apply Hps; by right). simpl length. lia.
Qed.

(** Rounding an exact quotient gives the quotient. *)
Lemma Math_round_div_exact (v n : Z) :
  (0 < n)%Z → Math_round_div (v * n) n = v.
Proof.
  intros Hn. unfold Math_round_div. symmetry.
  apply (Z.div_unique_pos _ _ v n); lia.
Qed.

(** X2. The unmasked mosaic is idempotent: run again with the same block
    size on its own result, it returns that result unchanged. *)
Theorem processMosaic_idempotent (img out : ImageData) (bs : nat) :
  1 ≤ bs → length (data img) = width img * height img * 4 →
  _processMosaic img bs = Some out →
  _processMosaic out bs = Some out.
Proof.
  destruct img as [d0 w h]. intros Hbs Hlen Hrun. simpl in Hlen.
  destruct (processMosaic_chan d0 w h bs Hbs Hlen)
    as (d1 & Hrun1 & Hlen1 & Hchan1).
  rewrite Hrun1 in Hrun. injection Hrun as <-.
  destruct (processMosaic_chan d1 w h bs Hbs Hlen1)
    as (d2 & Hrun2 & Hlen2 & Hchan2).
  rewrite Hrun2. do 2 f_equal.
  apply (buffer_ext d2 d1 w h); try done.
  intros x y c Hx Hy Hc. rewrite Hchan2 by done.
  destruct (Nat.ltb_spec c 3) as [Hc3|Hc3]; [|done].
  rewrite chan_of_calculateAverageColor by done.
  fold (tile_of w h bs x y).
  rewrite (channel_sum_const d1 w c _ (chan d1 w x y c)).
  - rewrite Math_round_div_exact by by apply tile_of_nonempty.
    apply clamp8_byte. rewrite Hchan1 by done.
    apply Nat.ltb_lt in Hc3 as ->. apply is_byte_clamp8.
  - intros [x' y'] Hp. simpl.
    apply elem_of_tile_of_iff in Hp as (Hx' & Hy' & Hdx & Hdy); [|done].
    rewrite (Hchan1 x' y' c), (Hchan1 x y c) by done.
    apply Nat.ltb_lt in Hc3 as ->. by rewrite Hdx, Hdy.
Qed.

Lemma processMosaic_idempotent_witness :
  _processMosaic
    (mkImageData
       [ 31; 41; 51; 255;   31; 41; 51; 128;   145; 50; 183; 0;
         31; 41; 51; 7;     31; 41; 51; 255;   145; 50; 183; 64 ]%Z 3 2) 2
  = Some (mkImageData
       [ 31; 41; 51; 255;   31; 41; 51; 128;   145; 50; 183; 0;
         31; 41; 51; 7;     31; 41; 51; 255;   145; 50; 183; 64 ]%Z 3 2).
Proof.
  apply (processMosaic_idempotent sample_image _ 2).
  - lia.
  - reflexivity.
  - reflexivity.
Defined.

(** X3. With a mask that selects no pixel of the image the masked mosaic
    returns the image as it was. *)
Theorem processMosaicWithMask_nothing_selected (img mask : ImageData)
    (bs : nat) :
  1 ≤ bs → length (data img) = width img * height img * 4 →
  (∀ x y, x < width img → y < height img →
          selected (data mask) (width img) x y = false) →
  _processMosaicWithMask img bs mask = Some img.
Proof.
  destruct img as [d0 w h], mask as [m mw mh].
  intros Hbs Hlen Hnone. simpl in Hlen, Hnone.
  destruct (processMosaicWithMask_chan d0 m w h mw mh bs Hbs Hlen)
    as (d' & -> & Hlen' & Hchan).
  do 2 f_equal. apply (buffer_ext d' d0 w h); try done.
  intros x y c Hx Hy Hc. rewrite Hchan by done. by rewrite Hnone.
Qed.

Lemma processMosaicWithMask_nothing_selected_witness :
  _processMosaicWithMask sample_image 2 black_mask = Some sample_image.
Proof.
  apply (processMosaicWithMask_nothing_selected sample_image black_mask 2).
  - lia.
  - reflexivity.
  - intros x y Hx Hy. simpl in Hx, Hy.
    destruct x as [|[|[|x]]]; [| | |lia];
      (destruct y as [|[|y]]; [| |lia]); reflexivity.
Defined.

(** X4. With a mask that selects every pixel of the image the masked
    mosaic returns what the unmasked mosaic returns. *)
Theorem processMosaicWithMask_all_selected (img mask : ImageData)
    (bs : nat) :
  1 ≤ bs → length (data img) = width img * height img * 4 →
  (∀ x y, x < width img → y < height img →
          selected (data mask) (width img) x y = true) →
  _processMosaicWithMask img bs mask = _processMosaic img bs.
Proof.
  destruct img as [d0 w h], mask as [m mw mh].
  intros Hbs Hlen Hall. simpl in Hlen, Hall.
  destruct (processMosaicWithMask_chan d0 m w h mw mh bs Hbs Hlen)
    as (d1 & -> & Hlen1 & Hchan1).
  destruct (processMosaic_chan d0 w h bs Hbs Hlen)
    as (d2 & -> & Hlen2 & Hchan2).
  do 2 f_equal. apply (buffer_ext d1 d2 w h); try done.
  intros x y c Hx Hy Hc. rewrite Hchan1, Hchan2 by done. by rewrite Hall.
Qed.

Lemma processMosaicWithMask_all_selected_witness :
  _processMosaicWithMask sample_image 2 white_mask
  = _processMosaic sample_image 2.
Proof.
  apply (processMosaicWithMask_all_selected sample_image white_mask 2).
  - lia.
  - reflexivity.
  - intros x y Hx Hy. simpl in Hx, Hy.
    destruct x as [|[|[|x]]]; [| | |lia];
      (destruct y as [|[|y]]; [| |lia]); reflexivity.
Defined.

(** X5. [_hasSelectedPixels] answers true exactly when the mask selects
    some pixel of the block clipped to the image; a block that lies
    outside of the image has none. *)
Theorem hasSelectedPixels_iff (maskData : list Z)
    (startX startY blockSize w h : nat) :
  _hasSelectedPixels maskData startX startY blockSize w h = true
  ↔ ∃ x y, startX ≤ x < startX + blockSize ∧ x < w
           ∧ startY ≤ y < startY + blockSize ∧ y < h
           ∧ selected maskData w x y = true.
Proof.
  rewrite _hasSelectedPixels_existsb, existsb_exists. split.
  - intros ([x y] & Hin & Hsel). apply list_elem_of_In in Hin.
    apply elem_of_tile_pixels in Hin. exists x, y. simpl in Hsel.
    repeat split; (done || lia).
  - intros (x & y & Hx & Hxw & Hy & Hyh & Hsel). exists (x, y).
    split; [|done]. apply list_elem_of_In, elem_of_tile_pixels. lia.
Qed.

End MosaicMore.


(** ** More on the history stack *)

Module HistoryMore.
Import History HistoryFacts.

Lemma js_index_inv {A : Type} (l : list A) (i : Z) (a : A) :
  js_index l i = Some a → (0 ≤ i < Z.of_nat (length l))%Z.
Proof.
  unfold js_index. destruct (Z.ltb_spec i 0); [done|].
  intros Hi%lookup_lt_Some. lia.
Qed.

Lemma js_index_drop {A : Type} (l : list A) (n : nat) (i : Z) :
  (0 ≤ i)%Z → js_index (drop n l) i = js_index l (i + Z.of_nat n).
Proof.
  intros Hi. unfold js_index.
  destruct (Z.ltb_spec i 0), (Z.ltb_spec (i + Z.of_nat n) 0); try lia.
  rewrite lookup_drop. f_equal. lia.
Qed.

(** X6. In every state the application reaches with a capacity
    [maxSize >= 0] the stack holds at most [maxSize] entries, every entry
    refers to a live object, and [currentIndex] is -1 when the stack is
    empty and an index of the stack otherwise. *)
Theorem reachable_bounded (M : Z) (hm : HistoryManager) (σ : objects) :
  (0 ≤ M)%Z → reachable M hm σ →
  maxHistorySize hm = M
  ∧ (len hm ≤ M)%Z
  ∧ (history hm = [] → currentIndex hm = (-1)%Z)
  ∧ (history hm ≠ [] → (0 ≤ currentIndex hm < len hm)%Z)
  ∧ alive hm σ.
Proof.
  intros HM Hreach.
  assert (Hinv : maxHistorySize hm = M ∧ (len hm ≤ M)%Z
                 ∧ (len hm = 0 → currentIndex hm = -1)%Z
                 ∧ (0 < len hm → 0 ≤ currentIndex hm)%Z).
  { induction Hreach as [σ|hm σ v _ IH|hm σ img name now Hr IH
                         |hm σ Hr IH|hm σ Hr IH|hm σ _ IH].
    - unfold len. simpl. lia.
    - done.
    - destruct IH as (HMeq & Hle & Hempty & Hpos).
      destruct (reachable_wf M hm σ Hr) as [[Hlo Hhi] _].
      rewrite saveState_eq by done. cbv zeta.
      set (entries := take _ (history hm) ++ [_]).
      assert (Hlen : Z.of_nat (length entries) = (currentIndex hm + 2)%Z).
      { unfold entries. rewrite length_app, length_take. unfold len in Hhi.
        simpl. lia. }
      unfold len in *. simpl.
      destruct (Z.ltb_spec (maxHistorySize hm) (Z.of_nat (length entries)));
        rewrite ?length_drop; lia.
    - destruct IH as (HMeq & Hle & Hempty & Hpos).
      unfold undo. destruct (canUndo hm) eqn:Hcan; [|done]. simpl.
      apply Z.ltb_lt in Hcan.
      destruct (js_index _ _) as [e|]; unfold len in *; simpl; lia.
    - destruct IH as (HMeq & Hle & Hempty & Hpos).
      unfold redo. destruct (canRedo hm) eqn:Hcan; [|done]. simpl.
      apply Z.ltb_lt in Hcan.
      destruct (js_index _ _) as [e|]; unfold len in *; simpl; lia.
    - unfold len. simpl. lia. }
  destruct Hinv as (HMeq & Hle & Hempty & Hpos).
  destruct (reachable_wf M hm σ Hreach) as [[Hlo Hhi] Hal].
  split; [done|]. split; [done|]. split; [|split; [|done]].
  - intros Hnil. apply Hempty. unfold len. by rewrite Hnil.
  - intros Hne. split; [|done]. apply Hpos. unfold len.
    destruct (history hm); [done|]. simpl. lia.
Qed.

Lemma reachable_bounded_witness :
  let s := saveState 1 "Mosaic Applied" 300
             (saveState 0 "Initial Image Load" 100 (constructor 1)
                two_objects).1
             (saveState 0 "Initial Image Load" 100 (constructor 1)
                two_objects).2 in
  maxHistorySize s.1 = 1%Z
  ∧ (len s.1 ≤ 1)%Z
  ∧ (history s.1 = [] → currentIndex s.1 = (-1)%Z)
  ∧ (history s.1 ≠ [] → (0 ≤ currentIndex s.1 < len s.1)%Z)
  ∧ alive s.1 s.2.
Proof.
  apply (reachable_bounded 1); [lia|].
  apply reach_saveState, reach_saveState, reach_constructor.
Defined.

(** X7. In a state of the stack with a current entry where [redo()]
    succeeds, [redo()] followed at once by [undo()] returns a raster, a new
    object, equal to the entry that was current before, and
    [currentIndex] is back at its value. *)
Theorem redo_undo_roundtrip (hm : HistoryManager) (σ : objects) :
  wf hm → (0 ≤ currentIndex hm)%Z → alive hm σ → canRedo hm = true →
  ∃ current r1 hm1 σ1 r2 hm2 σ2,
    js_index (history hm) (currentIndex hm) = Some current
    ∧ redo hm σ = (Returns (Some r1), hm1, σ1)
    ∧ undo hm1 σ1 = (Returns (Some r2), hm2, σ2)
    ∧ (r2 ∉ dom σ)
    ∧ σ2 !!! r2 = σ !!! (imageData current)
    ∧ currentIndex hm2 = currentIndex hm
    ∧ history hm2 = history hm.
Proof.
  intros [Hlo Hhi] Hpos Halive Hcan. unfold len in Hhi.
  pose proof Hcan as Hlt. unfold canRedo, len in Hlt. apply Z.ltb_lt in Hlt.
  destruct (js_index_Some (history hm) (currentIndex hm)) as [cur Hcur];
    [lia|].
  destruct (js_index_Some (history hm) (currentIndex hm + 1)) as [next Hnext];
    [lia|].
  pose proof (alive_index hm σ _ _ Halive Hcur) as Hcur_alive.
  set (a1 := alloc (σ !!! imageData next) σ).
  set (hm1 := {| history := history hm; currentIndex := currentIndex hm + 1;
                 maxHistorySize := maxHistorySize hm |}).
  set (a2 := alloc (a1.2 !!! imageData cur) a1.2).
  exists cur, a1.1, hm1, a1.2, a2.1,
    {| history := history hm; currentIndex := currentIndex hm + 1 - 1;
       maxHistorySize := maxHistorySize hm |}, a2.2.
  split; [done|]. split.
  { unfold redo. rewrite Hcan. simpl. by rewrite Hnext. }
  split.
  { unfold undo, canUndo. simpl.
    destruct (Z.ltb_spec 0 (currentIndex hm + 1)); [|lia].
    simpl. replace (currentIndex hm + 1 - 1)%Z with (currentIndex hm) by lia.
    by rewrite Hcur. }
  split.
  { assert (Hsub : dom σ ⊆ dom a1.2).
    { unfold a1, alloc. simpl. rewrite dom_insert_L. set_solver. }
    intros Hin. apply (alloc_fresh (a1.2 !!! imageData cur) a1.2).
    apply Hsub, Hin. }
  split.
  { unfold a2. rewrite alloc_lookup_new.
    unfold a1. by apply alloc_lookup_total_old. }
  split; [simpl; lia|done].
Qed.

Lemma redo_undo_roundtrip_witness :
  ∃ current r1 hm1 σ1 r2 hm2 σ2,
    js_index (history two_entries) 0 = Some current
    ∧ redo (mkHistoryManager (history two_entries) 0 10) two_objects
      = (Returns (Some r1), hm1, σ1)
    ∧ undo hm1 σ1 = (Returns (Some r2), hm2, σ2)
    ∧ (r2 ∉ dom two_objects)
    ∧ σ2 !!! r2 = two_objects !!! (imageData current)
    ∧ currentIndex hm2 = 0%Z
    ∧ history hm2 = history two_entries.
Proof.
  apply (redo_undo_roundtrip
           (mkHistoryManager (history two_entries) 0 10) two_objects).
  - unfold wf, len. simpl. lia.
  - simpl. lia.
  - unfold alive. simpl.
    repeat (apply Forall_cons_2; [by eexists|]). apply Forall_nil_2.
  - reflexivity.
Defined.

Lemma getCurrentActionName_index (hm : HistoryManager) (e : State) :
  js_index (history hm) (currentIndex hm) = Some e →
  getCurrentActionName hm = Some (actionName e).
Proof.
  intros He. pose proof (js_index_inv _ _ _ He) as Hrange.
  unfold getCurrentActionName, len. rewrite He.
  destruct (Z.leb_spec 0 (currentIndex hm)); [|lia].
  by destruct (Z.ltb_spec (currentIndex hm)
                 (Z.of_nat (length (history hm)))); [|lia].
Qed.

(** X8. After a push [canRedo()] is false, and when the capacity is at
    least 1 the pushed entry is the current one: [getCurrentActionName()]
    is its label and the raster it refers to equals the one given. *)
Theorem saveState_current (img : ref) (name : string) (now : Z)
    (hm : HistoryManager) (σ : objects) :
  (-1 ≤ currentIndex hm)%Z →
  let s' := saveState img name now hm σ in
  canRedo s'.1 = false
  ∧ ((1 ≤ maxHistorySize hm)%Z →
     getCurrentActionName s'.1 = Some name
     ∧ ∃ e, js_index (history s'.1) (currentIndex s'.1) = Some e
            ∧ actionName e = name ∧ timestamp e = now
            ∧ s'.2 !!! (imageData e) = σ !!! img).
Proof.
  intros Hci s'. subst s'. rewrite saveState_eq by done. cbv zeta.
  set (c := fresh (dom σ)).
  set (kept := take (Z.to_nat (currentIndex hm + 1)) (history hm)).
  set (st := mkState c name now).
  assert (Hlen : length (kept ++ [st]) = S (length kept)).
  { rewrite length_app. simpl. lia. }
  assert (Hlast : ∀ i, i = Z.of_nat (length kept) →
                       js_index (kept ++ [st]) i = Some st).
  { intros i ->. unfold js_index.
    destruct (Z.ltb_spec (Z.of_nat (length kept)) 0); [lia|].
    rewrite Nat2Z.id. by rewrite lookup_app_r, Nat.sub_diag. }
  simpl. split.
  - unfold canRedo, len. simpl.
    destruct (Z.ltb_spec (maxHistorySize hm) (Z.of_nat (length (kept ++ [st]))));
      simpl; rewrite ?length_drop; apply Z.ltb_ge; lia.
  - intros HM.
    destruct (Z.ltb_spec (maxHistorySize hm)
                (Z.of_nat (length (kept ++ [st])))) as [Hfull|Hroom].
    + assert (Hcur : js_index (drop 1 (kept ++ [st]))
                       (Z.of_nat (length (kept ++ [st])) - 1 - 1) = Some st).
      { rewrite js_index_drop by lia. apply Hlast. lia. }
      split; [by rewrite (getCurrentActionName_index _ st)|].
      exists st. split; [exact Hcur|]. split; [done|]. split; [done|].
      simpl. apply lookup_total_insert_eq.
    + assert (Hcur : js_index (kept ++ [st])
                       (Z.of_nat (length (kept ++ [st])) - 1) = Some st).
      { apply Hlast. lia. }
      split; [by rewrite (getCurrentActionName_index _ st)|].
      exists st. split; [exact Hcur|]. split; [done|]. split; [done|].
      simpl. apply lookup_total_insert_eq.
Qed.

Lemma saveState_current_witness :
  let s' := saveState 0 "Reset to Original" 300 two_entries two_objects in
  canRedo s'.1 = false
  ∧ getCurrentActionName s'.1 = Some "Reset to Original"
  ∧ ∃ e, js_index (history s'.1) (currentIndex s'.1) = Some e
         ∧ actionName e = "Reset to Original" ∧ timestamp e = 300%Z
         ∧ s'.2 !!! (imageData e) = two_objects !!! 0.
Proof.
  destruct (saveState_current 0 "Reset to Original" 300 two_entries
              two_objects) as [Hredo Hcur].
  - simpl. lia.
  - split; [exact Hredo|]. apply Hcur. simpl. lia.
Defined.

(** X9. In a state of the stack where [undo()] is possible,
    [getPreviousActionName()] is the label of the entry the undo makes
    current; after the undo [getCurrentActionName()] returns that label,
    [getNextActionName()] the label that was current, and [canRedo()] is
    true. *)
Theorem undo_labels (hm : HistoryManager) (σ : objects) :
  wf hm → canUndo hm = true →
  ∃ previous current,
    getPreviousActionName hm = Returns (Some previous)
    ∧ getCurrentActionName hm = Some current
    ∧ getCurrentActionName (undo hm σ).1.2 = Some previous
    ∧ getNextActionName (undo hm σ).1.2 = Returns (Some current)
    ∧ canRedo (undo hm σ).1.2 = true.
Proof.
  intros [Hlo Hhi] Hcan. unfold len in Hhi.
  pose proof Hcan as Hpos. unfold canUndo in Hpos. apply Z.ltb_lt in Hpos.
  destruct (js_index_Some (history hm) (currentIndex hm)) as [cur Hcur];
    [lia|].
  destruct (js_index_Some (history hm) (currentIndex hm - 1)) as [prev Hprev];
    [lia|].
  exists (actionName prev), (actionName cur).
  split; [unfold getPreviousActionName; by rewrite Hcan, Hprev|].
  split; [by apply getCurrentActionName_index|].
  unfold undo. rewrite Hcan. simpl. rewrite Hprev. simpl.
  split; [by apply getCurrentActionName_index|].
  assert (Hredo : canRedo
            {| history := history hm; currentIndex := currentIndex hm - 1;
               maxHistorySize := maxHistorySize hm |} = true).
  { unfold canRedo, len. simpl. apply Z.ltb_lt. lia. }
  split; [|done].
  unfold getNextActionName. rewrite Hredo. simpl.
  replace (currentIndex hm - 1 + 1)%Z with (currentIndex hm) by lia.
  by rewrite Hcur.
Qed.

Lemma undo_labels_witness :
  ∃ previous current,
    getPreviousActionName two_entries = Returns (Some previous)
    ∧ getCurrentActionName two_entries = Some current
    ∧ getCurrentActionName (undo two_entries two_objects).1.2 = Some previous
    ∧ getNextActionName (undo two_entries two_objects).1.2
      = Returns (Some current)
    ∧ canRedo (undo two_entries two_objects).1.2 = true.
Proof.
  apply (undo_labels two_entries two_objects).
  - unfold wf, len. simpl. lia.
  - reflexivity.
Defined.

(** X10. [optimize(keepCount)] with [keepCount >= 1] keeps the last
    [keepCount] entries (all of them when there are no more).  When the
    current entry is among them it stays the current entry; when it was
    dropped the oldest entry kept becomes current. *)
Theorem optimize_keeps_recent (keepCount : Z) (hm : HistoryManager) :
  wf hm → (0 ≤ currentIndex hm)%Z → (1 ≤ keepCount)%Z →
  let hm' := optimize keepCount hm in
  let dropped := length (history hm) - Z.to_nat keepCount in
  history hm' = drop dropped (history hm)
  ∧ maxHistorySize hm' = maxHistorySize hm
  ∧ (0 ≤ currentIndex hm' < len hm')%Z
  ∧ ((Z.of_nat dropped ≤ currentIndex hm)%Z →
     js_index (history hm') (currentIndex hm')
     = js_index (history hm) (currentIndex hm))
  ∧ ((currentIndex hm < Z.of_nat dropped)%Z → currentIndex hm' = 0%Z).
Proof.
  intros [Hlo Hhi] Hpos Hkeep hm' dropped. subst hm'. unfold optimize.
  unfold len in *.
  destruct (Z.ltb_spec keepCount (Z.of_nat (length (history hm))))
    as [Hmore|Hfew].
  - replace (Z.to_nat (Z.of_nat (length (history hm)) - keepCount))
      with dropped by (unfold dropped; lia).
    assert (Hd : Z.of_nat dropped
                 = (Z.of_nat (length (history hm)) - keepCount)%Z)
      by (unfold dropped; lia).
    rewrite <- Hd. simpl. rewrite length_drop.
    split; [done|]. split; [done|].
    destruct (Z.ltb_spec (currentIndex hm - Z.of_nat dropped) 0)
      as [Hgone|Hkept].
    + split; [lia|]. split; [lia|done].
    + split; [lia|]. split; [|lia]. intros _.
      rewrite js_index_drop by lia. f_equal. lia.
  - assert (dropped = 0) as -> by (unfold dropped; lia).
    rewrite drop_0. split; [done|]. split; [done|]. split; [lia|].
    split; [done|lia].
Qed.

Lemma optimize_keeps_recent_witness :
  let hm' := optimize 1 two_entries in
  history hm' = drop 1 (history two_entries)
  ∧ maxHistorySize hm' = 10%Z
  ∧ (0 ≤ currentIndex hm' < len hm')%Z
  ∧ js_index (history hm') (currentIndex hm')
    = js_index (history two_entries) 1.
Proof.
  destruct (optimize_keeps_recent 1 two_entries)
    as (Hh & HM & Hwf & Hcur & _).
  - unfold wf, len. simpl. lia.
  - simpl. lia.
  - lia.
  - split; [exact Hh|]. split; [exact HM|]. split; [exact Hwf|].
    apply Hcur. simpl. lia.
Defined.

(** X11. [optimize(keepCount)] with [keepCount <= 0] on a stack that
    holds entries drops them all and leaves [currentIndex] at 0, not at
    the -1 that [clear()] leaves; [canUndo()] and [canRedo()] are false
    and [getCurrentActionName()] is [null] in that state. *)
Theorem optimize_drops_all (keepCount : Z) (hm : HistoryManager) :
  (keepCount ≤ 0)%Z → history hm ≠ [] →
  (currentIndex hm < len hm)%Z →
  let hm' := optimize keepCount hm in
  history hm' = [] ∧ currentIndex hm' = 0%Z
  ∧ canUndo hm' = false ∧ canRedo hm' = false
  ∧ getCurrentActionName hm' = None.
Proof.
  intros Hkeep Hne Hhi hm'. subst hm'. unfold optimize, len in *.
  assert (0 < length (history hm)) by (destruct (history hm); [done|simpl; lia]).
  destruct (Z.ltb_spec keepCount (Z.of_nat (length (history hm)))); [|lia].
  destruct (Z.ltb_spec
              (currentIndex hm - (Z.of_nat (length (history hm)) - keepCount))
              0); [|lia].
  assert (Hnil : drop (Z.to_nat (Z.of_nat (length (history hm)) - keepCount))
                   (history hm) = []) by (apply drop_ge; lia).
  unfold canUndo, canRedo, getCurrentActionName, len. simpl. rewrite Hnil.
  done.
Qed.

Lemma optimize_drops_all_witness :
  let hm' := optimize 0 two_entries in
  history hm' = [] ∧ currentIndex hm' = 0%Z
  ∧ canUndo hm' = false ∧ canRedo hm' = false
  ∧ getCurrentActionName hm' = None.
Proof.
  apply (optimize_drops_all 0 two_entries).
  - lia.
  - discriminate.
  - unfold len. simpl. lia.
Defined.

(** X12. [undo()] and [redo()] never change the entries, the capacity or
    an object that exists; the raster they return is an object that did
    not exist before the call. *)
Theorem undo_redo_preserve (hm : HistoryManager) (σ : objects) :
  (history (undo hm σ).1.2 = history hm
   ∧ maxHistorySize (undo hm σ).1.2 = maxHistorySize hm
   ∧ σ ⊆ (undo hm σ).2
   ∧ ∀ r, (undo hm σ).1.1 = Returns (Some r) →
          (r ∉ dom σ) ∧ is_Some ((undo hm σ).2 !! r))
  ∧ (history (redo hm σ).1.2 = history hm
     ∧ maxHistorySize (redo hm σ).1.2 = maxHistorySize hm
     ∧ σ ⊆ (redo hm σ).2
     ∧ ∀ r, (redo hm σ).1.1 = Returns (Some r) →
            (r ∉ dom σ) ∧ is_Some ((redo hm σ).2 !! r)).
Proof.
  assert (Hfresh : ∀ v : Mosaic.ImageData, σ ⊆ <[fresh (dom σ) := v]> σ).
  { intros v. apply insert_subseteq, not_elem_of_dom, is_fresh. }
  split.
  - unfold undo. destruct (canUndo hm); simpl; [|by repeat split].
    destruct (js_index _ _) as [e|]; simpl; [|by repeat split].
    do 2 (split; [done|]). split; [apply Hfresh|].
    intros r [= <-]. split; [apply is_fresh|].
    rewrite lookup_insert_eq. by eexists.
  - unfold redo. destruct (canRedo hm); simpl; [|by repeat split].
    destruct (js_index _ _) as [e|]; simpl; [|by repeat split].
    do 2 (split; [done|]). split; [apply Hfresh|].
    intros r [= <-]. split; [apply is_fresh|].
    rewrite lookup_insert_eq. by eexists.
Qed.

(** *** What a push leaves, for the session *)

Lemma js_index_app_l {A : Type} (l k : list A) (i : Z) :
  (0 ≤ i < Z.of_nat (length l))%Z → js_index (l ++ k) i = js_index l i.
Proof.
  intros Hi. unfold js_index. destruct (Z.ltb_spec i 0); [lia|].
  apply lookup_app_l. lia.
Qed.

Lemma js_index_take {A : Type} (l : list A) (n : nat) (i : Z) :
  (0 ≤ i < Z.of_nat n)%Z → js_index (take n l) i = js_index l i.
Proof.
  intros Hi. unfold js_index. destruct (Z.ltb_spec i 0); [lia|].
  apply lookup_take_lt. lia.
Qed.

Lemma saveState_current_entry (img : ref) (name : string) (now : Z)
    (hm : HistoryManager) (σ : objects) :
  (-1 ≤ currentIndex hm < len hm)%Z → (1 ≤ maxHistorySize hm)%Z →
  let s' := saveState img name now hm σ in
  js_index (history s'.1) (currentIndex s'.1)
  = Some (mkState (fresh (dom σ)) name now)
  ∧ s'.2 = <[fresh (dom σ) := σ !!! img]> σ
  ∧ maxHistorySize s'.1 = maxHistorySize hm
  ∧ (0 ≤ currentIndex s'.1 < len s'.1)%Z.
Proof.
  intros [Hlo Hhi] HM s'. subst s'. rewrite saveState_eq by done. cbv zeta.
  set (kept := take (Z.to_nat (currentIndex hm + 1)) (history hm)).
  set (st := mkState (fresh (dom σ)) name now).
  assert (Hlen : length (kept ++ [st]) = S (length kept)).
  { rewrite length_app. simpl. lia. }
  assert (Hlast : ∀ i, i = Z.of_nat (length kept) →
                       js_index (kept ++ [st]) i = Some st).
  { intros i ->. unfold js_index.
    destruct (Z.ltb_spec (Z.of_nat (length kept)) 0); [lia|].
    rewrite Nat2Z.id. by rewrite lookup_app_r, Nat.sub_diag. }
  unfold len. simpl.
  destruct (Z.ltb_spec (maxHistorySize hm) (Z.of_nat (length (kept ++ [st]))))
    as [Hfull|Hroom].
  - rewrite js_index_drop by lia. rewrite length_drop.
    split; [apply Hlast; lia|]. split; [done|]. split; [done|lia].
  - split; [apply Hlast; lia|]. split; [done|]. split; [done|lia].
Qed.

Lemma saveState_previous_entry (img : ref) (name : string) (now : Z)
    (hm : HistoryManager) (σ : objects) (e : State) :
  (currentIndex hm < len hm)%Z → (2 ≤ maxHistorySize hm)%Z →
  js_index (history hm) (currentIndex hm) = Some e →
  let s' := saveState img name now hm σ in
  canUndo s'.1 = true
  ∧ js_index (history s'.1) (currentIndex s'.1 - 1) = Some e.
Proof.
  intros Hhi HM He s'. subst s'.
  pose proof (js_index_inv _ _ _ He) as Hrange. unfold len in Hhi.
  rewrite saveState_eq by lia. cbv zeta.
  set (kept := take (Z.to_nat (currentIndex hm + 1)) (history hm)).
  set (st := mkState (fresh (dom σ)) name now).
  assert (Hkept : length kept = Z.to_nat (currentIndex hm + 1)).
  { unfold kept. rewrite length_take. lia. }
  assert (Hlen : length (kept ++ [st]) = S (length kept)).
  { rewrite length_app. simpl. lia. }
  assert (Hprev : js_index (kept ++ [st]) (currentIndex hm) = Some e).
  { rewrite js_index_app_l by lia. unfold kept.
    by rewrite js_index_take by lia. }
  unfold canUndo. simpl.
  destruct (Z.ltb_spec (maxHistorySize hm) (Z.of_nat (length (kept ++ [st]))))
    as [Hfull|Hroom].
  - split; [apply Z.ltb_lt; lia|].
    rewrite js_index_drop by lia. rewrite <- Hprev. f_equal. lia.
  - split; [apply Z.ltb_lt; lia|].
    rewrite <- Hprev. f_equal. lia.
Qed.

Lemma saveState_Forall (P : State → Prop) (img : ref) (name : string)
    (now : Z) (hm : HistoryManager) (σ : objects) :
  (-1 ≤ currentIndex hm)%Z →
  Forall P (history hm) → P (mkState (fresh (dom σ)) name now) →
  Forall P (history (saveState img name now hm σ).1).
Proof.
  intros Hci Hall Hnew. rewrite saveState_eq by done. cbv zeta. simpl.
  assert (Forall P (take (Z.to_nat (currentIndex hm + 1)) (history hm)
                    ++ [mkState (fresh (dom σ)) name now])).
  { apply Forall_app. split; [by apply Forall_take|by apply Forall_singleton]. }
  destruct (_ <? _)%Z; [by apply Forall_drop|done].
Qed.

End HistoryMore.


(** ** More on the selection model *)

Module SelectionMore.
Import Selection SelectionFacts.

Section AnyNumber.
Context {num : Type} {Num : Number num}.

Lemma consistent_cleared (mode : string) (confirmed : bool) :
  (mode = "freehand" → confirmed = false) →
  consistent
    {| isSelecting := false; selectionMode := mode; selectionPath := [];
       rectangleSelection := None; isConfirmed := confirmed;
       startPoint := None; currentPoint := None |}.
Proof.
  intros Hfree. split; [done|]. split; [|split; [done|done]].
  simpl. intros Hmode Hconf. by rewrite (Hfree Hmode) in Hconf.
Qed.

Lemma consistent_clearSelection (reset : bool) (sm : SelectionManager num) :
  consistent (clearSelection reset sm).
Proof.
  unfold clearSelection. apply consistent_cleared.
  destruct reset; [done|]. by intros ->.
Qed.

Lemma consistent_setSelectionMode (mode : string) (sm : SelectionManager num) :
  consistent (setSelectionMode mode sm).
Proof.
  unfold setSelectionMode. simpl. apply consistent_cleared. by intros ->.
Qed.

Lemma consistent_handleMouseDown (e : MouseEvent num) (sm : SelectionManager num) :
  consistent sm → consistent (handleMouseDown e sm).
Proof.
  intros (Hpath & Hfree & Hrect & Hsel). unfold handleMouseDown.
  destruct (negb _); [done|].
  split; [|split; [done|split]]; simpl.
  - intros Hmode. destruct (String.eqb_spec (selectionMode sm) "freehand");
      [done|by apply Hpath].
  - exact Hrect.
  - intros _. split; [done|]. split; by eexists.
Qed.

Lemma consistent_handleMouseMove (e : MouseEvent num) (sm : SelectionManager num) :
  consistent sm → consistent (handleMouseMove e sm).
Proof.
  intros Hsm. pose proof Hsm as (Hpath & Hfree & Hrect & Hsel).
  unfold handleMouseMove.
  destruct (isSelecting sm) eqn:Hs; [|exact Hsm]. simpl.
  destruct (Hsel eq_refl) as (Hconf & Hstart & _).
  split; [|split; [|split]]; simpl.
  - intros Hmode. rewrite (Hpath Hmode).
    destruct (String.eqb_spec (selectionMode sm) "rectangle"); [done|].
    by destruct (String.eqb_spec (selectionMode sm) "freehand").
  - intros _ Hc. congruence.
  - exact Hrect.
  - intros _. split; [done|]. split; [done|by eexists].
Qed.

Lemma consistent_handleMouseUp (e : MouseEvent num) (sm : SelectionManager num) :
  consistent sm → consistent (handleMouseUp e sm).
Proof.
  intros Hsm. pose proof Hsm as (Hpath & Hfree & Hrect & Hsel).
  unfold handleMouseUp.
  destruct (negb (button e =? 0)%Z || negb (isSelecting sm)) eqn:Hgo;
    [done|].
  apply orb_false_elim in Hgo as [_ Hs]. apply negb_false_iff in Hs.
  destruct (Hsel Hs) as (Hconf & [s Hstart] & [c Hcur]).
  cbn -[drag_box num_lt num_of_Z clearSelection].
  destruct (String.eqb_spec (selectionMode sm) "rectangle") as [Hmode|Hmode].
  - unfold finalizeRectangleSelection. cbn -[drag_box num_lt num_of_Z clearSelection].
    rewrite Hstart, Hcur.
    destruct (num_lt (rect_width (drag_box s c)) (num_of_Z 5)) eqn:Hw;
      [apply consistent_clearSelection|].
    destruct (num_lt (rect_height (drag_box s c)) (num_of_Z 5)) eqn:Hh;
      [apply consistent_clearSelection|].
    cbn -[drag_box num_lt num_of_Z clearSelection].
    split; [|split; [|split]]; cbn -[drag_box num_lt num_of_Z clearSelection].
    + exact Hpath.
    + intros Hm. congruence.
    + by intros box [= <-].
    + done.
  - destruct (String.eqb_spec (selectionMode sm) "freehand") as [Hfh|Hfh].
    + unfold finalizeFreehandSelection. cbn [selectionPath].
      destruct (Nat.ltb_spec (length (selectionPath sm)) 10) as [Hshort|Hlong];
        [apply consistent_clearSelection|].
      destruct (selectionPath sm) as [|first rest] eqn:Hp;
        [simpl in Hlong; lia|].
      split; [|split; [|split]]; cbn -[drag_box num_lt num_of_Z clearSelection].
      * intros Hm. congruence.
      * intros _ _. split.
        -- rewrite length_app. simpl in *. lia.
        -- change (first :: rest ++ [first]) with ((first :: rest) ++ [first]).
           by rewrite last_snoc.
      * exact Hrect.
      * done.
    + split; [|split; [|split]]; cbn -[drag_box num_lt num_of_Z clearSelection]; try done.
Qed.

Lemma consistent_call (c : Call num) (sm : SelectionManager num) :
  consistent sm → consistent (call c sm).
Proof.
  intros Hsm. destruct c as [[e|e|e| |]|mode| |]; simpl.
  - by apply consistent_handleMouseDown.
  - by apply consistent_handleMouseMove.
  - by apply consistent_handleMouseUp.
  - unfold handleRightClick. destruct (_ && _); [|done].
    apply consistent_clearSelection.
  - apply consistent_clearSelection.
  - apply consistent_setSelectionMode.
  - apply consistent_clearSelection.
  - unfold clearSelectionKeepMode. apply consistent_cleared.
    by destruct (negb _).
Qed.

Lemma consistent_run_calls (cs : list (Call num)) :
  consistent (run_calls cs constructor).
Proof.
  induction cs as [|c cs IH] using rev_ind.
  - apply (consistent_cleared "rectangle" false). done.
  - unfold run_calls. rewrite foldl_snoc. by apply consistent_call.
Qed.

(** X13. While a drag is in progress, in any state the application
    reaches, the start and the current point are set, so that releasing the
    button never meets a missing point; the selection is not confirmed,
    [hasSelection()] is false and a right click changes nothing. *)
Theorem drag_in_progress (cs : list (Call num)) :
  let sm := run_calls cs constructor in
  isSelecting sm = true →
  is_Some (startPoint sm) ∧ is_Some (currentPoint sm)
  ∧ is_Some (finalizeRectangleSelection sm)
  ∧ isConfirmed sm = false ∧ hasSelection sm = false
  ∧ handleRightClick sm = sm.
Proof.
  intros sm Hs.
  destruct (consistent_run_calls cs) as (_ & _ & _ & Hsel).
  destruct (Hsel Hs) as (Hconf & [s Hstart] & [c Hcur]). fold sm in Hstart, Hcur, Hconf.
  assert (Hno : hasSelection sm = false).
  { destruct (hasSelection sm) eqn:Hh; [|done].
    apply hasSelection_confirmed in Hh. congruence. }
  split; [by eexists|]. split; [by eexists|]. split.
  - unfold finalizeRectangleSelection. rewrite Hstart, Hcur.
    destruct (_ || _); by eexists.
  - split; [done|]. split; [done|].
    unfold handleRightClick. by rewrite Hno.
Qed.

(** X14. Whenever [hasSelection()] is true in a state the application
    reaches, no drag is in progress; in rectangle mode the stored box
    passed the test of the code, so that neither [width < 5] nor
    [height < 5] holds of it (with exact numbers: it is at least 5 wide
    and 5 high), and in freehand mode the path has at least 11 points and
    ends on its first point. *)
Theorem selection_meets_thresholds (cs : list (Call num)) :
  let sm := run_calls cs constructor in
  hasSelection sm = true →
  isSelecting sm = false
  ∧ (selectionMode sm = "rectangle" →
     ∃ box, rectangleSelection sm = Some box
            ∧ num_lt (rect_width box) (num_of_Z 5) = false
            ∧ num_lt (rect_height box) (num_of_Z 5) = false)
  ∧ (selectionMode sm = "freehand" →
     11 ≤ length (selectionPath sm)
     ∧ head (selectionPath sm) = last (selectionPath sm)).
Proof.
  intros sm Hh.
  destruct (consistent_run_calls cs) as (_ & Hfree & Hrect & Hsel).
  fold sm in Hfree, Hrect, Hsel.
  pose proof (hasSelection_confirmed sm Hh) as Hconf.
  split; [|split].
  - destruct (isSelecting sm) eqn:Hs; [|done].
    destruct (Hsel eq_refl) as [Hc _]. congruence.
  - intros Hmode. unfold hasSelection in Hh. rewrite Hmode in Hh. simpl in Hh.
    destruct (rectangleSelection sm) as [box|] eqn:Hbox; [|done].
    exists box. split; [done|]. by apply Hrect.
  - intros Hmode. by apply Hfree.
Qed.

(** *** Whole gestures *)

Lemma last_cons_default {A : Type} (a d : A) (l : list A) :
  List.last (a :: l) d = List.last l a.
Proof.
  revert a d. induction l as [|b l IH]; intros a d; [done|].
  change (List.last (a :: b :: l) d) with (List.last (b :: l) d).
  by rewrite (IH b d), (IH b a).
Qed.

Lemma moves_rectangle (ps : list (Point num)) (path : list (Point num))
    (rect : option (Rectangle num)) (conf : bool) (start : option (Point num))
    (c0 : Point num) :
  foldl (λ sm p, handleMouseMove (mkMouseEvent 0 p) sm)
    {| isSelecting := true; selectionMode := "rectangle";
       selectionPath := path; rectangleSelection := rect;
       isConfirmed := conf; startPoint := start; currentPoint := Some c0 |}
    ps
  = {| isSelecting := true; selectionMode := "rectangle";
       selectionPath := path; rectangleSelection := rect;
       isConfirmed := conf; startPoint := start;
       currentPoint := Some (List.last ps c0) |}.
Proof.
  revert c0. induction ps as [|p ps IH]; intros c0; [done|].
  rewrite last_cons_default. cbn [foldl].
  exact (IH p).
Qed.

Lemma moves_freehand (ps : list (Point num)) (path : list (Point num))
    (rect : option (Rectangle num)) (conf : bool) (start : option (Point num))
    (c0 : Point num) :
  foldl (λ sm p, handleMouseMove (mkMouseEvent 0 p) sm)
    {| isSelecting := true; selectionMode := "freehand";
       selectionPath := path; rectangleSelection := rect;
       isConfirmed := conf; startPoint := start; currentPoint := Some c0 |}
    ps
  = {| isSelecting := true; selectionMode := "freehand";
       selectionPath := path ++ ps; rectangleSelection := rect;
       isConfirmed := conf; startPoint := start;
       currentPoint := Some (List.last ps c0) |}.
Proof.
  revert path c0. induction ps as [|p ps IH]; intros path c0.
  - by rewrite app_nil_r.
  - rewrite last_cons_default. cbn [foldl].
    rewrite (app_assoc path [p] ps : path ++ p :: ps = (path ++ [p]) ++ ps).
    exact (IH (path ++ [p]) p).
Qed.

Lemma gesture_rectangle_eq (sm : SelectionManager num) (S : Point num)
    (ps : list (Point num)) :
  selectionMode sm = "rectangle" →
  gesture S ps sm
  = if num_lt (rect_width (drag_box S (List.last ps S))) (num_of_Z 5)
       || num_lt (rect_height (drag_box S (List.last ps S))) (num_of_Z 5)
    then {| isSelecting := false; selectionMode := "rectangle";
            selectionPath := []; rectangleSelection := None;
            isConfirmed := false; startPoint := None;
            currentPoint := None |}
    else {| isSelecting := false; selectionMode := "rectangle";
            selectionPath := selectionPath sm;
            rectangleSelection := Some (drag_box S (List.last ps S));
            isConfirmed := true; startPoint := Some S;
            currentPoint := Some (List.last ps S) |}.
Proof.
  intros Hmode. unfold gesture, handleMouseDown.
  cbn -[drag_box num_lt num_of_Z handleMouseMove handleMouseUp].
  rewrite Hmode.
  change (String.eqb "rectangle" "freehand") with false.
  cbn -[drag_box num_lt num_of_Z handleMouseMove handleMouseUp].
  rewrite moves_rectangle.
  unfold handleMouseUp, finalizeRectangleSelection.
  cbn -[drag_box num_lt num_of_Z].
  by destruct (_ || _).
Qed.

(** X15. A whole gesture in rectangle mode (press at [S], any moves,
    release) confirms a selection exactly when the box spanned by [S] and
    the last point reached passes the test of the code: neither
    [Math.abs(E.x - S.x) < 5] nor [Math.abs(E.y - S.y) < 5] holds of the
    computed numbers.  The stored box is that box, whatever the points in
    between and whatever was selected before; when one of the two
    comparisons holds nothing is selected.  This holds whatever the
    arithmetic of the numbers, in particular for binary64 with its
    rounding. *)
Theorem rectangle_gesture (sm : SelectionManager num) (S : Point num)
    (ps : list (Point num)) :
  selectionMode sm = "rectangle" →
  let E := List.last ps S in
  let sm' := gesture S ps sm in
  isSelecting sm' = false ∧ selectionMode sm' = "rectangle"
  ∧ (num_lt (Math_abs (num_sub (x E) (x S))) (num_of_Z 5) = false
     ∧ num_lt (Math_abs (num_sub (y E) (y S))) (num_of_Z 5) = false →
     hasSelection sm' = true
     ∧ rectangleSelection sm' = Some (drag_box S E))
  ∧ (num_lt (Math_abs (num_sub (x E) (x S))) (num_of_Z 5) = true
     ∨ num_lt (Math_abs (num_sub (y E) (y S))) (num_of_Z 5) = true →
     hasSelection sm' = false ∧ rectangleSelection sm' = None).
Proof.
  intros Hmode E sm'. subst sm'. rewrite gesture_rectangle_eq by done.
  fold E.
  change (Math_abs (num_sub (x E) (x S))) with (rect_width (drag_box S E)).
  change (Math_abs (num_sub (y E) (y S))) with (rect_height (drag_box S E)).
  destruct (num_lt (rect_width (drag_box S E)) (num_of_Z 5)) eqn:Ew;
    destruct (num_lt (rect_height (drag_box S E)) (num_of_Z 5)) eqn:Eh.
  - split; [done|]. split; [done|]. split; [|done]. by intros [? _].
  - split; [done|]. split; [done|]. split; [|done]. by intros [? _].
  - split; [done|]. split; [done|]. split; [|done]. by intros [_ ?].
  - split; [done|]. split; [done|]. split; [done|]. by intros [?|?].
Qed.

Lemma gesture_freehand_eq (sm : SelectionManager num) (p0 : Point num)
    (ps : list (Point num)) :
  selectionMode sm = "freehand" →
  gesture p0 ps sm
  = if length (p0 :: ps) <? 10
    then {| isSelecting := false; selectionMode := "freehand";
            selectionPath := []; rectangleSelection := None;
            isConfirmed := false; startPoint := None;
            currentPoint := None |}
    else {| isSelecting := false; selectionMode := "freehand";
            selectionPath := (p0 :: ps) ++ [p0];
            rectangleSelection := rectangleSelection sm;
            isConfirmed := true; startPoint := Some p0;
            currentPoint := Some (List.last ps p0) |}.
Proof.
  intros Hmode. unfold gesture, handleMouseDown.
  cbn -[handleMouseMove handleMouseUp].
  rewrite Hmode.
  change (String.eqb "freehand" "freehand") with true.
  cbn -[handleMouseMove handleMouseUp].
  rewrite moves_freehand.
  unfold handleMouseUp, finalizeFreehandSelection.
  cbn -[Nat.ltb length].
  change (length ps <=? 8) with (length (p0 :: ps) <? 10).
  by destruct (length (p0 :: ps) <? 10).
Qed.

(** X16. A whole gesture in freehand mode (press at [p0], moves through
    [ps], release) confirms a selection exactly when at least 9 moves were
    recorded; the path is then the press point, the points of the moves in
    order and the press point again; with fewer moves nothing is selected
    and the path is empty. *)
Theorem freehand_gesture (sm : SelectionManager num) (p0 : Point num)
    (ps : list (Point num)) :
  selectionMode sm = "freehand" →
  let sm' := gesture p0 ps sm in
  isSelecting sm' = false ∧ selectionMode sm' = "freehand"
  ∧ (9 ≤ length ps →
     hasSelection sm' = true ∧ selectionPath sm' = p0 :: ps ++ [p0])
  ∧ (length ps < 9 → hasSelection sm' = false ∧ selectionPath sm' = []).
Proof.
  intros Hmode sm'. subst sm'. rewrite gesture_freehand_eq by done.
  destruct (Nat.ltb_spec (length (p0 :: ps)) 10) as [Hshort|Hlong];
    simpl in Hshort || simpl in Hlong.
  - split; [done|]. split; [done|]. split; [lia|done].
  - split; [done|]. split; [done|]. split; [done|lia].
Qed.

End AnyNumber.

(** *** The theorems at sample gestures, in binary64 *)

Lemma drag_in_progress_witness :
  let sm := run_calls [CallSetMode "freehand";
                       CallEvent (PointerDown (primary 1 3));
                       CallEvent (PointerMove (primary 2 3))] constructor in
  is_Some (startPoint sm) ∧ is_Some (currentPoint sm)
  ∧ is_Some (finalizeRectangleSelection sm)
  ∧ isConfirmed sm = false ∧ hasSelection sm = false
  ∧ handleRightClick sm = sm.
Proof.
  apply (drag_in_progress [CallSetMode "freehand";
                           CallEvent (PointerDown (primary 1 3));
                           CallEvent (PointerMove (primary 2 3))]).
  reflexivity.
Defined.

Lemma selection_meets_thresholds_witness :
  let sm := run_calls [CallEvent (PointerDown (primary 2 2));
                       CallEvent (PointerMove (primary 12 12));
                       CallEvent (PointerUp (primary 12 12))] constructor in
  isSelecting sm = false
  ∧ (selectionMode sm = "rectangle" →
     ∃ box, rectangleSelection sm = Some box
            ∧ num_lt (rect_width box) (num_of_Z 5) = false
            ∧ num_lt (rect_height box) (num_of_Z 5) = false)
  ∧ (selectionMode sm = "freehand" →
     11 ≤ length (selectionPath sm)
     ∧ head (selectionPath sm) = last (selectionPath sm)).
Proof.
  apply (selection_meets_thresholds
           [CallEvent (PointerDown (primary 2 2));
            CallEvent (PointerMove (primary 12 12));
            CallEvent (PointerUp (primary 12 12))]).
  reflexivity.
Defined.

(** A gesture from (2,2) to (12,12) is confirmed whatever lies between;
    so is the gesture between the points of [boundary_drag], whose width
    binary64 computes as exactly 5; a gesture 4.5 wide is not. *)
Lemma rectangle_gesture_witness :
  (hasSelection (gesture (pt 2 2) [pt 7 3; pt 12 12] rectangle_confirmed)
   = true
   ∧ rectangleSelection (gesture (pt 2 2) [pt 7 3; pt 12 12]
                           rectangle_confirmed)
     = Some (drag_box (pt 2 2) (pt 12 12)))
  ∧ (hasSelection (gesture boundary_start [boundary_end] constructor) = true
     ∧ rectangleSelection (gesture boundary_start [boundary_end] constructor)
       = Some (drag_box boundary_start boundary_end))
  ∧ (hasSelection (gesture (pt 2 2) [pt 6.5 12] rectangle_confirmed) = false
     ∧ rectangleSelection (gesture (pt 2 2) [pt 6.5 12] rectangle_confirmed)
       = None).
Proof.
  split; [|split].
  - destruct (rectangle_gesture rectangle_confirmed (pt 2 2)
                [pt 7 3; pt 12 12] eq_refl) as (_ & _ & Hbig & _).
    apply Hbig. split; reflexivity.
  - destruct (rectangle_gesture constructor boundary_start [boundary_end]
                eq_refl) as (_ & _ & Hbig & _).
    apply Hbig. split; reflexivity.
  - destruct (rectangle_gesture rectangle_confirmed (pt 2 2) [pt 6.5 12]
                eq_refl) as (_ & _ & _ & Hsmall).
    apply Hsmall. left. reflexivity.
Defined.

Lemma freehand_gesture_witness :
  hasSelection
    (gesture (pt 1 3)
       ((λ px, pt px 3) <$> [2; 3; 4; 5; 6; 7; 8; 9; 10]%float)
       (setSelectionMode "freehand" constructor)) = true
  ∧ hasSelection
      (gesture (pt 1 3)
         ((λ px, pt px 3) <$> [2; 3; 4; 5; 6; 7; 8; 9]%float)
         (setSelectionMode "freehand" constructor)) = false.
Proof.
  destruct (freehand_gesture (setSelectionMode "freehand" constructor)
              (pt 1 3)
              ((λ px, pt px 3) <$> [2; 3; 4; 5; 6; 7; 8; 9; 10]%float)
              eq_refl)
    as (_ & _ & Hlong & _).
  destruct (freehand_gesture (setSelectionMode "freehand" constructor)
              (pt 1 3)
              ((λ px, pt px 3) <$> [2; 3; 4; 5; 6; 7; 8; 9]%float) eq_refl)
    as (_ & _ & _ & Hshort).
  split.
  - apply Hlong. simpl. lia.
  - apply Hshort. simpl. lia.
Defined.

(** *** Pointer coordinates, in exact arithmetic *)







End SelectionMore.

(** ** More on the edit session *)

Module AppMore.
Import Mosaic App MosaicFacts MosaicMore HistoryFacts HistoryMore.

Lemma index_decode (cw x y c : nat) :
  x < cw → c < 4 →
  ((y * cw + x) * 4 + c) mod 4 = c
  ∧ (((y * cw + x) * 4 + c) / 4) mod cw = x
  ∧ ((y * cw + x) * 4 + c) / 4 / cw = y.
Proof.
  intros Hx Hc.
  assert (Hq : ((y * cw + x) * 4 + c) / 4 = y * cw + x).
  { symmetry. apply (Nat.div_unique _ 4 _ c); lia. }
  rewrite Hq. split; [|split].
  - symmetry. apply (Nat.mod_unique _ 4 (y * cw + x) c); lia.
  - symmetry. apply (Nat.mod_unique _ cw y x); lia.
  - symmetry. apply (Nat.div_unique _ cw y x); lia.
Qed.

(** *** The canvas store *)

Lemma clamp8_idem (v : Z) : clamp8 (clamp8 v) = clamp8 v.
Proof. unfold clamp8. lia. Qed.

Lemma canvas_channel_clamp (c : nat) (v a : Z) :
  canvas_channel c (clamp8 v) (clamp8 a) = canvas_channel c v a.
Proof. unfold canvas_channel. by rewrite !clamp8_idem. Qed.

(** What the canvas returns is a byte. *)
Lemma canvas_channel_byte (c : nat) (v a : Z) :
  is_byte (canvas_channel c v a).
Proof.
  unfold canvas_channel, unpremultiply.
  destruct (c <? 3); [|apply is_byte_clamp8].
  destruct (clamp8 a =? 0)%Z; [unfold is_byte; lia|apply is_byte_clamp8].
Qed.

(** An opaque pixel comes back as it was written. *)
Lemma canvas_channel_opaque (c : nat) (v : Z) :
  is_byte v → canvas_channel c v 255 = v.
Proof.
  intros Hv. unfold canvas_channel, unpremultiply, premultiply.
  rewrite (clamp8_byte v Hv).
  change (clamp8 255) with 255%Z. change (255 =? 0)%Z with false.
  destruct (c <? 3); [|done].
  rewrite !Math_round_div_exact by lia. by apply clamp8_byte.
Qed.

Lemma elem_of_byte_values (v : Z) : is_byte v → v ∈ byte_values.
Proof.
  intros [Hlo Hhi]. unfold byte_values. apply list_elem_of_fmap.
  exists (Z.to_nat v). split; [lia|]. apply elem_of_seq. lia.
Qed.

Lemma read_back_twice_bytes :
  forallb (λ a, forallb (λ v, read_back_twice 0 v a && read_back_twice 3 v a)
                  byte_values) byte_values = true.
Proof. vm_compute. reflexivity. Qed.

(** A pixel that was read back is written and read back unchanged. *)
Lemma canvas_channel_idem (c : nat) (v a : Z) :
  canvas_channel c (canvas_channel c v a) (clamp8 a) = canvas_channel c v a.
Proof.
  rewrite <- (canvas_channel_clamp c v a).
  rewrite <- (canvas_channel_clamp c (canvas_channel _ _ _) (clamp8 a)).
  rewrite !clamp8_idem.
  rewrite (clamp8_byte (canvas_channel _ _ _)) by apply canvas_channel_byte.
  pose proof read_back_twice_bytes as Hall.
  rewrite forallb_forall in Hall.
  specialize (Hall (clamp8 a)).
  rewrite forallb_forall in Hall.
  assert (Hin : ∀ z, is_byte z → In z byte_values).
  { intros z Hz. apply list_elem_of_In. by apply elem_of_byte_values. }
  specialize (Hall (Hin _ (is_byte_clamp8 a)) (clamp8 v)
                (Hin _ (is_byte_clamp8 v))).
  apply andb_prop in Hall as [H0 H3]. unfold read_back_twice in H0, H3.
  apply Z.eqb_eq in H0, H3.
  unfold canvas_channel in *. by destruct (c <? 3).
Qed.

(** A translucent pixel does not come back as written: with alpha 64 the
    colour (105, 60, 41) is read back as (104, 60, 40). *)
Lemma canvas_channel_translucent :
  canvas_channel 0 105 64 = 104%Z ∧ canvas_channel 1 60 64 = 60%Z
  ∧ canvas_channel 2 41 64 = 40%Z ∧ canvas_channel 3 64 64 = 64%Z.
Proof. repeat split. Qed.

(** [putImageData], pixel by pixel. *)
Lemma chan_putImageData (img cv : ImageData) (x y c : nat) :
  x < width cv → y < height cv → c < 4 →
  chan (data (putImageData img cv)) (width cv) x y c
  = if (x <? width img) && (y <? height img)
    then canvas_channel c (chan (data img) (width img) x y c)
           (chan (data img) (width img) x y 3)
    else chan (data cv) (width cv) x y c.
Proof.
  intros Hx Hy Hc. unfold putImageData, chan, load at 1. cbn [data].
  pose proof (index_lt (width cv) (height cv) x y c Hx Hy Hc) as Hi.
  destruct (index_decode (width cv) x y c Hx Hc) as (Hc' & Hx' & Hy').
  erewrite list_lookup_total_correct.
  2: { rewrite list_lookup_fmap, lookup_seq_lt by done. reflexivity. }
  cbv zeta. rewrite !(Nat.add_0_l ((y * width cv + x) * 4 + c)).
  by rewrite Hc', Hx', Hy'.
Qed.

Lemma length_putImageData (img cv : ImageData) :
  length (data (putImageData img cv)) = width cv * height cv * 4.
Proof. unfold putImageData. cbn [data]. by rewrite length_fmap, length_seq. Qed.

(** Two images of one size with the same channels are the same image. *)
Lemma image_ext (a b : ImageData) :
  width a = width b → height a = height b →
  length (data a) = width b * height b * 4 →
  length (data b) = width b * height b * 4 →
  (∀ x y c, x < width b → y < height b → c < 4 →
     chan (data a) (width a) x y c = chan (data b) (width b) x y c) →
  a = b.
Proof.
  destruct a as [d1 w1 h1], b as [d2 w2 h2]. cbn [data width height].
  intros -> -> H1 H2 Hchan. f_equal. by apply (buffer_ext _ _ w2 h2).
Qed.

(** On a canvas of the size of the image only the size of the canvas
    matters. *)
Lemma putImageData_same_size (img cv : ImageData) :
  width img = width cv → height img = height cv →
  putImageData img cv = putImageData img img.
Proof.
  intros Hw Hh. apply image_ext.
  - by symmetry.
  - by symmetry.
  - rewrite length_putImageData.
    change (width (putImageData img img)) with (width img).
    change (height (putImageData img img)) with (height img).
    by rewrite Hw, Hh.
  - exact (length_putImageData img img).
  - intros x y c Hx Hy Hc.
    change (width (putImageData img img)) with (width img) in *.
    change (height (putImageData img img)) with (height img) in *.
    change (width (putImageData img cv)) with (width cv).
    rewrite (chan_putImageData img img x y c Hx Hy Hc).
    rewrite (chan_putImageData img cv x y c) by (rewrite <- ?Hw, <- ?Hh; done).
    apply Nat.ltb_lt in Hx as ->. by apply Nat.ltb_lt in Hy as ->.
Qed.

(** An image that fits the canvas replaces the canvas content. *)
Lemma putImageData_fits (img cv : ImageData) :
  fits img cv → putImageData img cv = img.
Proof.
  intros (Hw & Hh & _ & Hstable).
  by rewrite (putImageData_same_size img cv Hw Hh).
Qed.

(** What was put on a canvas of its size is given back as written, and
    fits the canvas. *)
Lemma putImageData_stable (img cv : ImageData) :
  width img = width cv → height img = height cv →
  stable (putImageData img cv).
Proof.
  intros Hw Hh. unfold stable.
  set (out := putImageData img cv).
  assert (Hout : ∀ x y c, x < width cv → y < height cv → c < 4 →
            chan (data out) (width out) x y c
            = canvas_channel c (chan (data img) (width img) x y c)
                (chan (data img) (width img) x y 3)).
  { intros x y c Hx Hy Hc. unfold out.
    change (width (putImageData img cv)) with (width cv).
    rewrite (chan_putImageData img cv x y c Hx Hy Hc). rewrite Hw, Hh.
    apply Nat.ltb_lt in Hx as ->. by apply Nat.ltb_lt in Hy as ->. }
  apply image_ext; try done.
  - exact (length_putImageData out out).
  - exact (length_putImageData img cv).
  - intros x y c Hx Hy Hc.
    change (width (putImageData out out)) with (width out).
    rewrite (chan_putImageData out out x y c Hx Hy Hc).
    apply Nat.ltb_lt in Hx as Hxb. apply Nat.ltb_lt in Hy as Hyb.
    rewrite Hxb, Hyb. cbn [andb].
    rewrite (Hout x y c Hx Hy Hc), (Hout x y 3 Hx Hy) by lia.
    change (canvas_channel 3 ?v ?a) with (clamp8 v).
    apply canvas_channel_idem.
Qed.

Lemma putImageData_fits_canvas (img cv : ImageData) :
  width img = width cv → height img = height cv →
  fits (putImageData img cv) cv.
Proof.
  intros Hw Hh. split; [done|]. split; [done|].
  split; [exact (length_putImageData img cv)|by apply putImageData_stable].
Qed.

(** An image that the canvas gives back as written is made of bytes. *)
Lemma stable_raster (img : ImageData) : stable img → raster img.
Proof.
  intros Hstable. unfold stable in Hstable.
  assert (Hlen : length (data img) = width img * height img * 4).
  { rewrite <- Hstable at 1. apply length_putImageData. }
  split; [done|].
  apply (Forall_is_byte_chan _ (width img) (height img) Hlen).
  intros x y c Hx Hy Hc. rewrite <- Hstable at 1.
  rewrite (chan_putImageData img img x y c Hx Hy Hc).
  apply Nat.ltb_lt in Hx as ->. apply Nat.ltb_lt in Hy as ->.
  apply canvas_channel_byte.
Qed.

(** An opaque raster is given back as written. *)
Lemma opaque_stable (img : ImageData) : raster img → opaque img → stable img.
Proof.
  intros [Hlen Hbytes] Hopaque. unfold stable.
  apply image_ext; try done.
  - exact (length_putImageData img img).
  - intros x y c Hx Hy Hc.
    change (width (putImageData img img)) with (width img).
    rewrite (chan_putImageData img img x y c Hx Hy Hc).
    apply Nat.ltb_lt in Hx as Hxb. apply Nat.ltb_lt in Hy as Hyb.
    rewrite Hxb, Hyb. cbn [andb].
    rewrite (Hopaque x y Hx Hy).
    apply canvas_channel_opaque. unfold chan. by apply is_byte_load.
Qed.

(** Both engines keep a raster a raster and an opaque image opaque. *)
Lemma engine_raster_opaque (img : ImageData) (mask : option ImageData)
    (bs : nat) :
  1 ≤ bs → length (data img) = width img * height img * 4 →
  ∃ out,
    match mask with
    | Some m => _processMosaicWithMask img bs m
    | None => _processMosaic img bs
    end = Some out
    ∧ width out = width img ∧ height out = height img
    ∧ length (data out) = width img * height img * 4
    ∧ (raster img → raster out)
    ∧ (opaque img → opaque out).
Proof.
  destruct img as [d0 w h]. cbn [data width height]. intros Hbs Hlen.
  destruct mask as [[m mw mh]|].
  - destruct (processMosaicWithMask_chan d0 m w h mw mh bs Hbs Hlen)
      as (d' & -> & Hlen' & Hchan).
    eexists. split; [done|]. do 3 (split; [done|]). split.
    + intros [_ Hbytes]. split; [done|]. cbn [data width height] in *.
      apply (Forall_is_byte_chan d' w h Hlen').
      intros x y c Hx Hy Hc. rewrite Hchan by done.
      destruct (_ && _); [apply is_byte_clamp8|by apply is_byte_load].
    + intros Hopaque x y Hx Hy. cbn [data width height] in *.
      rewrite Hchan by (done || lia). rewrite andb_false_r.
      by apply Hopaque.
  - destruct (processMosaic_chan d0 w h bs Hbs Hlen)
      as (d' & -> & Hlen' & Hchan).
    eexists. split; [done|]. do 3 (split; [done|]). split.
    + intros [_ Hbytes]. split; [done|]. cbn [data width height] in *.
      apply (Forall_is_byte_chan d' w h Hlen').
      intros x y c Hx Hy Hc. rewrite Hchan by done.
      destruct (c <? 3); [apply is_byte_clamp8|by apply is_byte_load].
    + intros Hopaque x y Hx Hy. cbn [data width height] in *.
      rewrite Hchan by (done || lia). by apply Hopaque.
Qed.

(** What the canvas reads after a raster of its size was written: every
    alpha is the one written, and a pixel written with alpha 255 reads as
    it was written. *)
Lemma putImageData_pixels (img cv : ImageData) (x y : nat) :
  width img = width cv → height img = height cv → raster img →
  x < width cv → y < height cv →
  chan (data (putImageData img cv)) (width cv) x y 3
  = chan (data img) (width cv) x y 3
  ∧ (chan (data img) (width cv) x y 3 = 255%Z →
     ∀ c, c < 3 →
       chan (data (putImageData img cv)) (width cv) x y c
       = chan (data img) (width cv) x y c).
Proof.
  intros Hw Hh [_ Hbytes] Hx Hy.
  assert (Hput : ∀ c, c < 4 →
            chan (data (putImageData img cv)) (width cv) x y c
            = canvas_channel c (chan (data img) (width cv) x y c)
                (chan (data img) (width cv) x y 3)).
  { intros c Hc. rewrite (chan_putImageData img cv x y c Hx Hy Hc).
    rewrite Hw, Hh.
    apply Nat.ltb_lt in Hx as ->. by apply Nat.ltb_lt in Hy as ->. }
  assert (Hbyte : ∀ c, is_byte (chan (data img) (width cv) x y c)).
  { intros c. unfold chan. by apply is_byte_load. }
  split.
  - rewrite Hput by lia. change (canvas_channel 3 ?v ?a) with (clamp8 v).
    by apply clamp8_byte.
  - intros Ha c Hc. rewrite Hput by lia. rewrite Ha.
    by apply canvas_channel_opaque.
Qed.

(** X18. [updateProcessButton] enables the button exactly when an image is
    loaded and either the mode is full or [hasSelection()] is true; in full
    mode the button is enabled even when the confirmed flag is reset. *)
Theorem updateProcessButton_enabled (app : MosaicApp) :
  updateProcessButton app = false
  ↔ hasImage (imageProcessor app) = true
    ∧ (Selection.selectionMode (selectionManager app) = "full"
       ∨ Selection.hasSelection (selectionManager app) = true).
Proof.
  unfold updateProcessButton.
  destruct (hasImage (imageProcessor app)); simpl; [|by split; [|intros []]].
  set (sm := selectionManager app).
  unfold Selection.hasSelection, Selection.isSelectionConfirmed.
  destruct (String.eqb_spec (Selection.selectionMode sm) "full") as [Hf|Hf].
  { split; [by split; [|left]|done]. }
  destruct (String.eqb_spec (Selection.selectionMode sm) "rectangle") as [Hr|Hr].
  { destruct (bool_decide _), (Selection.isConfirmed sm); simpl;
      (split; [intros ?|intros [_ [?|?]]]); try done; split; try done;
      by right. }
  destruct (String.eqb_spec (Selection.selectionMode sm) "freehand") as [Hp|Hp].
  { destruct (0 <? _), (Selection.isConfirmed sm); simpl;
      (split; [intros ?|intros [_ [?|?]]]); try done; split; try done;
      by right. }
  simpl. split; [done|]. by intros [_ [?|?]].
Qed.



Lemma two_pixels_opaque : opaque two_pixels.
Proof.
  intros x y Hx Hy. simpl in Hx, Hy.
  assert (y = 0) as -> by lia.
  destruct x as [|[|x]]; [reflexivity|reflexivity|lia].
Qed.


(** *** The session and its history *)

Lemma fits_same_size (img cv cv' : ImageData) :
  width cv' = width cv → height cv' = height cv →
  fits img cv → fits img cv'.
Proof. unfold fits. intros -> ->. done. Qed.

Lemma hasImage_sound (app : MosaicApp) :
  sound app → hasImage (imageProcessor app) = true.
Proof.
  intros (_ & (o & Ho & _) & _). unfold hasImage. rewrite Ho.
  by apply bool_decide_eq_true_2.
Qed.

Lemma sound_entry (app : MosaicApp) (i : Z) (e : History.State) :
  sound app →
  js_index (History.history (historyManager app)) i = Some e →
  ∃ img, heap app !! History.imageData e = Some img
         ∧ heap app !!! (History.imageData e) = img
         ∧ fits img (canvas (imageProcessor app)).
Proof.
  intros (_ & _ & _ & _ & Hall) He. apply js_index_elem_of in He.
  rewrite Forall_forall in Hall. destruct (Hall e He) as (img & Himg & Hfit).
  exists img. split; [done|]. split; [|done].
  by rewrite lookup_total_alt, Himg.
Qed.

(** Good order and agreement of canvas and history only look at the image
    processor, the history and the objects. *)
Lemma sound_fields (app app' : MosaicApp) :
  imageProcessor app' = imageProcessor app →
  historyManager app' = historyManager app →
  heap app' = heap app →
  sound app → sound app'.
Proof. unfold sound. by intros -> -> ->. Qed.

Lemma synced_fields (app app' : MosaicApp) :
  imageProcessor app' = imageProcessor app →
  historyManager app' = historyManager app →
  heap app' = heap app →
  synced app → synced app'.
Proof. unfold synced, sound. by intros -> -> ->. Qed.

(** Changing the canvas for one of the same size keeps the session in good
    order. *)
Lemma sound_canvas (app : MosaicApp) (cv' : ImageData)
    (sm' : Selection.SelectionManager float) (busy : bool) (err : option string) :
  sound app → fits cv' (canvas (imageProcessor app)) →
  sound {| imageProcessor :=
             {| canvas := cv';
                originalImageData := originalImageData (imageProcessor app) |};
           selectionManager := sm';
           historyManager := historyManager app;
           isProcessing := busy;
           error := err;
           heap := heap app |}.
Proof.
  intros (Hcv & (o & Ho & Hofit) & Hwf & HM & Hall) (Hw & Hh & Hlen).
  unfold sound. cbn [imageProcessor canvas originalImageData historyManager heap].
  split; [done|]. split.
  { exists o. split; [done|]. by apply (fits_same_size _ _ cv') in Hofit. }
  split; [done|]. split; [done|].
  eapply Forall_impl; [exact Hall|]. intros e (img & Himg & Hfit).
  exists img. split; [done|]. by apply (fits_same_size _ _ cv') in Hfit.
Qed.

(** [saveCurrentState] in a session in good order: the canvas becomes the
    current entry. *)
Lemma saveCurrentState_synced (name : string) (now : Z) (app : MosaicApp) :
  sound app →
  let app' := saveCurrentState name now app in
  synced app'
  ∧ imageProcessor app' = imageProcessor app
  ∧ selectionManager app' = selectionManager app
  ∧ isProcessing app' = isProcessing app
  ∧ error app' = error app
  ∧ heap app ⊆ heap app'
  ∧ History.getCurrentActionName (historyManager app') = Some name
  ∧ History.maxHistorySize (historyManager app')
    = History.maxHistorySize (historyManager app)
  ∧ ∀ e, (2 ≤ History.maxHistorySize (historyManager app))%Z →
         js_index (History.history (historyManager app))
           (History.currentIndex (historyManager app)) = Some e →
         History.canUndo (historyManager app') = true
         ∧ js_index (History.history (historyManager app'))
             (History.currentIndex (historyManager app') - 1) = Some e.
Proof.
  intros Hsound app'. subst app'. unfold saveCurrentState.
  rewrite (hasImage_sound app Hsound).
  pose proof Hsound as (Hcv & Horig & Hwf & HM & Hall).
  cbv zeta in Hcv, Horig, Hwf, HM, Hall.
  set (cv := canvas (imageProcessor app)) in *.
  set (hm := historyManager app) in *.
  unfold alloc.
  set (l := fresh (dom (heap app))).
  set (σ1 := <[l := cv]> (heap app)).
  assert (Hsub1 : heap app ⊆ σ1).
  { apply insert_subseteq, not_elem_of_dom, is_fresh. }
  destruct (saveState_current_entry l name now hm σ1 Hwf HM)
    as (Hcur & Hheap & HMeq & Hwf').
  pose proof (saveState_previous_entry l name now hm σ1) as Hprev.
  pose proof (saveState_Forall
                (λ e, ∃ img, <[fresh (dom σ1) := cv]> σ1
                               !! History.imageData e = Some img
                             ∧ fits img cv)
                l name now hm σ1) as Hall'.
  assert (Hl : σ1 !!! l = cv) by apply lookup_total_insert_eq.
  rewrite Hl in Hheap.
  assert (Hsub2 : σ1 ⊆ <[fresh (dom σ1) := cv]> σ1).
  { apply insert_subseteq, not_elem_of_dom, is_fresh. }
  destruct (History.saveState l name now hm σ1) as [hm' σ2] eqn:Hsave.
  simpl in Hcur, Hheap, HMeq, Hwf', Hprev, Hall'. subst σ2.
  cbn [imageProcessor selectionManager historyManager isProcessing error heap].
  assert (Hsound' : sound
            {| imageProcessor := imageProcessor app;
               selectionManager := selectionManager app;
               historyManager := hm';
               isProcessing := isProcessing app;
               error := error app;
               heap := <[fresh (dom σ1) := cv]> σ1 |}).
  { unfold sound.
    cbn [imageProcessor selectionManager historyManager heap].
    split; [done|]. split; [done|]. split; [lia|]. split; [lia|].
    apply Hall'; [lia| |].
    - eapply Forall_impl; [exact Hall|]. intros e (img & Himg & Hfit).
      exists img. split; [|done].
      apply (lookup_weaken σ1); [|done]. by apply (lookup_weaken (heap app)).
    - exists cv. split; [|done]. simpl. apply lookup_insert_eq. }
  split.
  { split; [done|]. eexists. split; [exact Hcur|].
    cbn [heap History.imageData imageProcessor]. apply lookup_total_insert_eq. }
  do 4 (split; [done|]).
  split; [by etrans|].
  split; [by rewrite (getCurrentActionName_index _ _ Hcur)|].
  split; [done|].
  intros e HM2 He. apply Hprev; [lia|done|done].
Qed.

Lemma applyMosaic_done (blockSize : nat) (selectionMask : option ImageData)
    (ip : ImageProcessor) (original : ImageData) :
  originalImageData ip = Some original → 1 ≤ blockSize →
  fits (canvas ip) (canvas ip) →
  ∃ result,
    match selectionMask with
    | Some mask => _processMosaicWithMask (canvas ip) blockSize mask
    | None => _processMosaic (canvas ip) blockSize
    end = Some result
    ∧ applyMosaic blockSize selectionMask true ip
      = Done (true, {| canvas := putImageData result (canvas ip);
                       originalImageData := originalImageData ip |})
    ∧ fits (putImageData result (canvas ip)) (canvas ip)
    ∧ (opaque (canvas ip) → putImageData result (canvas ip) = result).
Proof.
  intros Ho Hbs (_ & _ & Hlen & Hstable).
  destruct (engine_raster_opaque (canvas ip) selectionMask blockSize Hbs Hlen)
    as (result & Hengine & Hw & Hh & Hlen' & Hraster & Hopaque).
  exists result. split; [done|]. split.
  { unfold applyMosaic. rewrite Ho.
    replace (mkImageData (data (canvas ip)) (width (canvas ip))
               (height (canvas ip)))
      with (canvas ip) by by destruct (canvas ip).
    destruct selectionMask; by rewrite Hengine. }
  split; [by apply putImageData_fits_canvas|].
  intros Ho'. apply putImageData_fits.
  split; [done|]. split; [done|]. split; [congruence|].
  apply opaque_stable; [|by apply Hopaque].
  by apply Hraster, stable_raster.
Qed.

Section Session.
Variable createSelectionMask :
  Selection.SelectionManager float → nat → nat → ImageData.

(** The mask [processImage] hands to the engine. *)
Let mask_of (app : MosaicApp) : option ImageData :=
  if Selection.hasSelection (selectionManager app)
     && negb (String.eqb (Selection.selectionMode (selectionManager app))
                "full")
  then Some (createSelectionMask (selectionManager app)
               (width (canvas (imageProcessor app)))
               (height (canvas (imageProcessor app))))
  else None.

Lemma processImage_synced (blockSize : nat) (now : Z) (app : MosaicApp) :
  sound app → isProcessing app = false → 1 ≤ blockSize →
  ∃ app',
    processImage createSelectionMask blockSize now app = Done app'
    ∧ synced app'
    ∧ fits (canvas (imageProcessor app')) (canvas (imageProcessor app))
    ∧ (∃ result,
         match mask_of app with
         | Some mask =>
             _processMosaicWithMask (canvas (imageProcessor app)) blockSize
               mask
         | None => _processMosaic (canvas (imageProcessor app)) blockSize
         end = Some result
         ∧ canvas (imageProcessor app')
           = putImageData result (canvas (imageProcessor app))
         ∧ (opaque (canvas (imageProcessor app)) →
            canvas (imageProcessor app') = result))
    ∧ originalImageData (imageProcessor app')
      = originalImageData (imageProcessor app)
    ∧ selectionManager app'
      = Selection.clearSelectionKeepMode (selectionManager app)
    ∧ isProcessing app' = false
    ∧ error app' = error app
    ∧ heap app ⊆ heap app'
    ∧ History.getCurrentActionName (historyManager app')
      = Some "Mosaic Applied"
    ∧ History.maxHistorySize (historyManager app')
      = History.maxHistorySize (historyManager app)
    ∧ ∀ e, (2 ≤ History.maxHistorySize (historyManager app))%Z →
           js_index (History.history (historyManager app))
             (History.currentIndex (historyManager app)) = Some e →
           History.canUndo (historyManager app') = true
           ∧ js_index (History.history (historyManager app'))
               (History.currentIndex (historyManager app') - 1) = Some e.
Proof.
  intros Hsound Hidle Hbs.
  pose proof Hsound as (Hcv & (o & Ho & Hofit) & _).
  destruct (applyMosaic_done blockSize (mask_of app) (imageProcessor app) o
              Ho Hbs Hcv) as (result & Hengine & Happly & Hfit & Hopaque).
  unfold processImage.
  rewrite Hidle, (hasImage_sound app Hsound). cbn [orb negb].
  rewrite AppFacts.confirmation_guard_never_fires.
  fold (mask_of app). rewrite Happly.
  set (app1 := {| imageProcessor :=
                    {| canvas :=
                         putImageData result (canvas (imageProcessor app));
                       originalImageData :=
                         originalImageData (imageProcessor app) |};
                  selectionManager := selectionManager app;
                  historyManager := historyManager app;
                  isProcessing := true;
                  error := error app;
                  heap := heap app |}).
  assert (Hsound1 : sound app1) by by apply sound_canvas.
  destruct (saveCurrentState_synced "Mosaic Applied" now app1 Hsound1)
    as (Hsync & Hip & Hsm & Hbusy & Herr & Hsub & Hname & HM & Hprev).
  eexists. split; [reflexivity|].
  cbn [imageProcessor selectionManager historyManager isProcessing error heap].
  split.
  { eapply synced_fields; [| | |exact Hsync]; done. }
  rewrite Hip, Hsm, Herr. cbn [imageProcessor canvas originalImageData app1].
  split; [done|]. split; [by exists result|]. do 4 (split; [done|]).
  split; [exact Hsub|]. split; [exact Hname|]. split; [exact HM|].
  exact Hprev.
Qed.

End Session.

(** Going to an entry of the history: its raster is cloned and put on the
    canvas. *)
Lemma restore_entry (app : MosaicApp) (j : Z) (e : History.State)
    (sm' : Selection.SelectionManager float) (busy : bool) (err : option string) :
  sound app →
  js_index (History.history (historyManager app)) j = Some e →
  let c := History.cloneImageData (History.imageData e) (heap app) in
  putImageData (c.2 !!! c.1) (canvas (imageProcessor app))
  = heap app !!! (History.imageData e)
  ∧ heap app ⊆ c.2
  ∧ synced
      {| imageProcessor :=
           {| canvas := putImageData (c.2 !!! c.1)
                          (canvas (imageProcessor app));
              originalImageData := originalImageData (imageProcessor app) |};
         selectionManager := sm';
         historyManager :=
           {| History.history := History.history (historyManager app);
              History.currentIndex := j;
              History.maxHistorySize :=
                History.maxHistorySize (historyManager app) |};
         isProcessing := busy;
         error := err;
         heap := c.2 |}.
Proof.
  intros Hsound He c.
  destruct (sound_entry app j e Hsound He) as (img & Himg & Htot & Hfit).
  pose proof (js_index_inv _ _ _ He) as Hj.
  destruct Hsound as (Hcv & (o & Ho & Hofit) & Hwf & HM & Hall).
  cbv zeta in Hcv, Hofit, Hwf, HM, Hall.
  subst c. unfold History.cloneImageData, alloc. cbn [fst snd].
  rewrite lookup_total_insert_eq, Htot, (putImageData_fits _ _ Hfit).
  assert (Hsub : heap app ⊆ <[fresh (dom (heap app)) := img]> (heap app)).
  { apply insert_subseteq, not_elem_of_dom, is_fresh. }
  destruct Hfit as (Hw & Hh & Hlen).
  split; [done|]. split; [done|]. split.
  - unfold sound.
    cbn [imageProcessor canvas originalImageData historyManager heap
         History.history History.currentIndex History.maxHistorySize].
    split; [done|]. split.
    { exists o. split; [done|]. by apply (fits_same_size _ _ img) in Hofit. }
    split; [unfold History.len in *; simpl; lia|]. split; [done|].
    eapply Forall_impl; [exact Hall|]. intros e' (img' & Himg' & Hfit').
    exists img'. split; [by eapply lookup_weaken|].
    by apply (fits_same_size _ _ img) in Hfit'.
  - exists e.
    cbn [imageProcessor canvas historyManager heap
         History.history History.currentIndex].
    split; [done|].
    rewrite lookup_total_alt. by rewrite (lookup_weaken _ _ _ _ Himg Hsub).
Qed.

(** [undo()] of the application where there is something to undo. *)
Lemma undo_synced (app : MosaicApp) :
  sound app → History.canUndo (historyManager app) = true →
  ∃ e,
    js_index (History.history (historyManager app))
      (History.currentIndex (historyManager app) - 1) = Some e
    ∧ synced (undo app)
    ∧ canvas (imageProcessor (undo app)) = heap app !!! (History.imageData e)
    ∧ originalImageData (imageProcessor (undo app))
      = originalImageData (imageProcessor app)
    ∧ History.history (historyManager (undo app))
      = History.history (historyManager app)
    ∧ History.currentIndex (historyManager (undo app))
      = (History.currentIndex (historyManager app) - 1)%Z
    ∧ History.maxHistorySize (historyManager (undo app))
      = History.maxHistorySize (historyManager app)
    ∧ selectionManager (undo app)
      = Selection.clearSelection false (selectionManager app)
    ∧ isProcessing (undo app) = isProcessing app
    ∧ error (undo app) = error app
    ∧ heap app ⊆ heap (undo app).
Proof.
  intros Hsound Hcan.
  pose proof Hsound as (_ & _ & Hwf & _). cbv zeta in Hwf.
  assert (H0 : (0 < History.currentIndex (historyManager app))%Z)
    by by apply Z.ltb_lt.
  destruct (js_index_Some (History.history (historyManager app))
              (History.currentIndex (historyManager app) - 1)) as [e He];
    [unfold History.len in Hwf; lia|].
  exists e. split; [done|].
  destruct (restore_entry app _ e
              (Selection.clearSelection false (selectionManager app))
              (isProcessing app) (error app) Hsound He)
    as (Hput & Hsub & Hsync).
  unfold undo, History.undo. rewrite Hcan.
  cbn [negb History.history History.currentIndex]. rewrite He.
  destruct (History.cloneImageData (History.imageData e) (heap app))
    as [l σ'] eqn:Hclone.
  cbn [fst snd] in Hput, Hsub, Hsync.
  cbn [imageProcessor canvas originalImageData historyManager
       selectionManager isProcessing error heap
       History.history History.currentIndex History.maxHistorySize].
  by repeat (split; [done|]).
Qed.

(** [redo()] of the application where there is something to redo. *)
Lemma redo_synced (app : MosaicApp) :
  sound app → History.canRedo (historyManager app) = true →
  ∃ e,
    js_index (History.history (historyManager app))
      (History.currentIndex (historyManager app) + 1) = Some e
    ∧ synced (redo app)
    ∧ canvas (imageProcessor (redo app)) = heap app !!! (History.imageData e)
    ∧ originalImageData (imageProcessor (redo app))
      = originalImageData (imageProcessor app)
    ∧ History.history (historyManager (redo app))
      = History.history (historyManager app)
    ∧ History.currentIndex (historyManager (redo app))
      = (History.currentIndex (historyManager app) + 1)%Z
    ∧ History.maxHistorySize (historyManager (redo app))
      = History.maxHistorySize (historyManager app)
    ∧ selectionManager (redo app)
      = Selection.clearSelection false (selectionManager app)
    ∧ isProcessing (redo app) = isProcessing app
    ∧ error (redo app) = error app
    ∧ heap app ⊆ heap (redo app).
Proof.
  intros Hsound Hcan.
  pose proof Hsound as (_ & _ & Hwf & _). cbv zeta in Hwf.
  assert (H0 : (History.currentIndex (historyManager app)
                < History.len (historyManager app) - 1)%Z)
    by by apply Z.ltb_lt.
  destruct (js_index_Some (History.history (historyManager app))
              (History.currentIndex (historyManager app) + 1)) as [e He];
    [unfold History.len in Hwf, H0; lia|].
  exists e. split; [done|].
  destruct (restore_entry app _ e
              (Selection.clearSelection false (selectionManager app))
              (isProcessing app) (error app) Hsound He)
    as (Hput & Hsub & Hsync).
  unfold redo, History.redo. rewrite Hcan.
  cbn [negb History.history History.currentIndex]. rewrite He.
  destruct (History.cloneImageData (History.imageData e) (heap app))
    as [l σ'] eqn:Hclone.
  cbn [fst snd] in Hput, Hsub, Hsync.
  cbn [imageProcessor canvas originalImageData historyManager
       selectionManager isProcessing error heap
       History.history History.currentIndex History.maxHistorySize].
  by repeat (split; [done|]).
Qed.

(** With nothing to undo, to redo, the application stays as it is. *)
Lemma undo_idle (app : MosaicApp) :
  History.canUndo (historyManager app) = false → undo app = app.
Proof.
  intros Hcan. unfold undo, History.undo. rewrite Hcan. by destruct app.
Qed.

Lemma redo_idle (app : MosaicApp) :
  History.canRedo (historyManager app) = false → redo app = app.
Proof.
  intros Hcan. unfold redo, History.redo. rewrite Hcan. by destruct app.
Qed.

(** [resetToOriginal()] in a session in good order. *)
Lemma resetToOriginal_synced (now : Z) (app : MosaicApp) :
  sound app →
  let app' := resetToOriginal now app in
  synced app'
  ∧ originalImageData (imageProcessor app)
    = Some (canvas (imageProcessor app'))
  ∧ originalImageData (imageProcessor app')
    = originalImageData (imageProcessor app)
  ∧ selectionManager app'
    = Selection.clearSelection false (selectionManager app)
  ∧ isProcessing app' = isProcessing app
  ∧ error app' = error app
  ∧ heap app ⊆ heap app'
  ∧ History.getCurrentActionName (historyManager app')
    = Some "Reset to Original"
  ∧ History.maxHistorySize (historyManager app')
    = History.maxHistorySize (historyManager app)
  ∧ ∀ e, (2 ≤ History.maxHistorySize (historyManager app))%Z →
         js_index (History.history (historyManager app))
           (History.currentIndex (historyManager app)) = Some e →
         History.canUndo (historyManager app') = true
         ∧ js_index (History.history (historyManager app'))
             (History.currentIndex (historyManager app') - 1) = Some e.
Proof.
  intros Hsound app'. subst app'.
  pose proof Hsound as (Hcv & (o & Ho & Hofit) & _).
  unfold resetToOriginal, restoreOriginal. rewrite Ho.
  rewrite (putImageData_fits _ _ Hofit), <- Ho.
  set (app1 := {| imageProcessor :=
                    {| canvas := o;
                       originalImageData :=
                         originalImageData (imageProcessor app) |};
                  selectionManager := selectionManager app;
                  historyManager := historyManager app;
                  isProcessing := isProcessing app;
                  error := error app;
                  heap := heap app |}).
  assert (Hsound1 : sound app1) by by apply sound_canvas.
  destruct (saveCurrentState_synced "Reset to Original" now app1 Hsound1)
    as (Hsync & Hip & Hsm & Hbusy & Herr & Hsub & Hname & HM & Hprev).
  cbn [imageProcessor selectionManager historyManager isProcessing error heap].
  split.
  { eapply synced_fields; [| | |exact Hsync]; done. }
  rewrite Hip, Hsm, Hbusy, Herr.
  cbn [imageProcessor canvas originalImageData app1 selectionManager
       isProcessing error].
  by repeat (split; [done|]).
Qed.

Lemma fits_trans (a b c : ImageData) : fits a b → fits b c → fits a c.
Proof.
  unfold fits. intros (Hw & Hh & Hlen) (Hw' & Hh' & _).
  split; [congruence|]. split; [congruence|done].
Qed.

Lemma lookup_total_weaken (σ σ' : gmap nat ImageData) (r : nat)
    (img : ImageData) :
  σ !! r = Some img → σ ⊆ σ' → σ' !!! r = img.
Proof.
  intros Hr Hsub. rewrite lookup_total_alt.
  by rewrite (lookup_weaken _ _ _ _ Hr Hsub).
Qed.

(** Undoing right after an entry was pushed on top of the entry [e]. *)
Lemma undo_after_push (app app1 : MosaicApp) (e : History.State) :
  synced app1 →
  sound app →
  js_index (History.history (historyManager app))
    (History.currentIndex (historyManager app)) = Some e →
  heap app ⊆ heap app1 →
  History.canUndo (historyManager app1) = true →
  js_index (History.history (historyManager app1))
    (History.currentIndex (historyManager app1) - 1) = Some e →
  canvas (imageProcessor (undo app1)) = heap app !!! (History.imageData e)
  ∧ canvas (imageProcessor (redo (undo app1))) = canvas (imageProcessor app1).
Proof.
  intros (Hsound1 & e1 & He1 & Hshow1) Hsound He Hsub Hcan Hprev.
  destruct (sound_entry app _ e Hsound He) as (img & Himg & Htot & _).
  destruct (undo_synced app1 Hsound1 Hcan)
    as (e' & He' & (Hsound2 & _) & Hcv & _ & Hhist & Hci & _ & _ & _ & _ & Hsub1).
  rewrite Hprev in He'. injection He' as <-.
  split.
  { rewrite Hcv, Htot. by apply (lookup_total_weaken (heap app)). }
  pose proof Hsound1 as (_ & _ & Hwf & _). cbv zeta in Hwf.
  assert (Hredo : History.canRedo (historyManager (undo app1)) = true).
  { unfold History.canRedo, History.len. rewrite Hhist, Hci.
    apply Z.ltb_lt. unfold History.len in Hwf. lia. }
  destruct (redo_synced (undo app1) Hsound2 Hredo) as (e2 & He2 & _ & Hcv2 & _).
  rewrite Hhist, Hci in He2.
  replace (History.currentIndex (historyManager app1) - 1 + 1)%Z
    with (History.currentIndex (historyManager app1)) in He2 by lia.
  rewrite He1 in He2. injection He2 as <-.
  rewrite Hcv2, <- Hshow1.
  destruct (sound_entry app1 _ e1 Hsound1 He1) as (img1 & Himg1 & Htot1 & _).
  rewrite Htot1. by apply (lookup_total_weaken (heap app1)).
Qed.

(** The sample sessions are in good order. *)
Lemma loaded_synced : synced loaded.
Proof.
  unfold loaded.
  eapply (saveCurrentState_synced "Initial Image Load" 100).
  unfold sound, fits. simpl.
  split; [done|]. split; [by exists two_pixels|].
  split; [unfold History.len; simpl; lia|]. split; [lia|].
  apply Forall_nil_2.
Qed.

Lemma processed_synced : synced processed.
Proof.
  destruct (processImage_synced select_all 5 200 loaded)
    as (app' & Heq & Hsync & _);
    [apply loaded_synced|reflexivity|lia|].
  unfold processed. by rewrite Heq.
Qed.

Lemma loaded_selected_sound : sound loaded_selected.
Proof.
  destruct loaded_synced as [Hsound _].
  by apply (sound_fields loaded loaded_selected).
Qed.

Lemma loaded_translucent_synced : synced loaded_translucent.
Proof.
  unfold loaded_translucent.
  eapply (saveCurrentState_synced "Initial Image Load" 100).
  assert (Hfit : fits translucent translucent).
  { split; [done|]. split; [done|]. split; [done|].
    by apply putImageData_stable. }
  unfold sound. cbn [imageProcessor canvas originalImageData historyManager
                     heap History.history History.currentIndex
                     History.maxHistorySize History.constructor].
  split; [done|]. split; [by exists translucent|].
  split; [unfold History.len; simpl; lia|]. split; [lia|].
  apply Forall_nil_2.
Qed.

(** X20. In a session with an image loaded and no pass under way,
    [processImage] with a block size of at least 1 ends and shows no new
    error message.  The engine runs on the canvas content (the masked
    engine with the mask of the selection when a selection exists outside
    of full mode, the unmasked engine otherwise) and its result is written
    to the canvas with [putImageData]; the canvas then reads, at every
    pixel, the alpha of the result, and at every pixel of alpha 255 the
    colour of the result, so that for an opaque canvas content it reads
    the result itself.  What the canvas reads is the current history
    entry under the name "Mosaic Applied", the selection is cleared with
    its mode kept, the loaded image is untouched and [isProcessing] is
    reset. *)
Theorem processImage_applies
    (createSelectionMask :
       Selection.SelectionManager float → nat → nat → ImageData)
    (blockSize : nat) (now : Z) (app : MosaicApp) :
  sound app → isProcessing app = false → 1 ≤ blockSize →
  ∃ app' result,
    processImage createSelectionMask blockSize now app = Done app'
    ∧ (if Selection.hasSelection (selectionManager app)
          && negb (String.eqb
                     (Selection.selectionMode (selectionManager app)) "full")
       then _processMosaicWithMask (canvas (imageProcessor app)) blockSize
              (createSelectionMask (selectionManager app)
                 (width (canvas (imageProcessor app)))
                 (height (canvas (imageProcessor app))))
       else _processMosaic (canvas (imageProcessor app)) blockSize)
      = Some result
    ∧ canvas (imageProcessor app')
      = putImageData result (canvas (imageProcessor app))
    ∧ (∀ x y, x < width (canvas (imageProcessor app)) →
              y < height (canvas (imageProcessor app)) →
         chan (data (canvas (imageProcessor app')))
           (width (canvas (imageProcessor app))) x y 3
         = chan (data result) (width (canvas (imageProcessor app))) x y 3
         ∧ (chan (data result) (width (canvas (imageProcessor app))) x y 3
            = 255%Z →
            ∀ c, c < 3 →
              chan (data (canvas (imageProcessor app')))
                (width (canvas (imageProcessor app))) x y c
              = chan (data result)
                  (width (canvas (imageProcessor app))) x y c))
    ∧ (opaque (canvas (imageProcessor app)) →
       canvas (imageProcessor app') = result)
    ∧ synced app'
    ∧ History.getCurrentActionName (historyManager app')
      = Some "Mosaic Applied"
    ∧ selectionManager app'
      = Selection.clearSelectionKeepMode (selectionManager app)
    ∧ originalImageData (imageProcessor app')
      = originalImageData (imageProcessor app)
    ∧ isProcessing app' = false
    ∧ error app' = error app.
Proof.
  intros Hsound Hidle Hbs.
  destruct (processImage_synced createSelectionMask blockSize now app
              Hsound Hidle Hbs)
    as (app' & Heq & Hsync & _ & (result & Hengine & Hput & Hopaque) & Ho
        & Hsm & Hbusy & Herr & _ & Hname & _).
  exists app', result. split; [done|].
  cbv zeta in Hengine.
  pose proof Hsound as ((_ & _ & Hlen & Hstable) & _).
  set (mask := if Selection.hasSelection (selectionManager app)
                  && negb (String.eqb
                             (Selection.selectionMode (selectionManager app))
                             "full")
               then Some (createSelectionMask (selectionManager app)
                            (width (canvas (imageProcessor app)))
                            (height (canvas (imageProcessor app))))
               else None) in Hengine.
  destruct (engine_raster_opaque (canvas (imageProcessor app)) mask blockSize
              Hbs Hlen) as (out & Hout & Hw & Hh & _ & Hraster & _).
  rewrite Hengine in Hout. injection Hout as <-.
  split.
  { subst mask. by destruct (_ && _). }
  split; [done|]. split.
  { intros x y Hx Hy. rewrite Hput.
    apply putImageData_pixels; [done|done| |done|done].
    by apply Hraster, stable_raster. }
  by repeat (split; [done|]).
Qed.

(** The sample session with nothing selected takes the unmasked engine,
    the one with a confirmed rectangle the masked engine; on the image
    with translucent pixels the canvas does not read the result of the
    engine. *)
Lemma processImage_applies_witness :
  (∃ app' result,
     processImage select_all 5 200 loaded = Done app'
     ∧ _processMosaic two_pixels 5 = Some result
     ∧ canvas (imageProcessor app') = result
     ∧ History.getCurrentActionName (historyManager app')
       = Some "Mosaic Applied")
  ∧ (∃ app' result,
       processImage select_all 5 200 loaded_selected = Done app'
       ∧ _processMosaicWithMask two_pixels 5
           (select_all Selection.rectangle_confirmed 2 1) = Some result
       ∧ canvas (imageProcessor app') = result
       ∧ Selection.hasSelection (selectionManager app') = false)
  ∧ (∃ app' result,
       processImage select_all 2 200 loaded_translucent = Done app'
       ∧ _processMosaic translucent 2 = Some result
       ∧ canvas (imageProcessor app') = putImageData result translucent
       ∧ canvas (imageProcessor app') ≠ result).
Proof.
  split; [|split].
  - destruct (processImage_applies select_all 5 200 loaded)
      as (app' & result & Heq & Hengine & _ & _ & Hopaque & _ & Hname & _).
    + apply loaded_synced.
    + reflexivity.
    + lia.
    + exists app', result. split; [exact Heq|]. split; [exact Hengine|].
      split; [exact (Hopaque two_pixels_opaque)|exact Hname].
  - destruct (processImage_applies select_all 5 200 loaded_selected)
      as (app' & result & Heq & Hengine & _ & _ & Hopaque & _ & _ & Hsm & _).
    + apply loaded_selected_sound.
    + reflexivity.
    + lia.
    + exists app', result. split; [exact Heq|]. split; [exact Hengine|].
      split; [exact (Hopaque two_pixels_opaque)|].
      rewrite Hsm. reflexivity.
  - destruct (processImage_applies select_all 2 200 loaded_translucent)
      as (app' & result & Heq & Hengine & Hput & _).
    + apply loaded_translucent_synced.
    + reflexivity.
    + lia.
    + exists app', result. split; [exact Heq|]. split; [exact Hengine|].
      split; [exact Hput|].
      rewrite Hput. intros Hsame.
      assert (Hresult : _processMosaic translucent 2 = Some result)
        by exact Hengine.
      vm_compute in Hresult. injection Hresult as <-.
      vm_compute in Hsame. discriminate Hsame.
Defined.

(** X21. When the canvas shows the current history entry and the history
    has room for two entries, a mosaic pass followed by [undo()] puts the
    former canvas back, and a [redo()] after that puts the result of the
    pass back. *)
Theorem processImage_undo_redo
    (createSelectionMask : Selection.SelectionManager float → nat → nat → ImageData)
    (blockSize : nat) (now : Z) (app : MosaicApp) :
  synced app → isProcessing app = false → 1 ≤ blockSize →
  (2 ≤ History.maxHistorySize (historyManager app))%Z →
  ∃ app1,
    processImage createSelectionMask blockSize now app = Done app1
    ∧ canvas (imageProcessor (undo app1)) = canvas (imageProcessor app)
    ∧ canvas (imageProcessor (redo (undo app1))) = canvas (imageProcessor app1).
Proof.
  intros (Hsound & e & He & Hshow) Hidle Hbs HM.
  destruct (processImage_synced createSelectionMask blockSize now app
              Hsound Hidle Hbs)
    as (app1 & Heq & Hsync & _ & _ & _ & _ & _ & _ & Hsub & _ & _ & Hprev).
  destruct (Hprev e HM He) as (Hcan & Hprev').
  exists app1. split; [done|]. rewrite <- Hshow.
  by apply undo_after_push.
Qed.

Lemma processImage_undo_redo_witness :
  ∃ app1,
    processImage select_all 5 200 loaded = Done app1
    ∧ canvas (imageProcessor (undo app1)) = canvas (imageProcessor loaded)
    ∧ canvas (imageProcessor (redo (undo app1))) = canvas (imageProcessor app1).
Proof.
  apply (processImage_undo_redo select_all 5 200 loaded).
  - apply loaded_synced.
  - reflexivity.
  - lia.
  - vm_compute. discriminate.
Defined.

(** X22. [resetToOriginal] does nothing when no image is loaded.  In a
    session in good order it puts the loaded image on the canvas, makes
    that raster the current history entry under the name
    "Reset to Original" and clears the selection; when the canvas showed
    the current entry and the history has room for two entries, an
    [undo()] right after it puts the former canvas back. *)
Theorem resetToOriginal_restores (now : Z) (app : MosaicApp) :
  (originalImageData (imageProcessor app) = None →
   resetToOriginal now app = app)
  ∧ (sound app →
     let app' := resetToOriginal now app in
     originalImageData (imageProcessor app)
     = Some (canvas (imageProcessor app'))
     ∧ synced app'
     ∧ History.getCurrentActionName (historyManager app')
       = Some "Reset to Original"
     ∧ selectionManager app'
       = Selection.clearSelection false (selectionManager app)
     ∧ originalImageData (imageProcessor app')
       = originalImageData (imageProcessor app)
     ∧ isProcessing app' = isProcessing app
     ∧ error app' = error app
     ∧ (synced app →
        (2 ≤ History.maxHistorySize (historyManager app))%Z →
        canvas (imageProcessor (undo app')) = canvas (imageProcessor app))).
Proof.
  split.
  { intros Ho. unfold resetToOriginal, restoreOriginal. by rewrite Ho. }
  intros Hsound app'.
  destruct (resetToOriginal_synced now app Hsound)
    as (Hsync & Hcv & Ho & Hsm & Hbusy & Herr & Hsub & Hname & _ & Hprev).
  fold app' in Hsync, Hcv, Ho, Hsm, Hbusy, Herr, Hsub, Hname, Hprev.
  do 7 (split; [done|]).
  intros (_ & e & He & Hshow) HM.
  destruct (Hprev e HM He) as (Hcan & Hprev').
  rewrite <- Hshow. by apply (undo_after_push app app' e).
Qed.

Lemma resetToOriginal_restores_witness :
  let app' := resetToOriginal 300 processed in
  originalImageData (imageProcessor processed)
  = Some (canvas (imageProcessor app'))
  ∧ synced app'
  ∧ History.getCurrentActionName (historyManager app')
    = Some "Reset to Original"
  ∧ selectionManager app'
    = Selection.clearSelection false (selectionManager processed)
  ∧ originalImageData (imageProcessor app')
    = originalImageData (imageProcessor processed)
  ∧ isProcessing app' = isProcessing processed
  ∧ error app' = error processed
  ∧ (synced processed →
     (2 ≤ History.maxHistorySize (historyManager processed))%Z →
     canvas (imageProcessor (undo app')) = canvas (imageProcessor processed)).
Proof.
  destruct (resetToOriginal_restores 300 processed) as [_ Hreset].
  apply Hreset. apply processed_synced.
Defined.

(** X23. In a session in good order, [undo()] of the application with
    something to undo puts the raster of the entry before the current one
    on the canvas, makes it the current entry, keeps the entries and
    clears the selection; [redo()] does the same with the entry after the
    current one.  With nothing to undo, to redo, the session stays as it
    is.  Neither ends in an exception. *)
Theorem undo_redo_show_entries (app : MosaicApp) :
  sound app →
  (if History.canUndo (historyManager app) then
     ∃ e, js_index (History.history (historyManager app))
            (History.currentIndex (historyManager app) - 1) = Some e
          ∧ canvas (imageProcessor (undo app))
            = heap app !!! (History.imageData e)
          ∧ History.currentIndex (historyManager (undo app))
            = (History.currentIndex (historyManager app) - 1)%Z
          ∧ History.history (historyManager (undo app))
            = History.history (historyManager app)
          ∧ selectionManager (undo app)
            = Selection.clearSelection false (selectionManager app)
          ∧ synced (undo app)
   else undo app = app)
  ∧ (if History.canRedo (historyManager app) then
       ∃ e, js_index (History.history (historyManager app))
              (History.currentIndex (historyManager app) + 1) = Some e
            ∧ canvas (imageProcessor (redo app))
              = heap app !!! (History.imageData e)
            ∧ History.currentIndex (historyManager (redo app))
              = (History.currentIndex (historyManager app) + 1)%Z
            ∧ History.history (historyManager (redo app))
              = History.history (historyManager app)
            ∧ selectionManager (redo app)
              = Selection.clearSelection false (selectionManager app)
            ∧ synced (redo app)
     else redo app = app).
Proof.
  intros Hsound. split.
  - destruct (History.canUndo (historyManager app)) eqn:Hcan;
      [|by apply undo_idle].
    destruct (undo_synced app Hsound Hcan)
      as (e & He & Hsync & Hcv & _ & Hhist & Hci & _ & Hsm & _).
    exists e. by repeat (split; [done|]).
  - destruct (History.canRedo (historyManager app)) eqn:Hcan;
      [|by apply redo_idle].
    destruct (redo_synced app Hsound Hcan)
      as (e & He & Hsync & Hcv & _ & Hhist & Hci & _ & Hsm & _).
    exists e. by repeat (split; [done|]).
Qed.

Lemma undo_redo_show_entries_witness :
  (if History.canUndo (historyManager processed) then
     ∃ e, js_index (History.history (historyManager processed))
            (History.currentIndex (historyManager processed) - 1) = Some e
          ∧ canvas (imageProcessor (undo processed))
            = heap processed !!! (History.imageData e)
          ∧ History.currentIndex (historyManager (undo processed))
            = (History.currentIndex (historyManager processed) - 1)%Z
          ∧ History.history (historyManager (undo processed))
            = History.history (historyManager processed)
          ∧ selectionManager (undo processed)
            = Selection.clearSelection false (selectionManager processed)
          ∧ synced (undo processed)
   else undo processed = processed)
  ∧ (if History.canRedo (historyManager processed) then
       ∃ e, js_index (History.history (historyManager processed))
              (History.currentIndex (historyManager processed) + 1) = Some e
            ∧ canvas (imageProcessor (redo processed))
              = heap processed !!! (History.imageData e)
            ∧ History.currentIndex (historyManager (redo processed))
              = (History.currentIndex (historyManager processed) + 1)%Z
            ∧ History.history (historyManager (redo processed))
              = History.history (historyManager processed)
            ∧ selectionManager (redo processed)
              = Selection.clearSelection false (selectionManager processed)
            ∧ synced (redo processed)
     else redo processed = processed).
Proof.
  apply (undo_redo_show_entries processed).
  destruct processed_synced as [Hsound _]. exact Hsound.
Defined.

(** One step of the session keeps it in good order. *)
Lemma act_synced
    (createSelectionMask : Selection.SelectionManager float → nat → nat → ImageData)
    (a : Action) (app : MosaicApp) :
  synced app → isProcessing app = false → positive_block a →
  ∃ app',
    act createSelectionMask a app = Done app'
    ∧ synced app'
    ∧ isProcessing app' = false
    ∧ error app' = error app
    ∧ fits (canvas (imageProcessor app')) (canvas (imageProcessor app))
    ∧ originalImageData (imageProcessor app')
      = originalImageData (imageProcessor app)
    ∧ History.maxHistorySize (historyManager app')
      = History.maxHistorySize (historyManager app).
Proof.
  intros Hsync Hidle Hpos. pose proof Hsync as (Hsound & _).
  destruct a as [blockSize now| | |now]; cbn [act].
  - destruct (processImage_synced createSelectionMask blockSize now app
                Hsound Hidle Hpos)
      as (app' & Heq & Hsync' & Hfit & _ & Ho & _ & Hbusy & Herr & _ & _
          & HM & _).
    exists app'. by repeat (split; [done|]).
  - eexists. split; [reflexivity|].
    destruct (History.canUndo (historyManager app)) eqn:Hcan.
    + destruct (undo_synced app Hsound Hcan)
        as (e & He & Hsync' & Hcv & Ho & _ & _ & HM & _ & Hbusy & Herr & _).
      destruct (sound_entry app _ e Hsound He) as (img & _ & Htot & Hfit).
      rewrite Hcv, Htot, Hbusy, Herr. by repeat (split; [done|]).
    + rewrite (undo_idle app Hcan). destruct Hsound as (Hcv & _).
      by repeat (split; [done|]).
  - eexists. split; [reflexivity|].
    destruct (History.canRedo (historyManager app)) eqn:Hcan.
    + destruct (redo_synced app Hsound Hcan)
        as (e & He & Hsync' & Hcv & Ho & _ & _ & HM & _ & Hbusy & Herr & _).
      destruct (sound_entry app _ e Hsound He) as (img & _ & Htot & Hfit).
      rewrite Hcv, Htot, Hbusy, Herr. by repeat (split; [done|]).
    + rewrite (redo_idle app Hcan). destruct Hsound as (Hcv & _).
      by repeat (split; [done|]).
  - eexists. split; [reflexivity|].
    destruct (resetToOriginal_synced now app Hsound)
      as (Hsync' & Hcv & Ho & _ & Hbusy & Herr & _ & _ & HM & _).
    destruct Hsound as (_ & (o & Ho' & Hofit) & _).
    rewrite Ho' in Hcv. injection Hcv as Hcv.
    split; [done|]. split; [by rewrite Hbusy|]. split; [done|].
    split; [by rewrite <- Hcv|]. by split.
Qed.

(** X24. Whatever sequence of mosaic passes (block sizes of at least 1),
    undos, redos and resets follows the loading of an image, every one of
    them ends, none shows a new error message, and after them the canvas still shows
    the current entry of the history, has its size, and the loaded image
    and the capacity of the history are what they were. *)
Theorem session_invariant
    (createSelectionMask : Selection.SelectionManager float → nat → nat → ImageData)
    (l : list Action) (app : MosaicApp) :
  synced app → isProcessing app = false → Forall positive_block l →
  ∃ app',
    run_actions createSelectionMask l app = Done app'
    ∧ synced app'
    ∧ isProcessing app' = false
    ∧ error app' = error app
    ∧ fits (canvas (imageProcessor app')) (canvas (imageProcessor app))
    ∧ originalImageData (imageProcessor app')
      = originalImageData (imageProcessor app)
    ∧ History.maxHistorySize (historyManager app')
      = History.maxHistorySize (historyManager app).
Proof.
  intros Hsync Hidle Hall. revert app Hsync Hidle.
  induction Hall as [|a l Ha _ IH]; intros app Hsync Hidle.
  - exists app. pose proof Hsync as ((Hcv & _) & _).
    by repeat (split; [done|]).
  - destruct (act_synced createSelectionMask a app Hsync Hidle Ha)
      as (app1 & Heq & Hsync1 & Hidle1 & Herr1 & Hfit1 & Ho1 & HM1).
    destruct (IH app1 Hsync1 Hidle1)
      as (app' & Hrun & Hsync' & Hidle' & Herr' & Hfit' & Ho' & HM').
    exists app'. cbn [run_actions]. rewrite Heq.
    split; [done|]. split; [done|]. split; [done|].
    split; [congruence|]. split; [by eapply fits_trans|].
    split; congruence.
Qed.

Lemma session_invariant_witness :
  ∃ app',
    run_actions select_all [ActProcess 5 200; ActUndo; ActRedo; ActReset 300]
      loaded = Done app'
    ∧ synced app'
    ∧ isProcessing app' = false
    ∧ error app' = error loaded
    ∧ fits (canvas (imageProcessor app')) (canvas (imageProcessor loaded))
    ∧ originalImageData (imageProcessor app')
      = originalImageData (imageProcessor loaded)
    ∧ History.maxHistorySize (historyManager app')
      = History.maxHistorySize (historyManager loaded).
Proof.
  apply (session_invariant select_all
           [ActProcess 5 200; ActUndo; ActRedo; ActReset 300] loaded).
  - apply loaded_synced.
  - reflexivity.
  - repeat (apply Forall_cons_2; [simpl; lia|]). apply Forall_nil_2.
Defined.

End AppMore.
